(** * n8n-nodes-dav: the DAV request/response core

    A shallow embedding of the WebDAV, CalDAV and CardDAV nodes
    (nodes/*/*.node.ts): path normalisation, request composition,
    the regex based multi-status extractors, the error translator and
    the per-item batch loops, followed by the properties checked
    against the written specification. *)

From Stdlib Require Import ZArith Lia Ascii String.
From stdpp Require Import base option list gmap strings pretty.

Set Warnings "-register-all".
Local Open Scope Z_scope.

(** ** JavaScript strings

    A JavaScript string is a sequence of UTF-16 code units.  Field names
    and other identifiers of the program stay Rocq [string]s. *)

Abbreviation jsstring := (list Z).

Definition ch (a : ascii) : Z := Z.of_N (N_of_ascii a).

Definition js (s : string) : jsstring := map ch (list_ascii_of_string s).

(** Every code unit is a 16-bit value. *)
Definition wfString (s : jsstring) : Prop := Forall (fun c => 0 <= c < 65536) s.

Definition jsEqb (a b : jsstring) : bool := bool_decide (a = b).

Fixpoint startsWith (pat s : jsstring) : bool :=
  match pat, s with
  | [], _ => true
  | p :: pat', c :: s' => (p =? c) && startsWith pat' s'
  | _ :: _, [] => false
  end.

(** [s.includes(pat)] *)
Fixpoint includes (pat s : jsstring) : bool :=
  startsWith pat s ||
  match s with
  | [] => false
  | _ :: s' => includes pat s'
  end.

(** [s.split(sep)] for a one-character separator: never the empty list. *)
Fixpoint split (sep : Z) (s : jsstring) : list jsstring :=
  match s with
  | [] => [[]]
  | c :: rest =>
      if c =? sep then [] :: split sep rest
      else match split sep rest with
           | seg :: segs => (c :: seg) :: segs
           | [] => [[c]]
           end
  end.

(** [segs.join(sep)] *)
Fixpoint join (sep : Z) (segs : list jsstring) : jsstring :=
  match segs with
  | [] => []
  | [seg] => seg
  | seg :: rest => seg ++ sep :: join sep rest
  end.

(** ASCII case folding, which is all that the [i] flag of a regular
    expression without the [u] flag does to an ASCII pattern, and all that
    [toLowerCase] can contribute to a match against a pattern without
    the letter k. *)
Definition lowerAscii (c : Z) : Z :=
  if (65 <=? c) && (c <=? 90) then c + 32 else c.

Fixpoint startsWithCI (pat s : jsstring) : bool :=
  match pat, s with
  | [], _ => true
  | p :: pat', c :: s' => (lowerAscii p =? lowerAscii c) && startsWithCI pat' s'
  | _ :: _, [] => false
  end.

Fixpoint includesCI (pat s : jsstring) : bool :=
  startsWithCI pat s ||
  match s with
  | [] => false
  | _ :: s' => includesCI pat s'
  end.

(** Decimal rendering of an integer, as a template literal prints it
    when the magnitude is below 10^21; from there on JavaScript prints a
    number in exponent notation, which is outside this model. *)
Definition digitsOf (n : Z) : jsstring :=
  js (pretty (Z.to_N n)).

Definition numberToString (n : Z) : jsstring :=
  if n <? 0 then ch "-" :: digitsOf (- n) else digitsOf n.

(** ** Errors and the result monad *)

(** The shape of whatever the HTTP helper throws, as far as
    [toFriendlyError] looks into it. *)
Record responseInfo := {
  ri_status : option Z;
  ri_statusText : option jsstring;
}.

Record rawError := {
  e_message : option jsstring;        (* e?.message *)
  e_toString : jsstring;              (* String(e) *)
  e_code : option jsstring;           (* e?.code *)
  e_statusCode : option Z;            (* e?.statusCode *)
  e_response : option responseInfo;   (* e?.response *)
  e_causeResponse : option responseInfo; (* e?.cause?.response *)
}.

(** [NodeOperationError msg itemIndex] is the error that
    [new NodeOperationError(node, msg, { itemIndex })] builds: [msg] is
    the text, or the message of the error, handed to the constructor.
    The library derives the text it shows from [msg] and substitutes a
    description of its own when [msg] holds the name of a common system
    error; that substitution is not part of this model. *)
Inductive jserror :=
| URIError
| TypeError (msg : jsstring)
| NodeOperationError (msg : jsstring) (itemIndex : option nat)
| Thrown (e : rawError).

Inductive result (A : Type) :=
| Ok (a : A)
| Err (e : jserror).
Arguments Ok {A} a.
Arguments Err {A} e.

Definition bind {A B} (m : result A) (k : A -> result B) : result B :=
  match m with
  | Ok a => k a
  | Err e => Err e
  end.

Notation "'let*' x := m 'in' k" := (bind m (fun x => k))
  (at level 10, x pattern, m at level 100, k at level 200).

Fixpoint mapM {A B} (f : A -> result B) (l : list A) : result (list B) :=
  match l with
  | [] => Ok []
  | a :: l' => let* b := f a in let* bs := mapM f l' in Ok (b :: bs)
  end.

(** ** encodeURIComponent and decodeURIComponent

    Modelled from ECMA-262 (Encode and Decode of the URI handling
    functions): a percent escape is [%] followed by two hexadecimal
    digits, upper case when produced; code points are carried as UTF-8. *)

Definition isAlnum (c : Z) : bool :=
  ((48 <=? c) && (c <=? 57)) || ((65 <=? c) && (c <=? 90)) ||
  ((97 <=? c) && (c <=? 122)).

Definition uriMark : jsstring := js "-_.!~*'()".

Definition uriUnescaped (c : Z) : bool :=
  isAlnum c || existsb (Z.eqb c) uriMark.

Definition hexDigit (d : Z) : Z := if d <? 10 then 48 + d else 55 + d.

Definition hexValue (c : Z) : option Z :=
  if (48 <=? c) && (c <=? 57) then Some (c - 48)
  else if (65 <=? c) && (c <=? 70) then Some (c - 55)
  else if (97 <=? c) && (c <=? 102) then Some (c - 87)
  else None.

(** One octet as [%XY]. *)
Definition pctEncode (b : Z) : jsstring :=
  [37; hexDigit (b / 16); hexDigit (b mod 16)].

Definition pctEncodeAll (bs : list Z) : jsstring :=
  concat (map pctEncode bs).

Definition utf8Encode (cp : Z) : list Z :=
  if cp <? 128 then [cp]
  else if cp <? 2048 then [192 + cp / 64; 128 + cp mod 64]
  else if cp <? 65536 then
    [224 + cp / 4096; 128 + (cp / 64) mod 64; 128 + cp mod 64]
  else
    [240 + cp / 262144; 128 + (cp / 4096) mod 64;
     128 + (cp / 64) mod 64; 128 + cp mod 64].

Definition isLeadSurrogate (c : Z) : bool := (55296 <=? c) && (c <=? 56319).
Definition isTrailSurrogate (c : Z) : bool := (56320 <=? c) && (c <=? 57343).

Definition surrogatePairToCodePoint (lead trail : Z) : Z :=
  (lead - 55296) * 1024 + (trail - 56320) + 65536.

Fixpoint encodeURIComponent (s : jsstring) : result jsstring :=
  match s with
  | [] => Ok []
  | c :: rest =>
      if uriUnescaped c then
        let* r := encodeURIComponent rest in Ok (c :: r)
      else if isLeadSurrogate c then
        match rest with
        | d :: rest' =>
            if isTrailSurrogate d then
              let* r := encodeURIComponent rest' in
              Ok (pctEncodeAll (utf8Encode (surrogatePairToCodePoint c d)) ++ r)
            else Err URIError
        | [] => Err URIError
        end
      else if isTrailSurrogate c then Err URIError
      else
        let* r := encodeURIComponent rest in Ok (pctEncodeAll (utf8Encode c) ++ r)
  end.

(** Number of leading one bits of an octet (5 stands for "more than 4"). *)
Definition leadingOnes (b : Z) : nat :=
  if b <? 128 then 0%nat
  else if b <? 192 then 1%nat
  else if b <? 224 then 2%nat
  else if b <? 240 then 3%nat
  else if b <? 248 then 4%nat
  else 5%nat.

(** [%XY] at the front of [s]: the octet and what follows. *)
Definition readEscape (s : jsstring) : option (Z * jsstring) :=
  match s with
  | p :: h :: l :: rest =>
      if p =? 37 then
        match hexValue h, hexValue l with
        | Some a, Some b => Some (16 * a + b, rest)
        | _, _ => None
        end
      else None
  | _ => None
  end.

(** [n] continuation octets [10xxxxxx], each written as an escape. *)
Fixpoint readContinuation (n : nat) (s : jsstring) : option (list Z * jsstring) :=
  match n with
  | O => Some ([], s)
  | S n' =>
      match readEscape s with
      | Some (b, s1) =>
          if (128 <=? b) && (b <? 192) then
            match readContinuation n' s1 with
            | Some (bs, s2) => Some (b :: bs, s2)
            | None => None
            end
          else None
      | None => None
      end
  end.

(** The code point of a well-formed UTF-8 sequence: no overlong form, no
    surrogate, nothing above U+10FFFF. *)
Definition utf8Decode (b0 : Z) (conts : list Z) : option Z :=
  match conts with
  | [b1] =>
      let cp := (b0 - 192) * 64 + (b1 - 128) in
      if 128 <=? cp then Some cp else None
  | [b1; b2] =>
      let cp := (b0 - 224) * 4096 + (b1 - 128) * 64 + (b2 - 128) in
      if (2048 <=? cp) && negb ((55296 <=? cp) && (cp <=? 57343))
      then Some cp else None
  | [b1; b2; b3] =>
      let cp := (b0 - 240) * 262144 + (b1 - 128) * 4096 +
                (b2 - 128) * 64 + (b3 - 128) in
      if (65536 <=? cp) && (cp <=? 1114111) then Some cp else None
  | _ => None
  end.

Definition utf16Encode (cp : Z) : jsstring :=
  if cp <? 65536 then [cp]
  else [(cp - 65536) / 1024 + 55296; (cp - 65536) mod 1024 + 56320].

(** One escape sequence at the front of [s] (which starts with [%]): the
    code units it stands for and the number of code units it takes. *)
Definition decodeEscape (s : jsstring) : result (jsstring * nat) :=
  match readEscape s with
  | None => Err URIError
  | Some (b, s1) =>
      match leadingOnes b with
      | 0%nat => Ok ([b], 3%nat)
      | 2%nat | 3%nat | 4%nat =>
          let n := leadingOnes b in
          match readContinuation (n - 1) s1 with
          | None => Err URIError
          | Some (conts, _) =>
              match utf8Decode b conts with
              | None => Err URIError
              | Some cp => Ok (utf16Encode cp, (3 * n)%nat)
              end
          end
      | _ => Err URIError
      end
  end.

(** The loop of Decode: [skip] code units of an escape already consumed
    are stepped over, like the index [k] running ahead. *)
Fixpoint decodeFrom (skip : nat) (s : jsstring) : result jsstring :=
  match s with
  | [] => Ok []
  | c :: rest =>
      match skip with
      | S k => decodeFrom k rest
      | O =>
          if c =? 37 then
            let* (units, used) := decodeEscape s in
            let* r := decodeFrom (used - 1) rest in
            Ok (units ++ r)
          else
            let* r := decodeFrom 0 rest in Ok (c :: r)
      end
  end.

Definition decodeURIComponent (s : jsstring) : result jsstring :=
  decodeFrom 0 s.

(** ** normalizePath *)

(** [/^https?:\/\//i.test(p)] *)
Definition isAbsoluteUrl (p : jsstring) : bool :=
  startsWithCI (js "http://") p || startsWithCI (js "https://") p.

(** The callback of [.map] in normalizePath. *)
Definition encodeSegment (seg : jsstring) : result jsstring :=
  match seg with
  | [] => Ok []
  | _ =>
      match (let* d := decodeURIComponent seg in encodeURIComponent d) with
      | Ok r => Ok r
      | Err _ => encodeURIComponent seg
      end
  end.

(** The part of normalizePath that both variants share; [onAbsolute] is
    what a variant does with an absolute URL. *)
Definition normalizeWith (onAbsolute : jsstring -> result jsstring)
    (p : jsstring) : result jsstring :=
  if jsEqb p [] || jsEqb p (js "/") then Ok (js "/")
  else if isAbsoluteUrl p then onAbsolute p
  else
    let raw := if startsWith (js "/") p then drop 1 p else p in
    let* segs := mapM encodeSegment (split 47 raw) in
    Ok (47 :: join 47 segs).


(** ** Scanning with [/<tag[^>]*>(.*?)<\/tag>/]

    Every regular expression of the extractors has this one shape: a
    literal opening, the rest of the opening tag up to its [>], the
    shortest text that is followed by the literal closing tag.  With the
    [s] flag the dot also matches line terminators. *)

Record tagRegex := {
  re_open : jsstring;
  re_close : jsstring;
  re_dotAll : bool;
}.

Definition isLineTerminator (c : Z) : bool :=
  (c =? 10) || (c =? 13) || (c =? 8232) || (c =? 8233).

Fixpoint stripPrefix (pat s : jsstring) : option jsstring :=
  match pat with
  | [] => Some s
  | p :: pat' =>
      match s with
      | c :: s' => if p =? c then stripPrefix pat' s' else None
      | [] => None
      end
  end.

(** [[^>]*>]: what follows the first [>]. *)
Fixpoint afterGt (s : jsstring) : option jsstring :=
  match s with
  | [] => None
  | c :: s' => if c =? 62 then Some s' else afterGt s'
  end.

(** [(.*?)close]: the shortest capture and what follows the closing tag. *)
Fixpoint lazyUntil (dotAll : bool) (close s : jsstring) : option (jsstring * jsstring) :=
  match stripPrefix close s with
  | Some rest => Some ([], rest)
  | None =>
      match s with
      | [] => None
      | c :: s' =>
          if dotAll || negb (isLineTerminator c) then
            match lazyUntil dotAll close s' with
            | Some (cap, rest) => Some (c :: cap, rest)
            | None => None
            end
          else None
      end
  end.

(** A match that starts at the first code unit of [s]: capture group 1
    and the text that follows the match. *)
Definition matchAt (re : tagRegex) (s : jsstring) : option (jsstring * jsstring) :=
  match stripPrefix (re_open re) s with
  | None => None
  | Some s1 =>
      match afterGt s1 with
      | None => None
      | Some s2 => lazyUntil (re_dotAll re) (re_close re) s2
      end
  end.

(** [s.match(re)] without the [g] flag: group 1 of the leftmost match. *)
Fixpoint matchFirst (re : tagRegex) (s : jsstring) : option jsstring :=
  match matchAt re s with
  | Some (cap, _) => Some cap
  | None =>
      match s with
      | [] => None
      | _ :: s' => matchFirst re s'
      end
  end.

(** [while ((match = re.exec(s)) !== null) body(match[1])] with the [g]
    flag: after a match the search resumes behind it ([skip] counts the
    code units of the match still to step over).  [body] returns the record
    it pushes, if any, or throws. *)
Fixpoint whileExec {R} (re : tagRegex) (body : jsstring -> result (option R))
    (skip : nat) (s : jsstring) : result (list R) :=
  match s with
  | [] => Ok []
  | _ :: s' =>
      match skip with
      | S k => whileExec re body k s'
      | O =>
          match matchAt re s with
          | Some (cap, rest) =>
              let* pushed := body cap in
              let* more := whileExec re body (length s - length rest - 1) s' in
              Ok (match pushed with Some r => r :: more | None => more end)
          | None => whileExec re body 0 s'
          end
      end
  end.

(** The chunks alone, one per [<D:response>] match, in document order. *)
Fixpoint execAll (re : tagRegex) (skip : nat) (s : jsstring) : list jsstring :=
  match s with
  | [] => []
  | _ :: s' =>
      match skip with
      | S k => execAll re k s'
      | O =>
          match matchAt re s with
          | Some (cap, rest) => cap :: execAll re (length s - length rest - 1) s'
          | None => execAll re 0 s'
          end
      end
  end.

Definition tag (name : string) (dotAll : bool) : tagRegex :=
  {| re_open := js "<" ++ js name;
     re_close := js "</" ++ js name ++ js ">";
     re_dotAll := dotAll |}.

Definition responseRegex : tagRegex := tag "D:response" true.
Definition hrefRegex : tagRegex := tag "D:href" false.

(** ** JSON values *)

Inductive jsval :=
| JNull
| JUndefined
| JBool (b : bool)
| JNum (n : Z)
| JParseInt (s : jsstring)   (* parseInt(s), left unevaluated *)
| JNumberOf (s : jsstring)   (* Number(s), left unevaluated *)
| JStr (s : jsstring)
| JArr (l : list jsval)
| JObj (fields : list (string * jsval))
| JErr (e : jserror).

Definition orNull (o : option jsstring) : jsval :=
  match o with
  | Some s => JStr s
  | None => JNull
  end.

Fixpoint getField (k : string) (fields : list (string * jsval)) : option jsval :=
  match fields with
  | [] => None
  | (k', v) :: rest => if String.eqb k k' then Some v else getField k rest
  end.

(** [obj.k = v]: an existing property keeps its place. *)
Fixpoint setField (k : string) (v : jsval) (fields : list (string * jsval))
    : list (string * jsval) :=
  match fields with
  | [] => [(k, v)]
  | (k', v') :: rest =>
      if String.eqb k k' then (k, v) :: rest else (k', v') :: setField k v rest
  end.

(** ** The extractors *)

(** The loop body of parseCalendarsResponse (CalDav.node.ts). *)
Definition calendarOfResponse (responseXml : jsstring) : result (option jsval) :=
  let hrefMatch := matchFirst hrefRegex responseXml in
  let displayNameMatch := matchFirst (tag "D:displayname" false) responseXml in
  let descriptionMatch := matchFirst (tag "C:calendar-description" false) responseXml in
  match hrefMatch with
  | Some h =>
      let* href := decodeURIComponent h in
      Ok (Some (JObj [("href", JStr href);
                      ("displayName", orNull displayNameMatch);
                      ("description", orNull descriptionMatch)]))
  | None => Ok None
  end.

Definition parseCalendarsResponse (xmlData : jsstring) : result (list jsval) :=
  whileExec responseRegex calendarOfResponse 0 xmlData.

(** The loop body of parseEventsResponse (CalDav.node.ts). *)
Definition eventOfResponse (responseXml : jsstring) : result (option jsval) :=
  let hrefMatch := matchFirst hrefRegex responseXml in
  let etagMatch := matchFirst (tag "D:getetag" false) responseXml in
  let calendarDataMatch := matchFirst (tag "C:calendar-data" true) responseXml in
  match hrefMatch, calendarDataMatch with
  | Some h, Some data =>
      let* href := decodeURIComponent h in
      Ok (Some (JObj [("href", JStr href);
                      ("etag", orNull etagMatch);
                      ("calendarData", JStr data)]))
  | _, _ => Ok None
  end.

Definition parseEventsResponse (xmlData : jsstring) : result (list jsval) :=
  whileExec responseRegex eventOfResponse 0 xmlData.

(** The loop body of parsePropfindResponse (WebDav.node.ts). *)
Definition resourceOfResponse (responseXml : jsstring) : result (option jsval) :=
  let hrefMatch := matchFirst hrefRegex responseXml in
  let contentTypeMatch := matchFirst (tag "D:getcontenttype" false) responseXml in
  let lastModifiedMatch := matchFirst (tag "D:getlastmodified" false) responseXml in
  let contentLengthMatch := matchFirst (tag "D:getcontentlength" false) responseXml in
  let resourceTypeMatch := matchFirst (tag "D:resourcetype" false) responseXml in
  match hrefMatch with
  | Some h =>
      let* href := decodeURIComponent h in
      Ok (Some (JObj [("href", JStr href);
                      ("contentType", orNull contentTypeMatch);
                      ("lastModified", orNull lastModifiedMatch);
                      ("contentLength",
                       match contentLengthMatch with
                       | Some n => JParseInt n
                       | None => JNull
                       end);
                      ("isCollection",
                       JBool match resourceTypeMatch with
                             | Some t => includes (js "collection") t
                             | None => false
                             end)]))
  | None => Ok None
  end.

Definition parsePropfindResponse (xmlData : jsstring) : result (list jsval) :=
  whileExec responseRegex resourceOfResponse 0 xmlData.

(** The loop bodies of parseAddressBooksResponse and parseContactsResponse
    (CardDav.node.ts). *)
Definition addressBookOfResponse (responseXml : jsstring) : result (option jsval) :=
  let hrefMatch := matchFirst hrefRegex responseXml in
  let displayNameMatch := matchFirst (tag "D:displayname" false) responseXml in
  let descriptionMatch := matchFirst (tag "C:addressbook-description" false) responseXml in
  match hrefMatch with
  | Some h =>
      let* href := decodeURIComponent h in
      Ok (Some (JObj [("href", JStr href);
                      ("displayName", orNull displayNameMatch);
                      ("description", orNull descriptionMatch)]))
  | None => Ok None
  end.

Definition parseAddressBooksResponse (xmlData : jsstring) : result (list jsval) :=
  whileExec responseRegex addressBookOfResponse 0 xmlData.

Definition contactOfResponse (responseXml : jsstring) : result (option jsval) :=
  let hrefMatch := matchFirst hrefRegex responseXml in
  let etagMatch := matchFirst (tag "D:getetag" false) responseXml in
  let addressDataMatch := matchFirst (tag "C:address-data" true) responseXml in
  match hrefMatch, addressDataMatch with
  | Some h, Some data =>
      let* href := decodeURIComponent h in
      Ok (Some (JObj [("href", JStr href);
                      ("etag", orNull etagMatch);
                      ("addressData", JStr data)]))
  | _, _ => Ok None
  end.

Definition parseContactsResponse (xmlData : jsstring) : result (list jsval) :=
  whileExec responseRegex contactOfResponse 0 xmlData.

(** ** toFriendlyError *)

(** A string that is defined and not empty. *)
Definition truthy (o : option jsstring) : option jsstring :=
  match o with
  | Some (c :: s) => Some (c :: s)
  | _ => None
  end.

(** [a ?? b] *)
Definition coalesce {A} (a b : option A) : option A :=
  match a with
  | Some _ => a
  | None => b
  end.

Definition quoted (s : jsstring) : jsstring := 34 :: s ++ [34].

Definition hasCode (e : rawError) (code : string) : bool :=
  bool_decide (e_code e = Some (js code)).

(** [base]; [family] is the literal it starts with: WebDAV, CalDAV or
    CardDAV, [operation] the variable the closure captures. *)
Definition friendlyBase (family : string) (operation resource u : jsstring)
    : jsstring :=
  js family ++ js " " ++ operation ++ js " on " ++ resource ++ js ": " ++ quoted u.

(** [msg], that is [String(e?.message || e)]. *)
Definition messageText (e : rawError) : jsstring :=
  match truthy (e_message e) with
  | Some m => m
  | None => e_toString e
  end.

Definition toFriendlyError (family : string) (operation : jsstring)
    (e : rawError) (u resource : jsstring) : jsstring :=
  let base := friendlyBase family operation resource u in
  let msg := messageText e in
  if includesCI (js "Invalid URL") msg then
    js "Invalid URL for " ++ base ++
    js ". Ensure Base URL has protocol (https://) and path starts with " ++
    quoted (js "/") ++ js ". Spaces/special chars are auto-encoded."
  else if hasCode e "ENOTFOUND" then
    js "Host not found for " ++ base ++
    js ". Check the server hostname in credentials."
  else if hasCode e "ECONNREFUSED" then
    js "Connection refused for " ++ base ++
    js ". Server unreachable or port blocked."
  else if hasCode e "ETIMEDOUT" then
    js "Connection timed out for " ++ base ++
    js ". Server slow or network issues."
  else
    let status :=
      coalesce (e_statusCode e)
        (coalesce (e_response e ≫= ri_status) (e_causeResponse e ≫= ri_status)) in
    let statusText :=
      coalesce (e_response e ≫= ri_statusText)
               (e_causeResponse e ≫= ri_statusText) in
    let fallback := msg ++ js " (" ++ base ++ js ")" in
    match status with
    | Some n =>
        if n =? 0 then fallback
        else js "HTTP " ++ numberToString n ++
             match truthy statusText with
             | Some t => 32 :: t
             | None => []
             end ++ js " for " ++ base ++ js "."
    | None => fallback
    end.

Definition plainError (name message : jsstring) : rawError :=
  {| e_message := Some message;
     e_toString := name ++ js ": " ++ message;
     e_code := None; e_statusCode := None;
     e_response := None; e_causeResponse := None |}.

(** What a [catch (e: any)] sees of each kind of error. *)
Definition asRaw (err : jserror) : rawError :=
  match err with
  | Thrown e => e
  | URIError => plainError (js "URIError") (js "URI malformed")
  | TypeError m => plainError (js "TypeError") m
  | NodeOperationError m _ => plainError (js "NodeOperationError") m
  end.

(** [(error as Error).message] *)
Definition messageOf (err : jserror) : jsval :=
  match e_message (asRaw err) with
  | Some m => JStr m
  | None => JUndefined
  end.

(** The branch of the batch loops that stops the run: an error that has a
    [context] gets the item index written into it and is thrown again,
    any other is wrapped. *)
Definition decorate (err : jserror) (itemIndex : nat) : jserror :=
  match err with
  | NodeOperationError m _ => NodeOperationError m (Some itemIndex)
  | _ => NodeOperationError
           (match e_message (asRaw err) with
            | Some m => m
            | None => e_toString (asRaw err)
            end) (Some itemIndex)
  end.

(** ** Requests, responses and the host *)

Inductive payload :=
| RawText (s : jsstring)                 (* text handed in by the caller *)
| RawBytes (b : list Z)                  (* a Buffer *)
| PropfindXml (props : list string)      (* the fixed D:propfind document *)
| CalendarQueryXml (timeRange : option (jsstring * jsstring))
| AddressbookQueryXml (props : list string) (filter : option (string * jsstring)).

Record request := {
  rq_method : string;
  rq_url : jsstring;
  rq_headers : list (string * jsstring);
  rq_body : option payload;
}.

Definition getHeader (name : string) (headers : list (string * jsstring))
    : option jsstring :=
  snd <$> find (fun kv => String.eqb name (fst kv)) headers.

Definition withUrl (rq : request) (u : jsstring) : request :=
  {| rq_method := rq_method rq; rq_url := u;
     rq_headers := rq_headers rq; rq_body := rq_body rq |}.

Record response := {
  rs_status : Z;
  rs_headers : list (string * jsstring);
  rs_data : option jsstring;     (* response.data *)
  rs_body : option (list Z);     (* response.body, a Buffer *)
}.

Record binaryRef := {
  mimeType : option jsstring;
}.

(** The names that every object inherits from [Object.prototype]
    (ECMA-262, with its Annex B): under each of them [obj[name]] finds a
    function, or the prototype itself. *)
Definition objectPrototypeKeys : list jsstring :=
  map js ["constructor"; "hasOwnProperty"; "isPrototypeOf"; "propertyIsEnumerable";
          "toLocaleString"; "toString"; "valueOf"; "__proto__";
          "__defineGetter__"; "__defineSetter__"; "__lookupGetter__";
          "__lookupSetter__"].

(** [binary[name]], as far as the upload looks at it: an entry of the
    item's own or, failing that, what the object inherits under that
    name, which is truthy and has no [mimeType]. *)
Definition binaryProperty (name : jsstring) (binary : list (jsstring * binaryRef))
    : option binaryRef :=
  match find (fun kv => jsEqb name (fst kv)) binary with
  | Some kv => Some (snd kv)
  | None =>
      if bool_decide (name ∈ objectPrototypeKeys) then Some {| mimeType := None |}
      else None
  end.

(** A work item.  [it_json] is the address of its [json] object: the
    calendar and address-book nodes assign into that object and alias it
    from the records they append. *)
Record item := {
  it_json : nat;
  it_binary : option (list (jsstring * binaryRef));
  it_error : option jserror;
  it_pairedItem : option nat;
}.

(** What [new URL(s)] exposes of a parsed URL. *)
Record url := {
  origin : jsstring;
  href : jsstring;
}.

(** Everything the nodes consume from n8n and from the platform. *)
Record Host := {
  h_baseUrl : option jsstring;      (* creds?.baseUrl *)
  h_continueOnFail : bool;
  h_stringParam : string -> nat -> result (option jsstring);
  h_boolParam : string -> nat -> result (option bool);
  h_send : request -> result response;
  h_getInputData : nat -> list item -> result (list item);
  h_getBinaryDataBuffer : nat -> jsstring -> result (list Z);
  h_prepareBinaryData : list Z -> jsstring -> option jsstring -> result jsval;
  h_newURL : jsstring -> option url;
  h_toISOString : jsstring -> result jsstring;           (* new Date(s).toISOString() *)
  h_dayBounds : jsstring -> result (jsstring * jsstring);  (* setHours(0,0,0,0) and (23,59,59,999) *)
}.

(** Computations that may send requests: the requests sent, in order, and
    the value or the error thrown. *)
Definition io (A : Type) : Type := list request * result A.

Definition ioLift {A} (r : result A) : io A := ([], r).

Definition ioBind {A B} (m : io A) (k : A -> io B) : io B :=
  match m with
  | (sent, Ok a) => let (sent', r) := k a in (sent ++ sent', r)
  | (sent, Err e) => (sent, Err e)
  end.

Notation "'let!' x := m 'in' k" := (ioBind m (fun x => k))
  (at level 10, x pattern, m at level 100, k at level 200).

Definition send (h : Host) (rq : request) : io response := ([rq], h_send h rq).

(** [this.getNodeParameter(name, itemIndex, fallback)] *)
Definition stringParam (h : Host) (name : string) (itemIndex : nat)
    (fallback : jsstring) : result jsstring :=
  let* v := h_stringParam h name itemIndex in Ok (default fallback v).

Definition boolParam (h : Host) (name : string) (itemIndex : nat)
    (fallback : bool) : result bool :=
  let* v := h_boolParam h name itemIndex in Ok (default fallback v).

(** A parameter read without a fallback, then printed in a template. *)
Definition shown (o : option jsstring) : jsstring := default (js "undefined") o.

Definition isWhiteSpace (c : Z) : bool :=
  bool_decide (c ∈ [9; 10; 11; 12; 13; 32; 160; 5760; 8232; 8233; 8239; 8287; 12288; 65279])
  || ((8192 <=? c) && (c <=? 8202)).

Fixpoint trimStart (s : jsstring) : jsstring :=
  match s with
  | c :: s' => if isWhiteSpace c then trimStart s' else s
  | [] => []
  end.

Definition trim (s : jsstring) : jsstring :=
  reverse (trimStart (reverse (trimStart s))).

(** [baseUrl.replace(/\/$/, '')] *)
Definition stripTrailingSlash (s : jsstring) : jsstring :=
  match reverse s with
  | c :: r => if c =? 47 then reverse r else s
  | [] => s
  end.

Definition invalidBaseUrl : jserror :=
  NodeOperationError
    (js "Invalid Base URL in credentials. Include protocol (http:// or https://), e.g. https://your-server/remote.php/dav")
    None.

(** The check at the head of [execute]: the trimmed base URL, or the
    error that ends the run. *)
Definition validateBaseUrl (h : Host) : result jsstring :=
  match trim <$> h_baseUrl h with
  | Some (c :: b) =>
      if isAbsoluteUrl (c :: b) then Ok (c :: b) else Err invalidBaseUrl
  | _ => Err invalidBaseUrl
  end.

(** [200 <= status && status < 300] *)
Definition is2xx (status : Z) : bool := (200 <=? status) && (status <? 300).

Definition unsupported (operation : option jsstring) : jserror :=
  NodeOperationError (js "Operation " ++ shown operation ++ js " not supported") None.

(** ** The WebDAV node (nodes/WebDav/WebDav.node.ts) *)

Module WebDav.

Definition absoluteNotAllowed : jserror :=
  NodeOperationError
    (js "Absolute URLs are not allowed in path fields. Use a server-relative path starting with " ++
     quoted (js "/") ++ js ".") None.

(** This variant refuses absolute URLs. *)
Definition normalizePath (p : jsstring) : result jsstring :=
  normalizeWith (fun _ => Err absoluteNotAllowed) p.

Record outItem := {
  o_json : jsval;
  o_binary : option jsval;
  o_pairedItem : option nat;
}.

Definition jsonItem (fields : list (string * jsval)) : outItem :=
  {| o_json := JObj fields; o_binary := None; o_pairedItem := None |}.

Section PerItem.

Variable h : Host.
Variable baseRoot : jsstring.
Variable items : list item.
Variable itemIndex : nat.
Variable operation : option jsstring.

(** The [catch] of doRequest: [u] is [__displayUrl ?? url] at that point. *)
Definition failRequest {A} (e : jserror) (u : jsstring) : result A :=
  let* resource := h_stringParam h "resource" itemIndex in
  Err (NodeOperationError
         (toFriendlyError "WebDAV" (shown operation) (asRaw e) u (shown resource))
         (Some itemIndex)).

Definition doRequest (opts : request) : io response :=
  let urlStr := rq_url opts in
  match (if isAbsoluteUrl urlStr then Ok urlStr else normalizePath urlStr) with
  | Err e => ioLift (failRequest e (rq_url opts))
  | Ok displayUrl =>
      match (if isAbsoluteUrl urlStr then Ok opts
             else let* n := normalizePath urlStr in Ok (withUrl opts (baseRoot ++ n))) with
      | Err e => ioLift (failRequest e displayUrl)
      | Ok opts' =>
          match h_send h opts' with
          | Ok r => ([opts'], Ok r)
          | Err e => ([opts'], failRequest e displayUrl)
          end
      end
  end.

(** [Buffer.from(s)]: UTF-8, U+FFFD for a surrogate without its pair. *)
Fixpoint bufferFrom (s : jsstring) : list Z :=
  match s with
  | [] => []
  | c :: rest =>
      if isLeadSurrogate c then
        match rest with
        | d :: rest' =>
            if isTrailSurrogate d
            then utf8Encode (surrogatePairToCodePoint c d) ++ bufferFrom rest'
            else [239; 191; 189] ++ bufferFrom rest
        | [] => [239; 191; 189]
        end
      else if isTrailSurrogate c then [239; 191; 189] ++ bufferFrom rest
      else utf8Encode c ++ bufferFrom rest
  end.

Definition caseGet : io outItem :=
  let! path := ioLift (stringParam h "path" itemIndex []) in
  let! target := ioLift (normalizePath path) in
  let! response := doRequest
    {| rq_method := "GET"; rq_url := target; rq_headers := []; rq_body := None |} in
  let rawData := coalesce (bufferFrom <$> rs_data response) (rs_body response) in
  match rawData with
  | None =>
      ioLift (Err (NodeOperationError
        (js "No data returned from WebDAV for path " ++ quoted path) (Some itemIndex)))
  | Some dataBuffer =>
      let contentType := getHeader "content-type" (rs_headers response) in
      if match truthy contentType with
         | Some t => includes (js "application/json") (map lowerAscii t)
         | None => false
         end
      then
        ioLift (Err (NodeOperationError
          (js "Expected binary response but received JSON from WebDAV for path " ++
           quoted path) (Some itemIndex)))
      else
        let contentLength := getHeader "content-length" (rs_headers response) in
        let lastModified := getHeader "last-modified" (rs_headers response) in
        let etag := getHeader "etag" (rs_headers response) in
        let! again := ioLift (normalizePath path) in
        let segs := filter (fun seg => seg <> []) (split 47 again) in
        let fileName := default (js "file") (truthy (last segs)) in
        let! binary := ioLift (h_prepareBinaryData h dataBuffer fileName contentType) in
        ioLift (Ok
          {| o_json := JObj
               [("path", JStr path);
                ("contentType", JStr (default (js "application/octet-stream") contentType));
                ("contentLength",
                 match truthy contentLength with
                 | Some n => JNumberOf n
                 | None => JNum (Z.of_nat (length dataBuffer))
                 end);
                ("lastModified", orNull lastModified);
                ("etag", orNull etag);
                ("statusCode", JNum (rs_status response))];
             o_binary := Some (JObj [("data", binary)]);
             o_pairedItem := None |})
  end.

Definition casePut : io outItem :=
  let! path := ioLift (stringParam h "path" itemIndex []) in
  let! binaryPropertyName := ioLift (stringParam h "binaryPropertyName" itemIndex (js "data")) in
  match items !! itemIndex with
  | None => ioLift (Err (TypeError (js "Cannot read properties of undefined (reading 'binary')")))
  | Some inputItem =>
      match it_binary inputItem ≫= binaryProperty binaryPropertyName with
      | None =>
          ioLift (Err (NodeOperationError
            (js "Input item is missing binary property " ++ quoted binaryPropertyName)
            (Some itemIndex)))
      | Some ref =>
          let! binData := ioLift (h_getBinaryDataBuffer h itemIndex binaryPropertyName) in
          let contentType :=
            default (js "application/octet-stream") (truthy (mimeType ref)) in
          let! target := ioLift (normalizePath path) in
          let! response := doRequest
            {| rq_method := "PUT"; rq_url := target;
               rq_headers := [("Content-Type", contentType)];
               rq_body := Some (RawBytes binData) |} in
          ioLift (Ok (jsonItem
            [("success", JBool (is2xx (rs_status response)));
             ("statusCode", JNum (rs_status response));
             ("path", JStr path);
             ("contentType", JStr contentType)]))
      end
  end.

Definition casePropfind : io outItem :=
  let! path := ioLift (stringParam h "path" itemIndex (js "/")) in
  let! depth := ioLift (stringParam h "depth" itemIndex (js "1")) in
  let! target := ioLift (if jsEqb path (js "/") then Ok (js "/") else normalizePath path) in
  let! response := doRequest
    {| rq_method := "PROPFIND"; rq_url := target;
       rq_headers := [("Depth", depth); ("Content-Type", js "application/xml")];
       rq_body := Some (PropfindXml
         ["D:getcontenttype"; "D:getlastmodified"; "D:getcontentlength"; "D:resourcetype"]) |} in
  let! properties := ioLift (parsePropfindResponse (shown (rs_data response))) in
  ioLift (Ok (jsonItem
    [("properties", JArr properties);
     ("statusCode", JNum (rs_status response))])).

Definition caseMkcol : io outItem :=
  let! path := ioLift (stringParam h "path" itemIndex []) in
  let! target := ioLift (normalizePath path) in
  let! response := doRequest
    {| rq_method := "MKCOL"; rq_url := target; rq_headers := []; rq_body := None |} in
  ioLift (Ok (jsonItem
    [("success", JBool (rs_status response =? 201));
     ("statusCode", JNum (rs_status response));
     ("path", JStr path)])).

Definition caseDelete : io outItem :=
  let! path := ioLift (stringParam h "path" itemIndex []) in
  let! target := ioLift (normalizePath path) in
  let! response := doRequest
    {| rq_method := "DELETE"; rq_url := target; rq_headers := []; rq_body := None |} in
  ioLift (Ok (jsonItem
    [("success", JBool (is2xx (rs_status response)));
     ("statusCode", JNum (rs_status response));
     ("path", JStr path)])).

Definition crossOrigin : jserror :=
  NodeOperationError (js "Destination must be on the same server as the Base URL") None.

Definition invalidURL : jserror := TypeError (js "Invalid URL").

(** The value of the Destination header of move and copy. *)
Definition destinationHeader (destination : jsstring) : result jsstring :=
  if isAbsoluteUrl destination then
    match h_newURL h destination with
    | None => Err invalidURL
    | Some destUrl =>
        match h_newURL h baseRoot with
        | None => Err invalidURL
        | Some base =>
            if bool_decide (origin destUrl = origin base) then Ok (href destUrl)
            else Err crossOrigin
        end
    end
  else
    let* n := normalizePath destination in Ok (baseRoot ++ n).

(** The cases move and copy differ in the method alone. *)
Definition caseMoveCopy (method : string) : io outItem :=
  let! path := ioLift (stringParam h "path" itemIndex []) in
  let! destination := ioLift (stringParam h "destination" itemIndex []) in
  let! overwrite := ioLift (boolParam h "overwrite" itemIndex false) in
  let! header := ioLift (destinationHeader destination) in
  let! target := ioLift (normalizePath path) in
  let! response := doRequest
    {| rq_method := method; rq_url := target;
       rq_headers := [("Destination", header);
                      ("Overwrite", if overwrite then js "T" else js "F")];
       rq_body := None |} in
  ioLift (Ok (jsonItem
    [("success", JBool (is2xx (rs_status response)));
     ("statusCode", JNum (rs_status response));
     ("sourcePath", JStr path);
     ("destinationPath", JStr destination)])).

Definition caseMove : io outItem := caseMoveCopy "MOVE".
Definition caseCopy : io outItem := caseMoveCopy "COPY".

(** [switch (operation)] *)
Definition dispatch : io outItem :=
  let named name := bool_decide (operation = Some (js name)) in
  if named "get" then caseGet
  else if named "put" then casePut
  else if named "propfind" then casePropfind
  else if named "mkcol" then caseMkcol
  else if named "delete" then caseDelete
  else if named "move" then caseMove
  else if named "copy" then caseCopy
  else ioLift (Err (unsupported operation)).

End PerItem.

(** The body of the [try] for one item: the record it pushes. *)
Definition processItem (h : Host) (baseRoot : jsstring) (items : list item)
    (itemIndex : nat) : io outItem :=
  let! operation := ioLift (h_stringParam h "operation" itemIndex) in
  dispatch h baseRoot items itemIndex operation.

Definition errorItem (e : jserror) (itemIndex : nat) : outItem :=
  {| o_json := JObj [("error", messageOf e)];
     o_binary := None;
     o_pairedItem := Some itemIndex |}.

(** The [for] loop over the items still to do, [itemIndex] being the
    index of the first of them. *)
Fixpoint loop (h : Host) (baseRoot : jsstring) (items : list item)
    (todo : list item) (itemIndex : nat) (returnItems : list outItem)
    : io (list outItem) :=
  match todo with
  | [] => ioLift (Ok returnItems)
  | _ :: todo' =>
      match processItem h baseRoot items itemIndex with
      | (sent, Ok out) =>
          let (sent', r) := loop h baseRoot items todo' (S itemIndex) (returnItems ++ [out]) in
          (sent ++ sent', r)
      | (sent, Err e) =>
          if h_continueOnFail h then
            let (sent', r) := loop h baseRoot items todo' (S itemIndex)
                                (returnItems ++ [errorItem e itemIndex]) in
            (sent ++ sent', r)
          else (sent, Err (decorate e itemIndex))
      end
  end.

Definition execute (h : Host) (items : list item) : io (list outItem) :=
  match validateBaseUrl h with
  | Err e => ioLift (Err e)
  | Ok baseUrl => loop h (stripTrailingSlash baseUrl) items items 0 []
  end.

End WebDav.

(** ** The loop of the calendar and address-book nodes

    [CalDav.execute] and [CardDav.execute] run the same [for] loop: a
    successful item has its fields assigned into [item.json], a failed one
    makes the [catch] append a record to [items], the array the loop runs
    over and returns.  The loop re-reads [items.length], so it may not
    end: [fuel] bounds the number of iterations. *)

Abbreviation store := (gmap nat (list (string * jsval))).

(** The error of [item.json.k = v] when the item has no [json]. *)
Definition cannotSet (k : string) : jserror :=
  TypeError (js "Cannot set properties of undefined (setting '" ++ js k ++ js "')").
Definition cannotRead : jserror :=
  TypeError (js "Cannot read properties of undefined (reading 'json')").

(** [item.json.k = v] for each field in turn; every case of the nodes
    assigns two fields at least, and the first assignment is the one that
    fails when there is no object. *)
Definition assignFields (fields : list (string * jsval)) (addr : nat)
    (heap : store) : result store :=
  match heap !! addr with
  | None => Err (cannotSet (default EmptyString (head fields.*1)))
  | Some obj =>
      Ok (<[addr := foldl (fun o kv => setField (fst kv) (snd kv) o) obj fields]> heap)
  end.

Definition errorRecord (first : item) (e : jserror) (itemIndex : nat) : item :=
  {| it_json := it_json first;
     it_binary := None;
     it_error := Some e;
     it_pairedItem := Some itemIndex |}.

Fixpoint loopInPlace (fuel : nat) (h : Host)
    (body : nat -> io (list (string * jsval)))
    (itemIndex : nat) (items : list item) (heap : store)
    : option (io (list item * store)) :=
  match fuel with
  | O => None
  | S fuel' =>
      match items !! itemIndex with
      | None => Some (ioLift (Ok (items, heap)))
      | Some item =>
          let (sent, r) :=
            let! fields := body itemIndex in
            ioLift (assignFields fields (it_json item) heap) in
          match r with
          | Ok heap' =>
              match loopInPlace fuel' h body (S itemIndex) items heap' with
              | Some (sent', r') => Some (sent ++ sent', r')
              | None => None
              end
          | Err e =>
              if h_continueOnFail h then
                match h_getInputData h itemIndex items with
                | Err e' => Some (sent, Err e')
                | Ok input =>
                    match input !! 0%nat with
                    | None => Some (sent, Err cannotRead)
                    | Some first =>
                        match loopInPlace fuel' h body (S itemIndex)
                                (items ++ [errorRecord first e itemIndex]) heap with
                        | Some (sent', r') => Some (sent ++ sent', r')
                        | None => None
                        end
                    end
                end
              else Some (sent, Err (decorate e itemIndex))
          end
      end
  end.

(** ** The CalDAV node (nodes/CalDav/CalDav.node.ts) *)

Module CalDav.

(** This variant passes an absolute URL through. *)
Definition normalizePath (p : jsstring) : result jsstring :=
  normalizeWith Ok p.

Section PerItem.

Variable h : Host.
Variable baseRoot : jsstring.
Variable itemIndex : nat.
Variable operation : option jsstring.

(** The [catch] of doRequest: [u] is [opts.url] at that point. *)
Definition failRequest {A} (e : jserror) (u : jsstring) : result A :=
  let* resource := h_stringParam h "resource" itemIndex in
  Err (NodeOperationError
         (toFriendlyError "CalDAV" (shown operation) (asRaw e) u (shown resource))
         (Some itemIndex)).

Definition doRequest (opts : request) : io response :=
  let urlStr := rq_url opts in
  match (if isAbsoluteUrl urlStr then Ok opts
         else let* n := normalizePath urlStr in Ok (withUrl opts (baseRoot ++ n))) with
  | Err e => ioLift (failRequest e (rq_url opts))
  | Ok opts' =>
      match h_send h opts' with
      | Ok r => ([opts'], Ok r)
      | Err e => ([opts'], failRequest e (rq_url opts'))
      end
  end.

(** [if (!calendarPath.startsWith('/')) calendarPath = `/${calendarPath}`] *)
Definition withLeadingSlash (calendarPath : jsstring) : jsstring :=
  if startsWith (js "/") calendarPath then calendarPath else 47 :: calendarPath.

(** The path of an event resource, before it is normalised. *)
Definition eventPath (calendarPath eventId : jsstring) : jsstring :=
  calendarPath ++ js "/" ++ eventId ++ js ".ics".

Definition caseGetCalendars : io (list (string * jsval)) :=
  let! calendarHomeSet := ioLift (stringParam h "calendarHomeSet" itemIndex (js "/calendars/user/")) in
  let! calendarHomeSet := ioLift (normalizePath calendarHomeSet) in
  let! response := doRequest
    {| rq_method := "PROPFIND"; rq_url := calendarHomeSet;
       rq_headers := [("Depth", js "1"); ("Content-Type", js "application/xml")];
       rq_body := Some (PropfindXml
         ["D:resourcetype"; "D:displayname"; "C:calendar-description";
          "C:supported-calendar-component-set"]) |} in
  let! calendars := ioLift (parseCalendarsResponse (shown (rs_data response))) in
  ioLift (Ok [("calendars", JArr calendars);
              ("statusCode", JNum (rs_status response))]).

Definition timeRangeFilter (timeRange : jsstring) : result (option (jsstring * jsstring)) :=
  if jsEqb timeRange (js "range") then
    let* startDate := stringParam h "startDate" itemIndex [] in
    let* endDate := stringParam h "endDate" itemIndex [] in
    let* startIso := h_toISOString h startDate in
    let* endIso := h_toISOString h endDate in
    Ok (Some (startIso, endIso))
  else if jsEqb timeRange (js "date") then
    let* date := stringParam h "date" itemIndex [] in
    let* bounds := h_dayBounds h date in
    Ok (Some bounds)
  else Ok None.

Definition caseGetEvents : io (list (string * jsval)) :=
  let! calendarPath := ioLift (stringParam h "calendarPath" itemIndex []) in
  let! timeRange := ioLift (stringParam h "timeRange" itemIndex (js "all")) in
  let calendarPath := withLeadingSlash calendarPath in
  let! filter := ioLift (timeRangeFilter timeRange) in
  let! target := ioLift (normalizePath calendarPath) in
  let! response := doRequest
    {| rq_method := "REPORT"; rq_url := target;
       rq_headers := [("Content-Type", js "application/xml")];
       rq_body := Some (CalendarQueryXml filter) |} in
  let! events := ioLift (parseEventsResponse (shown (rs_data response))) in
  ioLift (Ok [("events", JArr events);
              ("statusCode", JNum (rs_status response))]).

(** The request of createEvent (and, with If-Match, of updateEvent). *)
Definition putEventRequest (ifMatch : bool) (calendarPath eventId eventData : jsstring)
    : result request :=
  let* target := normalizePath (eventPath calendarPath eventId) in
  Ok {| rq_method := "PUT"; rq_url := target;
        rq_headers := ("Content-Type", js "text/calendar") ::
                      (if ifMatch then [("If-Match", js "*")] else []);
        rq_body := Some (RawText eventData) |}.

Definition eventResult (response : response) (eventId calendarPath : jsstring)
    : list (string * jsval) :=
  [("success", JBool (is2xx (rs_status response)));
   ("statusCode", JNum (rs_status response));
   ("eventId", JStr eventId);
   ("calendarPath", JStr calendarPath)].

Definition casePutEvent (ifMatch : bool) : io (list (string * jsval)) :=
  let! calendarPath := ioLift (stringParam h "calendarPath" itemIndex []) in
  let! eventId := ioLift (stringParam h "eventId" itemIndex []) in
  let! eventData := ioLift (stringParam h "eventData" itemIndex []) in
  let calendarPath := withLeadingSlash calendarPath in
  let! opts := ioLift (putEventRequest ifMatch calendarPath eventId eventData) in
  let! response := doRequest opts in
  ioLift (Ok (eventResult response eventId calendarPath)).

Definition caseCreateEvent : io (list (string * jsval)) := casePutEvent false.
Definition caseUpdateEvent : io (list (string * jsval)) := casePutEvent true.

Definition caseDeleteEvent : io (list (string * jsval)) :=
  let! calendarPath := ioLift (stringParam h "calendarPath" itemIndex []) in
  let! eventId := ioLift (stringParam h "eventId" itemIndex []) in
  let calendarPath := withLeadingSlash calendarPath in
  let! target := ioLift (normalizePath (eventPath calendarPath eventId)) in
  let! response := doRequest
    {| rq_method := "DELETE"; rq_url := target; rq_headers := []; rq_body := None |} in
  ioLift (Ok (eventResult response eventId calendarPath)).

Definition dispatch : io (list (string * jsval)) :=
  let named name := bool_decide (operation = Some (js name)) in
  if named "getCalendars" then caseGetCalendars
  else if named "getEvents" then caseGetEvents
  else if named "createEvent" then caseCreateEvent
  else if named "updateEvent" then caseUpdateEvent
  else if named "deleteEvent" then caseDeleteEvent
  else ioLift (Err (unsupported operation)).

End PerItem.

(** The body of the [try] for one item: the fields it assigns. *)
Definition processItem (h : Host) (baseRoot : jsstring) (itemIndex : nat)
    : io (list (string * jsval)) :=
  let! operation := ioLift (h_stringParam h "operation" itemIndex) in
  dispatch h baseRoot itemIndex operation.

Definition execute (fuel : nat) (h : Host) (items : list item) (heap : store)
    : option (io (list item * store)) :=
  match validateBaseUrl h with
  | Err e => Some (ioLift (Err e))
  | Ok baseUrl =>
      loopInPlace fuel h (processItem h (stripTrailingSlash baseUrl)) 0 items heap
  end.

End CalDav.

(** ** The CardDAV node (nodes/CardDav/CardDav.node.ts)

    This file calls [this.helpers.httpRequest] with the path as it was
    given and reads no credential. *)

Module CardDav.

Section PerItem.

Variable h : Host.
Variable itemIndex : nat.
Variable operation : option jsstring.

Definition caseGetAddressBooks : io (list (string * jsval)) :=
  let! addressBookHomeSet :=
    ioLift (stringParam h "addressBookHomeSet" itemIndex (js "/addressbooks/user/")) in
  let! response := send h
    {| rq_method := "REPORT"; rq_url := addressBookHomeSet;
       rq_headers := [("Depth", js "1"); ("Content-Type", js "application/xml")];
       rq_body := Some (AddressbookQueryXml
         ["D:resourcetype"; "D:displayname"; "C:addressbook-description";
          "C:supported-address-data"] None) |} in
  let! addressBooks := ioLift (parseAddressBooksResponse (shown (rs_data response))) in
  ioLift (Ok [("addressBooks", JArr addressBooks);
              ("statusCode", JNum (rs_status response))]).

Definition contactFilter (filter : jsstring) : result (option (string * jsstring)) :=
  if jsEqb filter (js "name") then
    let* searchTerm := stringParam h "searchTerm" itemIndex [] in
    Ok (Some ("FN", searchTerm))
  else if jsEqb filter (js "email") then
    let* searchTerm := stringParam h "searchTerm" itemIndex [] in
    Ok (Some ("EMAIL", searchTerm))
  else Ok None.

Definition caseGetContacts : io (list (string * jsval)) :=
  let! addressBookPath := ioLift (stringParam h "addressBookPath" itemIndex []) in
  let! filter := ioLift (stringParam h "filter" itemIndex (js "all")) in
  let! filterXml := ioLift (contactFilter filter) in
  let! response := send h
    {| rq_method := "REPORT"; rq_url := addressBookPath;
       rq_headers := [("Content-Type", js "application/xml")];
       rq_body := Some (AddressbookQueryXml ["D:getetag"; "C:address-data"] filterXml) |} in
  let! contacts := ioLift (parseContactsResponse (shown (rs_data response))) in
  ioLift (Ok [("contacts", JArr contacts);
              ("statusCode", JNum (rs_status response))]).

Definition contactResult (response : response) (contactId addressBookPath : jsstring)
    : list (string * jsval) :=
  [("success", JBool (is2xx (rs_status response)));
   ("statusCode", JNum (rs_status response));
   ("contactId", JStr contactId);
   ("addressBookPath", JStr addressBookPath)].

Definition casePutContact (ifMatch : bool) : io (list (string * jsval)) :=
  let! addressBookPath := ioLift (stringParam h "addressBookPath" itemIndex []) in
  let! contactId := ioLift (stringParam h "contactId" itemIndex []) in
  let! contactData := ioLift (stringParam h "contactData" itemIndex []) in
  let! response := send h
    {| rq_method := "PUT"; rq_url := addressBookPath ++ contactId ++ js ".vcf";
       rq_headers := ("Content-Type", js "text/vcard") ::
                     (if ifMatch then [("If-Match", js "*")] else []);
       rq_body := Some (RawText contactData) |} in
  ioLift (Ok (contactResult response contactId addressBookPath)).

Definition caseCreateContact : io (list (string * jsval)) := casePutContact false.
Definition caseUpdateContact : io (list (string * jsval)) := casePutContact true.

Definition caseDeleteContact : io (list (string * jsval)) :=
  let! addressBookPath := ioLift (stringParam h "addressBookPath" itemIndex []) in
  let! contactId := ioLift (stringParam h "contactId" itemIndex []) in
  let! response := send h
    {| rq_method := "DELETE"; rq_url := addressBookPath ++ contactId ++ js ".vcf";
       rq_headers := []; rq_body := None |} in
  ioLift (Ok (contactResult response contactId addressBookPath)).

Definition dispatch : io (list (string * jsval)) :=
  let named name := bool_decide (operation = Some (js name)) in
  if named "getAddressBooks" then caseGetAddressBooks
  else if named "getContacts" then caseGetContacts
  else if named "createContact" then caseCreateContact
  else if named "updateContact" then caseUpdateContact
  else if named "deleteContact" then caseDeleteContact
  else ioLift (Err (unsupported operation)).

End PerItem.

Definition processItem (h : Host) (itemIndex : nat) : io (list (string * jsval)) :=
  let! operation := ioLift (h_stringParam h "operation" itemIndex) in
  dispatch h itemIndex operation.

Definition execute (fuel : nat) (h : Host) (items : list item) (heap : store)
    : option (io (list item * store)) :=
  loopInPlace fuel h (processItem h) 0 items heap.

End CardDav.

(** ** Notions used in the statements *)

(** The [success] and [statusCode] fields of an output record. *)
Definition successOf (v : jsval) : option bool :=
  match v with
  | JObj fields =>
      match getField "success" fields with
      | Some (JBool b) => Some b
      | _ => None
      end
  | _ => None
  end.

Definition statusCodeOf (v : jsval) : option Z :=
  match v with
  | JObj fields =>
      match getField "statusCode" fields with
      | Some (JNum n) => Some n
      | _ => None
      end
  | _ => None
  end.

(** Unicode scalar values: the code points a well-formed string holds. *)
Definition isScalar (cp : Z) : Prop :=
  0 <= cp <= 1114111 /\ ~ (55296 <= cp <= 57343).

(** What encodeURIComponent can produce: unreserved characters and [%]. *)
Definition uriSafe (c : Z) : bool := uriUnescaped c || (c =? 37).

(** No surrogate without its partner ([s.isWellFormed()]). *)
Fixpoint wellFormed (s : jsstring) : bool :=
  match s with
  | [] => true
  | c :: rest =>
      if isLeadSurrogate c then
        match rest with
        | d :: rest' => isTrailSurrogate d && wellFormed rest'
        | [] => false
        end
      else negb (isTrailSurrogate c) && wellFormed rest
  end.

(** [wfString], decided. *)
Definition wfStringb (s : jsstring) : bool :=
  forallb (fun c => (0 <=? c) && (c <? 65536)) s.

(** The record the file node pushes for an item under continue-on-fail. *)
Definition recordOf (h : Host) (baseRoot : jsstring) (items : list item) (i : nat)
    : WebDav.outItem :=
  match snd (WebDav.processItem h baseRoot items i) with
  | Ok out => out
  | Err e => WebDav.errorItem e i
  end.

(** The chunks of a multi-status document: group 1 of every match of
    the response pattern, in document order. *)
Definition responseChunks (xmlData : jsstring) : list jsstring :=
  execAll responseRegex 0 xmlData.

(** What the extractor loop does with the chunks. *)
Fixpoint collect {R} (body : jsstring -> result (option R))
    (chunks : list jsstring) : result (list R) :=
  match chunks with
  | [] => Ok []
  | c :: cs =>
      let* pushed := body c in
      let* more := collect body cs in
      Ok (match pushed with Some r => r :: more | None => more end)
  end.

(** A pattern whose first code unit does not occur again in it. *)
Definition headUnique (pat : jsstring) : Prop :=
  match pat with
  | [] => False
  | p :: tl => p ∉ tl
  end.

(** One element in text: opening tag with attributes, content, closing
    tag. *)
Definition element (re : tagRegex) (attrs content : jsstring) : jsstring :=
  re_open re ++ attrs ++ [62] ++ content ++ re_close re.

(** The code units the dot of [re] matches. *)
Definition dotMatches (re : tagRegex) (c : Z) : bool :=
  re_dotAll re || negb (isLineTerminator c).

(** A document of response elements, each after some text [lead] that
    holds no opening of a response, with [trailer] behind the last. *)
Record block := {
  b_lead : jsstring;
  b_attrs : jsstring;
  b_body : jsstring;
}.

Definition document (blocks : list block) (trailer : jsstring) : jsstring :=
  concat (map (fun b => b_lead b ++ element responseRegex (b_attrs b) (b_body b)) blocks)
  ++ trailer.

Definition blockOk (b : block) : Prop :=
  includes (re_open responseRegex) (b_lead b) = false /\
  (62 ∉ b_attrs b) /\
  includes (re_close responseRegex) (b_body b) = false.

(** [body] holds an href element that the href pattern finds, and its
    text decodes to [d]. *)
Definition hrefElementIn (body d : jsstring) : Prop :=
  exists lead attrs h rest,
    body = lead ++ element hrefRegex attrs h ++ rest /\
    includes (re_open hrefRegex) lead = false /\
    (62 ∉ attrs) /\
    includes (re_close hrefRegex) h = false /\
    Forall (fun c => isLineTerminator c = false) h /\
    decodeURIComponent h = Ok d.

(** The [href] field of a record. *)
Definition hrefOf (v : jsval) : option jsstring :=
  match v with
  | JObj fields =>
      match getField "href" fields with
      | Some (JStr s) => Some s
      | _ => None
      end
  | _ => None
  end.

(** Every href that the pattern finds in a chunk of [xmlData] decodes. *)
Definition hrefsDecode (xmlData : jsstring) : Prop :=
  forall chunk h, chunk ∈ responseChunks xmlData ->
    matchFirst hrefRegex chunk = Some h -> exists d, decodeURIComponent h = Ok d.

(** The chunks in which the href pattern matches, and those in which the
    pattern of the calendar data matches as well. *)
Definition withHref (chunks : list jsstring) : list jsstring :=
  filter (fun chunk => is_Some (matchFirst hrefRegex chunk)) chunks.

Definition withHrefAndData (chunks : list jsstring) : list jsstring :=
  filter (fun chunk => is_Some (matchFirst hrefRegex chunk) /\
                       is_Some (matchFirst (tag "C:calendar-data" true) chunk)) chunks.

(** The chunks in which both the href pattern and the pattern of the
    address data match. *)
Definition withHrefAndAddressData (chunks : list jsstring) : list jsstring :=
  filter (fun chunk => is_Some (matchFirst hrefRegex chunk) /\
                       is_Some (matchFirst (tag "C:address-data" true) chunk)) chunks.

(** What a run for one item may do in a node that composes its URLs
    itself: send nothing and throw, or send one request to a URL under
    the base root, in which case a value it returns comes with the
    answer to that request. *)
Definition oneRequestUnder (h : Host) (baseRoot : jsstring) {A} (m : io A) : Prop :=
  (fst m = [] /\ exists e, snd m = Err e) \/
  (exists rq t, fst m = [rq] /\ rq_url rq = baseRoot ++ 47 :: t /\
     forall a, snd m = Ok a -> exists r, h_send h rq = Ok r).

(** What normalizePath can produce: the output of encodeURIComponent
    and the separator. *)
Definition pathSafe (c : Z) : bool := uriSafe c || (c =? 47).

(** [p.startsWith('/') ? p.slice(1) : p], the text that normalizePath
    splits. *)
Definition withoutLeadingSlash (p : jsstring) : jsstring :=
  if startsWith (js "/") p then drop 1 p else p.

(** A path of unreserved characters and separators only. *)
Definition pathClean (p : jsstring) : bool :=
  forallb (fun c => uriUnescaped c || (c =? 47)) p.

(** ** Sample errors, hosts and runs *)

(** What a failed DNS lookup looks like. *)
Definition dnsError : rawError :=
  {| e_message := Some (js "getaddrinfo ENOTFOUND dav.example.com");
     e_toString := js "Error: getaddrinfo ENOTFOUND dav.example.com";
     e_code := Some (js "ENOTFOUND");
     e_statusCode := None; e_response := None; e_causeResponse := None |}.

(** The same code under a message that the first rule catches. *)
Definition dnsErrorInvalidUrl : rawError :=
  {| e_message := Some (js "Invalid URL");
     e_toString := js "Error: Invalid URL";
     e_code := Some (js "ENOTFOUND");
     e_statusCode := None; e_response := None; e_causeResponse := None |}.

(** A refused connection. *)
Definition refusedError : rawError :=
  {| e_message := Some (js "connect ECONNREFUSED 10.0.0.1:443");
     e_toString := js "Error: connect ECONNREFUSED 10.0.0.1:443";
     e_code := Some (js "ECONNREFUSED");
     e_statusCode := Some 502; e_response := None; e_causeResponse := None |}.


(** A reduced stand-in for the URL class, enough for the sample runs:
    the origin is the scheme and the authority in lower case. *)
Definition sampleNewURL (s : jsstring) : option url :=
  if isAbsoluteUrl s then
    match split 47 s with
    | scheme :: _ :: authority :: path =>
        Some {| origin := map lowerAscii (scheme ++ js "//" ++ authority);
                href := match path with [] => s ++ js "/" | _ => s end |}
    | _ => None
    end
  else None.

Definition okResponse (status : Z) (data : string) : response :=
  {| rs_status := status; rs_headers := [];
     rs_data := Some (js data); rs_body := None |}.

(** A server that cannot be reached for URLs that mention "bad" and
    answers every other request with [status]. *)
Definition respondUnlessBad (status : Z) (rq : request) : result response :=
  if includes (js "bad") (rq_url rq) then Err (Thrown dnsError)
  else Ok (okResponse status EmptyString).

(** A host with the given credential and parameters; [getInputData]
    hands out the item list for input 0 and nothing for other inputs. *)
Definition sampleHost (baseUrl : string) (continueOnFail : bool)
    (params : nat -> list (string * string))
    (respond : request -> result response) : Host :=
  {| h_baseUrl := Some (js baseUrl);
     h_continueOnFail := continueOnFail;
     h_stringParam := fun name idx =>
       Ok (js <$> (snd <$> find (fun kv => String.eqb name (fst kv)) (params idx)));
     h_boolParam := fun _ _ => Ok None;
     h_send := respond;
     h_getInputData := fun input items => Ok (match input with O => items | _ => [] end);
     h_getBinaryDataBuffer := fun _ _ => Ok [104; 105];
     h_prepareBinaryData := fun _ name _ => Ok (JObj [("fileName", JStr name)]);
     h_newURL := sampleNewURL;
     h_toISOString := fun s => Ok s;
     h_dayBounds := fun s => Ok (s, s) |}.

Definition plainItem (addr : nat) : item :=
  {| it_json := addr; it_binary := None; it_error := None; it_pairedItem := None |}.

(** Three items, each with an empty [json] object of its own. *)
Definition threeItems : list item := [plainItem 0; plainItem 1; plainItem 2].
Definition threeObjects : store := <[0%nat := []]> (<[1%nat := []]> (<[2%nat := []]> ∅)).

(** create-directory for /new dir, answered with 201. *)
Definition mkcolHost : Host :=
  sampleHost "https://dav.example.com/" false
    (fun _ => [("operation", "mkcol"); ("path", "/new dir"); ("resource", "file")])
    (respondUnlessBad 201).

(** move to another server, with overwrite left at its default. *)
Definition moveAwayHost : Host :=
  sampleHost "https://dav.example.com/" false
    (fun _ => [("operation", "move"); ("path", "/a.txt");
               ("destination", "https://other.example.org/a.txt");
               ("resource", "file")])
    (respondUnlessBad 201).

(** create-event for the calendar /cal/ and the event evt-1. *)
Definition createEventHost : Host :=
  sampleHost "https://dav.example.com/" false
    (fun _ => [("operation", "createEvent"); ("calendarPath", "/cal/");
               ("eventId", "evt-1"); ("eventData", "BEGIN:VCALENDAR");
               ("resource", "calendar")])
    (respondUnlessBad 201).

(** A calendar listing whose home set names another server. *)
Definition elsewhereHost : Host :=
  sampleHost "https://dav.example.com/" false
    (fun _ => [("operation", "getCalendars");
               ("calendarHomeSet", "https://other.example.org/calendars/");
               ("resource", "calendar")])
    (respondUnlessBad 207).

(** create-event for a calendar path of the form that the placeholder of
    the field shows, /calendars/user/calendar/. *)
Definition placeholderEventHost : Host :=
  sampleHost "https://dav.example.com/" false
    (fun _ => [("operation", "createEvent"); ("calendarPath", "/calendars/user/calendar/");
               ("eventId", "event-123"); ("eventData", "BEGIN:VCALENDAR");
               ("resource", "calendar")])
    (respondUnlessBad 201).

(** A credential without protocol, and one address-book listing to do. *)
Definition noProtocolHost : Host :=
  sampleHost "dav.example.com" false
    (fun _ => [("operation", "getAddressBooks"); ("resource", "addressbook")])
    (respondUnlessBad 207).

(** delete-event for three events under continue-on-fail; the server
    cannot be reached for the first of them.  A fourth parameter set is
    there for the record that the loop appends and then visits. *)
Definition failFirstHost : Host :=
  sampleHost "https://dav.example.com/" true
    (fun idx => [("operation", "deleteEvent"); ("calendarPath", "/cal");
                 ("eventId", match idx with
                             | 0%nat => "bad"
                             | 1%nat => "e1"
                             | 2%nat => "e2"
                             | _ => "e3"
                             end);
                 ("resource", "calendar")])
    (respondUnlessBad 204).

(** The same three deletions as paths of the file node. *)
Definition failFirstFileHost : Host :=
  sampleHost "https://dav.example.com/" true
    (fun idx => [("operation", "delete");
                 ("path", match idx with
                          | 0%nat => "/bad"
                          | 1%nat => "/e1"
                          | _ => "/e2"
                          end);
                 ("resource", "file")])
    (respondUnlessBad 204).

(** Three deletions of the file node without continue-on-fail; the
    server cannot be reached for the second. *)
Definition failSecondFileHost : Host :=
  sampleHost "https://dav.example.com/" false
    (fun idx => [("operation", "delete");
                 ("path", match idx with
                          | 0%nat => "/e0"
                          | 1%nat => "/bad"
                          | _ => "/e2"
                          end);
                 ("resource", "file")])
    (respondUnlessBad 204).

(** Three event deletions under continue-on-fail; the server cannot be
    reached for the second. *)
Definition failSecondHost : Host :=
  sampleHost "https://dav.example.com/" true
    (fun idx => [("operation", "deleteEvent"); ("calendarPath", "/cal");
                 ("eventId", match idx with
                             | 0%nat => "e0"
                             | 1%nat => "bad"
                             | _ => "e2"
                             end);
                 ("resource", "calendar")])
    (respondUnlessBad 204).

(** The same three deletions without continue-on-fail. *)
Definition stopSecondHost : Host :=
  sampleHost "https://dav.example.com/" false
    (fun idx => [("operation", "deleteEvent"); ("calendarPath", "/cal");
                 ("eventId", match idx with
                             | 0%nat => "e0"
                             | 1%nat => "bad"
                             | _ => "e2"
                             end);
                 ("resource", "calendar")])
    (respondUnlessBad 204).

(** Three items whose [json] objects hold a field of the input. *)
Definition threeNamedObjects : store :=
  <[0%nat := [("name", JStr (js "a"))]]>
    (<[1%nat := [("name", JStr (js "b")); ("success", JNull)]]>
       (<[2%nat := [("name", JStr (js "c"))]]> ∅)).

(** A download that the server answers with JSON. *)
Definition jsonAnswerHost : Host :=
  sampleHost "https://dav.example.com/" false
    (fun _ => [("operation", "get"); ("path", "/a b.txt"); ("resource", "file")])
    (fun _ => Ok {| rs_status := 200;
                    rs_headers := [("content-type", js "Application/JSON; charset=utf-8")];
                    rs_data := Some (js "{}"); rs_body := None |}).

(** An upload from the binary property attachment. *)
Definition attachmentHost : Host :=
  sampleHost "https://dav.example.com/" false
    (fun _ => [("operation", "put"); ("path", "/a.txt");
               ("binaryPropertyName", "attachment"); ("resource", "file")])
    (respondUnlessBad 201).

(** An event deletion that the server refuses to talk about. *)
Definition refusedHost : Host :=
  sampleHost "https://dav.example.com/" false
    (fun _ => [("operation", "deleteEvent"); ("calendarPath", "/my cal");
               ("eventId", "e1"); ("resource", "calendar")])
    (fun _ => Err (Thrown refusedError)).

(** A folder and a file, as PROPFIND describes them. *)
Definition folderChunk : jsstring :=
  js "<D:href>/files/docs/</D:href><D:propstat><D:prop><D:resourcetype><D:collection/></D:resourcetype></D:prop></D:propstat>".

(** An item with a text file under the default binary property. *)
Definition binaryItem : item :=
  {| it_json := 0%nat;
     it_binary := Some [(js "data", {| mimeType := Some (js "text/plain") |})];
     it_error := None; it_pairedItem := None |}.

(** An upload that the server answers with 204 No Content. *)
Definition uploadHost : Host :=
  sampleHost "https://dav.example.com/" false
    (fun _ => [("operation", "put"); ("path", "/notes/a b.txt"); ("resource", "file")])
    (respondUnlessBad 204).

(** A multi-status answer with three responses, the second without href. *)
Definition threeResponses : jsstring :=
  js "<?xml version='1.0'?><D:multistatus xmlns:D='DAV:'><D:response><D:href>/cal/a%20b/</D:href><D:displayname>A</D:displayname></D:response><D:response><D:displayname>B</D:displayname></D:response><D:response xmlns='x'><D:href>/cal/c/</D:href></D:response></D:multistatus>".

(** A response whose href is no valid percent-encoding. *)
Definition badHref : jsstring :=
  js "<D:response><D:href>/files/100%.txt</D:href></D:response>".

(** An event whose href is no valid percent-encoding. *)
Definition badHrefEvent : jsstring :=
  js "<D:response><D:href>/cal/100%.ics</D:href><C:calendar-data>BEGIN:VCALENDAR</C:calendar-data></D:response>".

(** A response with an href and no calendar-data. *)
Definition hrefOnly : jsstring :=
  js "<D:response><D:href>/cal/e1.ics</D:href><D:getetag>1</D:getetag></D:response>".

(** Two files in a folder, as a document of response elements. *)
Definition twoBlocks : list block :=
  [{| b_lead := js "<?xml version='1.0'?><D:multistatus xmlns:D='DAV:'>";
      b_attrs := [];
      b_body := js "<D:href>/files/a%20b.txt</D:href><D:propstat/>" |};
   {| b_lead := [10; 32];
      b_attrs := js " xmlns:x='y'";
      b_body := js "<D:href>/files/c.txt</D:href>" |}].

(** An answer without any response element. *)
Definition emptyMultistatus : jsstring :=
  js "<?xml version='1.0'?><D:multistatus xmlns:D='DAV:'></D:multistatus>".

(** Two contacts and a response for the address book itself, which has
    no address data. *)
Definition contactsAnswer : jsstring :=
  js "<D:multistatus xmlns:D='DAV:'><D:response><D:href>/ab/</D:href></D:response><D:response><D:href>/ab/j%C3%BCrgen.vcf</D:href><D:getetag>7</D:getetag><C:address-data>BEGIN:VCARD" ++
  [10] ++
  js "END:VCARD</C:address-data></D:response><D:response><D:href>/ab/b.vcf</D:href><C:address-data>BEGIN:VCARD</C:address-data></D:response></D:multistatus>".

(** * Properties *)

(** ** Percent escapes and UTF-8 *)

Lemma hexValue_hexDigit d : 0 <= d < 16 -> hexValue (hexDigit d) = Some d.
Proof.
  intros Hd. unfold hexValue, hexDigit.
  destruct (Z.ltb_spec d 10).
  - replace ((48 <=? 48 + d) && (48 + d <=? 57)) with true
      by (symmetry; apply andb_true_intro; split; apply Z.leb_le; lia).
    f_equal. lia.
  - replace ((48 <=? 55 + d) && (55 + d <=? 57)) with false
      by (symmetry; apply andb_false_intro2, Z.leb_gt; lia).
    replace ((65 <=? 55 + d) && (55 + d <=? 70)) with true
      by (symmetry; apply andb_true_intro; split; apply Z.leb_le; lia).
    f_equal. lia.
Qed.

Lemma readEscape_pctEncode b t :
  0 <= b < 256 -> readEscape (pctEncode b ++ t) = Some (b, t).
Proof.
  intros Hb. unfold pctEncode, readEscape. simpl.
  rewrite !hexValue_hexDigit.
  - do 2 f_equal. pose proof (Z.div_mod b 16 ltac:(lia)). lia.
  - apply Z.mod_pos_bound. lia.
  - split; [apply Z.div_pos; lia | apply Z.div_lt_upper_bound; lia].
Qed.

Lemma decodeFrom_skip a t : decodeFrom (length a) (a ++ t) = decodeFrom 0 t.
Proof. induction a as [|c a IH]; [reflexivity | exact IH]. Qed.

Ltac zbool :=
  repeat match goal with
  | |- context [?a <? ?b] => destruct (Z.ltb_spec a b); try lia
  | |- context [?a <=? ?b] => destruct (Z.leb_spec a b); try lia
  | |- context [?a =? ?b] => destruct (Z.eqb_spec a b); try lia
  end.

Lemma leadingOnes_2 b : 192 <= b < 224 -> leadingOnes b = 2%nat.
Proof. intros. unfold leadingOnes. zbool; reflexivity. Qed.
Lemma leadingOnes_3 b : 224 <= b < 240 -> leadingOnes b = 3%nat.
Proof. intros. unfold leadingOnes. zbool; reflexivity. Qed.
Lemma leadingOnes_4 b : 240 <= b < 248 -> leadingOnes b = 4%nat.
Proof. intros. unfold leadingOnes. zbool; reflexivity. Qed.
Lemma leadingOnes_0 b : b < 128 -> leadingOnes b = 0%nat.
Proof. intros. unfold leadingOnes. zbool; reflexivity. Qed.

Lemma readContinuation_cons b n t :
  128 <= b < 192 ->
  readContinuation (S n) (pctEncode b ++ t) =
  match readContinuation n t with
  | Some (bs, s2) => Some (b :: bs, s2)
  | None => None
  end.
Proof.
  intros Hb. cbn [readContinuation]. rewrite readEscape_pctEncode by lia.
  replace ((128 <=? b) && (b <? 192)) with true; [reflexivity|].
  symmetry. apply andb_true_intro. split; [apply Z.leb_le | apply Z.ltb_lt]; lia.
Qed.

Lemma decodeEscape_utf8 cp t :
  isScalar cp ->
  decodeEscape (pctEncodeAll (utf8Encode cp) ++ t) =
  Ok (utf16Encode cp, length (pctEncodeAll (utf8Encode cp))).
Proof.
  intros [Hr Hs]. unfold utf8Encode.
  destruct (Z.ltb_spec cp 128); [|destruct (Z.ltb_spec cp 2048); [|destruct (Z.ltb_spec cp 65536)]].
  - unfold pctEncodeAll, decodeEscape. cbn [map concat]. rewrite app_nil_r.
    rewrite readEscape_pctEncode by lia. rewrite leadingOnes_0 by lia.
    unfold utf16Encode. zbool; reflexivity.
  - unfold pctEncodeAll, decodeEscape. cbn [map concat]. rewrite app_nil_r, <- app_assoc.
    assert (2 <= cp / 64 < 32) by (split; [apply Z.div_le_lower_bound | apply Z.div_lt_upper_bound]; lia).
    assert (0 <= cp mod 64 < 64) by (apply Z.mod_pos_bound; lia).
    rewrite readEscape_pctEncode by lia. rewrite leadingOnes_2 by lia.
    cbn [Nat.sub]. rewrite readContinuation_cons by lia. cbn [readContinuation].
    unfold utf8Decode.
    assert (E : (192 + cp / 64 - 192) * 64 + (128 + cp mod 64 - 128) = cp)
      by (pose proof (Z.div_mod cp 64 ltac:(lia)); lia).
    rewrite E. zbool; unfold utf16Encode; zbool; reflexivity.
  - unfold pctEncodeAll, decodeEscape. cbn [map concat]. rewrite app_nil_r, <- !app_assoc.
    assert (0 <= cp / 4096 < 16) by (split; [apply Z.div_pos | apply Z.div_lt_upper_bound]; lia).
    assert (0 <= (cp / 64) mod 64 < 64) by (apply Z.mod_pos_bound; lia).
    assert (0 <= cp mod 64 < 64) by (apply Z.mod_pos_bound; lia).
    rewrite readEscape_pctEncode by lia. rewrite leadingOnes_3 by lia.
    cbn [Nat.sub]. rewrite !readContinuation_cons by lia. cbn [readContinuation].
    unfold utf8Decode.
    assert (E : (224 + cp / 4096 - 224) * 4096 + (128 + (cp / 64) mod 64 - 128) * 64
                + (128 + cp mod 64 - 128) = cp).
    { pose proof (Z.div_mod cp 64 ltac:(lia)). pose proof (Z.div_mod (cp / 64) 64 ltac:(lia)).
      replace (cp / 4096) with (cp / 64 / 64) by (rewrite Z.div_div by lia; reflexivity).
      lia. }
    rewrite E.
    replace ((2048 <=? cp) && negb ((55296 <=? cp) && (cp <=? 57343))) with true.
    + unfold utf16Encode. zbool; reflexivity.
    + symmetry. apply andb_true_intro. split; [apply Z.leb_le; lia|].
      apply negb_true_iff, andb_false_iff.
      destruct (Z.leb_spec 55296 cp); [right; apply Z.leb_gt; lia | left; reflexivity].
  - unfold pctEncodeAll, decodeEscape. cbn [map concat]. rewrite app_nil_r, <- !app_assoc.
    assert (0 <= cp / 262144 < 5) by (split; [apply Z.div_pos | apply Z.div_lt_upper_bound]; lia).
    assert (0 <= (cp / 4096) mod 64 < 64) by (apply Z.mod_pos_bound; lia).
    assert (0 <= (cp / 64) mod 64 < 64) by (apply Z.mod_pos_bound; lia).
    assert (0 <= cp mod 64 < 64) by (apply Z.mod_pos_bound; lia).
    rewrite readEscape_pctEncode by lia. rewrite leadingOnes_4 by lia.
    cbn [Nat.sub]. rewrite !readContinuation_cons by lia. cbn [readContinuation].
    unfold utf8Decode.
    assert (E : (240 + cp / 262144 - 240) * 262144 + (128 + (cp / 4096) mod 64 - 128) * 4096
                + (128 + (cp / 64) mod 64 - 128) * 64 + (128 + cp mod 64 - 128) = cp).
    { pose proof (Z.div_mod cp 64 ltac:(lia)). pose proof (Z.div_mod (cp / 64) 64 ltac:(lia)).
      pose proof (Z.div_mod (cp / 64 / 64) 64 ltac:(lia)).
      replace (cp / 4096) with (cp / 64 / 64) by (rewrite Z.div_div by lia; reflexivity).
      replace (cp / 262144) with (cp / 64 / 64 / 64) by (rewrite !Z.div_div by lia; reflexivity).
      lia. }
    rewrite E.
    replace ((65536 <=? cp) && (cp <=? 1114111)) with true
      by (symmetry; apply andb_true_intro; split; apply Z.leb_le; lia).
    reflexivity.
Qed.

Lemma bind_Ok {A B} (m : result A) (k : A -> result B) b :
  bind m k = Ok b -> exists a, m = Ok a /\ k a = Ok b.
Proof. destruct m as [a|e]; [eauto | discriminate]. Qed.

Lemma pctEncodeAll_utf8_head cp :
  exists tl, pctEncodeAll (utf8Encode cp) = 37 :: tl.
Proof.
  unfold utf8Encode.
  destruct (cp <? 128); [|destruct (cp <? 2048); [|destruct (cp <? 65536)]];
    eexists; reflexivity.
Qed.

(** The decoder undoes one encoded code point. *)
Lemma decodeFrom_utf8 cp t :
  isScalar cp ->
  decodeFrom 0 (pctEncodeAll (utf8Encode cp) ++ t) =
  (let* r := decodeFrom 0 t in Ok (utf16Encode cp ++ r)).
Proof.
  intros Hcp. pose proof (decodeEscape_utf8 cp t Hcp) as Hesc.
  destruct (pctEncodeAll_utf8_head cp) as [tl Htl].
  rewrite Htl in *. cbn [app decodeFrom]. rewrite Z.eqb_refl.
  cbn [app] in Hesc. rewrite Hesc. cbn [bind length Nat.sub].
  rewrite Nat.sub_0_r, decodeFrom_skip. reflexivity.
Qed.

Lemma uriUnescaped_not_percent c : uriUnescaped c = true -> c <> 37.
Proof. intros H ->. discriminate H. Qed.

Lemma decodeFrom_literal c t :
  c <> 37 ->
  decodeFrom 0 (c :: t) = (let* r := decodeFrom 0 t in Ok (c :: r)).
Proof. intros Hc. cbn [decodeFrom]. destruct (Z.eqb_spec c 37); [contradiction | reflexivity]. Qed.

Lemma utf16Encode_pair c d :
  isLeadSurrogate c = true -> isTrailSurrogate d = true ->
  utf16Encode (surrogatePairToCodePoint c d) = [c; d]
  /\ isScalar (surrogatePairToCodePoint c d).
Proof.
  unfold isLeadSurrogate, isTrailSurrogate, surrogatePairToCodePoint, utf16Encode, isScalar.
  intros [Hc1 Hc2]%andb_prop [Hd1 Hd2]%andb_prop.
  apply Z.leb_le in Hc1, Hc2, Hd1, Hd2.
  split; [|lia].
  destruct (Z.ltb_spec ((c - 55296) * 1024 + (d - 56320) + 65536) 65536); [lia|].
  replace ((c - 55296) * 1024 + (d - 56320) + 65536 - 65536)
    with ((d - 56320) + (c - 55296) * 1024) by lia.
  rewrite Z.div_add, Z.mod_add by lia.
  rewrite Z.div_small, Z.mod_small by lia.
  f_equal; [lia | f_equal; lia].
Qed.

Lemma utf16Encode_bmp c :
  0 <= c < 65536 -> utf16Encode c = [c].
Proof. intros. unfold utf16Encode. destruct (Z.ltb_spec c 65536); [reflexivity | lia]. Qed.

(** decodeURIComponent undoes encodeURIComponent. *)
Lemma decode_encode s :
  wfString s ->
  forall e, encodeURIComponent s = Ok e -> decodeURIComponent e = Ok s.
Proof.
  unfold decodeURIComponent.
  induction s as [s IH] using (induction_ltof1 _ (@length Z)). unfold ltof in IH.
  intros Hwf e He. destruct s as [|c rest]; cbn [encodeURIComponent] in He.
  - injection He as <-. reflexivity.
  - apply Forall_cons in Hwf as [Hc Hrest].
    destruct (uriUnescaped c) eqn:Hun.
    { apply bind_Ok in He as (r & Hr & [= <-]).
      rewrite decodeFrom_literal by (apply uriUnescaped_not_percent; assumption).
      rewrite (IH rest) with (e := r); [reflexivity | cbn; lia | assumption | assumption]. }
    destruct (isLeadSurrogate c) eqn:Hlead.
    { destruct rest as [|d rest']; [discriminate|].
      destruct (isTrailSurrogate d) eqn:Htrail; [|discriminate].
      apply bind_Ok in He as (r & Hr & [= <-]).
      apply Forall_cons in Hrest as [Hd Hrest'].
      destruct (utf16Encode_pair c d Hlead Htrail) as [Hpair Hsc].
      rewrite decodeFrom_utf8 by assumption.
      rewrite (IH rest') with (e := r); [|cbn; lia|assumption|assumption].
      cbn [bind]. rewrite Hpair. reflexivity. }
    destruct (isTrailSurrogate c) eqn:Htrail; [discriminate|].
    apply bind_Ok in He as (r & Hr & [= <-]).
    assert (isScalar c).
    { unfold isScalar, isLeadSurrogate, isTrailSurrogate in *.
      apply andb_false_iff in Hlead, Htrail. rewrite !Z.leb_gt in Hlead, Htrail. lia. }
    rewrite decodeFrom_utf8 by assumption.
    rewrite (IH rest) with (e := r); [|cbn; lia|assumption|assumption].
    cbn [bind]. rewrite utf16Encode_bmp by assumption. reflexivity.
Qed.

Lemma hexDigit_safe d : 0 <= d < 16 -> uriSafe (hexDigit d) = true.
Proof.
  intros Hd.
  assert (Hcases : d = 0 \/ d = 1 \/ d = 2 \/ d = 3 \/ d = 4 \/ d = 5 \/ d = 6 \/ d = 7 \/
                   d = 8 \/ d = 9 \/ d = 10 \/ d = 11 \/ d = 12 \/ d = 13 \/ d = 14 \/ d = 15) by lia.
  repeat (destruct Hcases as [->|Hcases]; [reflexivity|]). subst. reflexivity.
Qed.

Lemma pctEncode_safe b : 0 <= b < 256 -> Forall (fun c => uriSafe c = true) (pctEncode b).
Proof.
  intros Hb. unfold pctEncode. repeat constructor.
  - apply hexDigit_safe. split; [apply Z.div_pos | apply Z.div_lt_upper_bound]; lia.
  - apply hexDigit_safe. apply Z.mod_pos_bound. lia.
Qed.

Lemma utf8Encode_bytes cp :
  0 <= cp <= 1114111 -> Forall (fun b => 0 <= b < 256) (utf8Encode cp).
Proof.
  intros Hcp. unfold utf8Encode.
  destruct (Z.ltb_spec cp 128); [|destruct (Z.ltb_spec cp 2048); [|destruct (Z.ltb_spec cp 65536)]];
    repeat constructor; Z.to_euclidean_division_equations; lia.
Qed.

Lemma pctEncodeAll_safe bs :
  Forall (fun b => 0 <= b < 256) bs ->
  Forall (fun c => uriSafe c = true) (pctEncodeAll bs).
Proof.
  unfold pctEncodeAll. induction 1 as [|b bs Hb _ IH]; cbn [map concat].
  - constructor.
  - apply Forall_app. split; [apply pctEncode_safe; assumption | exact IH].
Qed.

Lemma encode_safe s :
  wfString s ->
  forall e, encodeURIComponent s = Ok e -> Forall (fun c => uriSafe c = true) e.
Proof.
  induction s as [s IH] using (induction_ltof1 _ (@length Z)). unfold ltof in IH.
  intros Hwf e He. destruct s as [|c rest]; cbn [encodeURIComponent] in He.
  - injection He as <-. constructor.
  - apply Forall_cons in Hwf as [Hc Hrest].
    destruct (uriUnescaped c) eqn:Hun.
    { apply bind_Ok in He as (r & Hr & [= <-]). constructor.
      - unfold uriSafe. rewrite Hun. reflexivity.
      - apply (IH rest); [cbn; lia | assumption | assumption]. }
    destruct (isLeadSurrogate c) eqn:Hlead.
    { destruct rest as [|d rest']; [discriminate|].
      destruct (isTrailSurrogate d) eqn:Htrail; [|discriminate].
      apply bind_Ok in He as (r & Hr & [= <-]).
      apply Forall_cons in Hrest as [Hd Hrest'].
      destruct (utf16Encode_pair c d Hlead Htrail) as [_ [Hsc _]].
      apply Forall_app. split.
      - apply pctEncodeAll_safe, utf8Encode_bytes. assumption.
      - apply (IH rest'); [cbn; lia | assumption | assumption]. }
    destruct (isTrailSurrogate c) eqn:Htrail; [discriminate|].
    apply bind_Ok in He as (r & Hr & [= <-]).
    apply Forall_app. split.
    + apply pctEncodeAll_safe, utf8Encode_bytes. lia.
    + apply (IH rest); [cbn; lia | assumption | assumption].
Qed.

Lemma hexValue_range c v : hexValue c = Some v -> 0 <= v < 16.
Proof.
  unfold hexValue.
  repeat match goal with
  | |- context [(?a <=? ?b) && (?c <=? ?d)] =>
      let H := fresh in
      destruct ((a <=? b) && (c <=? d)) eqn:H;
      [apply andb_prop in H as [?%Z.leb_le ?%Z.leb_le]; intros [= <-]; lia|]
  end.
  discriminate.
Qed.

Lemma readEscape_range s b t : readEscape s = Some (b, t) -> 0 <= b < 256.
Proof.
  unfold readEscape. destruct s as [|p [|hi [|lo rest]]]; try discriminate.
  destruct (p =? 37); [|discriminate].
  destruct (hexValue hi) as [a|] eqn:Ha; [|discriminate].
  destruct (hexValue lo) as [c|] eqn:Hc; [|discriminate].
  intros [= <- _]. apply hexValue_range in Ha, Hc. lia.
Qed.

Lemma readContinuation_range n s bs t :
  readContinuation n s = Some (bs, t) ->
  length bs = n /\ Forall (fun b => 128 <= b < 192) bs.
Proof.
  revert s bs t. induction n as [|n IH]; intros s bs t; cbn [readContinuation].
  - intros [= <- _]. split; [reflexivity | constructor].
  - destruct (readEscape s) as [[b s1]|]; [|discriminate].
    destruct ((128 <=? b) && (b <? 192)) eqn:Hb; [|discriminate].
    destruct (readContinuation n s1) as [[bs' s2]|] eqn:Hrec; [|discriminate].
    intros [= <- _]. apply IH in Hrec as [Hlen Hall].
    apply andb_prop in Hb as [?%Z.leb_le ?%Z.ltb_lt].
    split; [cbn; lia | constructor; [lia | assumption]].
Qed.

Lemma utf16Encode_wf cp : 0 <= cp <= 1114111 -> wfString (utf16Encode cp).
Proof.
  intros Hcp. unfold utf16Encode, wfString.
  destruct (Z.ltb_spec cp 65536); repeat constructor;
    Z.to_euclidean_division_equations; lia.
Qed.

Lemma utf8Decode_range b conts cp :
  0 <= b < 256 -> Forall (fun c => 128 <= c < 192) conts ->
  utf8Decode b conts = Some cp -> 0 <= cp <= 1114111.
Proof.
  intros Hb Hall Hd. unfold utf8Decode in Hd.
  destruct conts as [|b1 [|b2 [|b3 [|]]]]; try discriminate;
    repeat match goal with H : Forall _ (_ :: _) |- _ => apply Forall_cons in H as [? H] end;
    match type of Hd with (if ?c then _ else _) = _ => destruct c eqn:Hc; [|discriminate] end;
    injection Hd as <-.
  - apply Z.leb_le in Hc. lia.
  - apply andb_prop in Hc as [?%Z.leb_le _]. lia.
  - apply andb_prop in Hc as [?%Z.leb_le ?%Z.leb_le]. lia.
Qed.

Lemma decodeEscape_wf s units used :
  decodeEscape s = Ok (units, used) -> wfString units.
Proof.
  unfold decodeEscape.
  destruct (readEscape s) as [[b s1]|] eqn:Hesc; [|discriminate].
  apply readEscape_range in Hesc.
  destruct (leadingOnes b) as [|[|[|[|[|]]]]] eqn:Hn; try discriminate.
  - unfold leadingOnes in Hn. destruct (Z.ltb_spec b 128).
    + intros [= <- _]. repeat constructor; lia.
    + repeat match type of Hn with (if ?c then _ else _) = _ => destruct c end; discriminate.
  - destruct (readContinuation _ s1) as [[conts s2]|] eqn:Hc; [|discriminate].
    apply readContinuation_range in Hc as [_ Hall].
    destruct (utf8Decode b conts) as [cp|] eqn:Hd; [|discriminate].
    intros [= <- _]. eapply utf16Encode_wf, utf8Decode_range; eassumption.
  - destruct (readContinuation _ s1) as [[conts s2]|] eqn:Hc; [|discriminate].
    apply readContinuation_range in Hc as [_ Hall].
    destruct (utf8Decode b conts) as [cp|] eqn:Hd; [|discriminate].
    intros [= <- _]. eapply utf16Encode_wf, utf8Decode_range; eassumption.
  - destruct (readContinuation _ s1) as [[conts s2]|] eqn:Hc; [|discriminate].
    apply readContinuation_range in Hc as [_ Hall].
    destruct (utf8Decode b conts) as [cp|] eqn:Hd; [|discriminate].
    intros [= <- _]. eapply utf16Encode_wf, utf8Decode_range; eassumption.
Qed.

Lemma decodeFrom_wf s :
  wfString s -> forall k d, decodeFrom k s = Ok d -> wfString d.
Proof.
  induction 1 as [|c rest Hc Hrest IH]; intros k d; cbn [decodeFrom].
  - intros [= <-]. constructor.
  - destruct k as [|k]; [|apply IH].
    destruct (c =? 37).
    + intros ([units used] & Hesc & Hk)%bind_Ok.
      apply bind_Ok in Hk as (r & Hr & [= <-]).
      apply Forall_app. split; [eapply decodeEscape_wf; eassumption | eapply IH; eassumption].
    + intros (r & Hr & [= <-])%bind_Ok. constructor; [assumption | eapply IH; eassumption].
Qed.

(** A segment that came out of encodeURIComponent is left as it is. *)
Lemma encodeSegment_encoded g e :
  wfString g -> encodeURIComponent g = Ok e -> encodeSegment e = Ok e.
Proof.
  intros Hwf He. unfold encodeSegment. destruct e as [|c e']; [reflexivity|].
  rewrite (decode_encode g Hwf _ He). cbn [bind]. rewrite He. reflexivity.
Qed.

Lemma encodeSegment_shape seg e :
  wfString seg -> encodeSegment seg = Ok e ->
  exists g, wfString g /\ encodeURIComponent g = Ok e.
Proof.
  intros Hwf. unfold encodeSegment. destruct seg as [|c seg'].
  - intros [= <-]. exists []. split; [constructor | reflexivity].
  - destruct (decodeURIComponent (c :: seg')) as [d|err] eqn:Hd; cbn [bind].
    + destruct (encodeURIComponent d) as [r|err] eqn:Hr.
      * intros [= <-]. exists d. split; [|assumption].
        eapply decodeFrom_wf; eassumption.
      * intros He. exists (c :: seg'). split; assumption.
    + intros He. exists (c :: seg'). split; assumption.
Qed.

Lemma encodeSegment_idempotent seg e :
  wfString seg -> encodeSegment seg = Ok e -> encodeSegment e = Ok e.
Proof.
  intros Hwf He. destruct (encodeSegment_shape seg e Hwf He) as (g & Hg & Henc).
  eapply encodeSegment_encoded; eassumption.
Qed.

Lemma encodeSegment_no_slash seg e :
  wfString seg -> encodeSegment seg = Ok e -> 47 ∉ e.
Proof.
  intros Hwf He. destruct (encodeSegment_shape seg e Hwf He) as (g & Hg & Henc).
  pose proof (encode_safe g Hg e Henc) as Hsafe.
  intros Hin. rewrite Forall_forall in Hsafe. apply Hsafe in Hin. discriminate Hin.
Qed.

(** ** split and join *)

Lemma split_nonempty sep s : split sep s <> [].
Proof.
  destruct s as [|c rest]; cbn [split]; [discriminate|].
  destruct (c =? sep); [discriminate|]. destruct (split sep rest); discriminate.
Qed.

Lemma split_no_sep sep s : sep ∉ s -> split sep s = [s].
Proof.
  induction s as [|c rest IH]; intros Hin; cbn [split]; [reflexivity|].
  apply not_elem_of_cons in Hin as [Hne Hin].
  destruct (Z.eqb_spec c sep); [congruence|]. rewrite IH by assumption. reflexivity.
Qed.

Lemma split_app_sep sep a rest :
  sep ∉ a -> split sep (a ++ sep :: rest) = a :: split sep rest.
Proof.
  induction a as [|c a IH]; intros Hin; cbn [app split].
  - rewrite Z.eqb_refl. reflexivity.
  - apply not_elem_of_cons in Hin as [Hne Hin].
    destruct (Z.eqb_spec c sep); [congruence|]. rewrite IH by assumption. reflexivity.
Qed.

Lemma split_join sep segs :
  segs <> [] -> Forall (fun seg => sep ∉ seg) segs -> split sep (join sep segs) = segs.
Proof.
  intros Hne Hall. induction Hall as [|seg rest Hseg Hrest IH]; [contradiction|].
  destruct rest as [|seg' rest'].
  - cbn [join]. apply split_no_sep. assumption.
  - change (join sep (seg :: seg' :: rest')) with (seg ++ sep :: join sep (seg' :: rest')).
    rewrite split_app_sep by assumption. f_equal. apply IH. discriminate.
Qed.

Lemma split_wf sep s : wfString s -> Forall wfString (split sep s).
Proof.
  induction 1 as [|c rest Hc Hrest IH]; cbn [split].
  - repeat constructor.
  - destruct (c =? sep); [constructor; [constructor | assumption]|].
    destruct (split sep rest) as [|seg segs].
    + constructor; [constructor; [assumption | constructor] | constructor].
    + apply Forall_cons in IH as [Hseg Hsegs].
      constructor; [constructor; assumption | assumption].
Qed.

Lemma mapM_encodeSegment segs es :
  Forall wfString segs -> mapM encodeSegment segs = Ok es ->
  mapM encodeSegment es = Ok es /\ Forall (fun seg => 47 ∉ seg) es /\
  length es = length segs.
Proof.
  intros Hall. revert es. induction Hall as [|seg rest Hseg Hrest IH]; intros es; cbn [mapM].
  - intros [= <-]. repeat split; constructor.
  - intros (e & He & (es' & Hes' & [= <-])%bind_Ok)%bind_Ok.
    destruct (IH _ Hes') as (Hidem & Hno & Hlen).
    cbn [mapM]. rewrite (encodeSegment_idempotent seg e Hseg He). cbn [bind].
    rewrite Hidem. cbn [bind].
    repeat split; [constructor; [eapply encodeSegment_no_slash; eassumption | assumption] | cbn; lia].
Qed.

(** ** normalizePath is idempotent *)

Lemma isAbsoluteUrl_slash s : isAbsoluteUrl (47 :: s) = false.
Proof. reflexivity. Qed.

Lemma normalizeWith_idempotent onAbsolute p q :
  wfString p -> isAbsoluteUrl p = false ->
  normalizeWith onAbsolute p = Ok q -> normalizeWith onAbsolute q = Ok q.
Proof.
  intros Hwf Habs. unfold normalizeWith at 1. rewrite Habs.
  destruct (jsEqb p [] || jsEqb p (js "/")); [intros [= <-]; reflexivity|].
  intros (es & Hes & [= <-])%bind_Ok.
  assert (Hraw : wfString (if startsWith (js "/") p then drop 1 p else p)).
  { destruct (startsWith (js "/") p); [|assumption].
    destruct p; [constructor | apply Forall_cons in Hwf as [_ ?]; assumption]. }
  apply mapM_encodeSegment in Hes as (Hidem & Hno & Hlen); [|apply split_wf; assumption].
  assert (Hne : es <> []).
  { intros ->. cbn in Hlen. symmetry in Hlen. apply length_zero_iff_nil in Hlen.
    exact (split_nonempty _ _ Hlen). }
  unfold normalizeWith.
  destruct (join 47 es) as [|c rest] eqn:Hj; [reflexivity|].
  replace (jsEqb (47 :: c :: rest) [] || jsEqb (47 :: c :: rest) (js "/")) with false
    by (unfold jsEqb; rewrite !bool_decide_eq_false_2; [reflexivity | discriminate | discriminate]).
  rewrite isAbsoluteUrl_slash.
  change (startsWith (js "/") (47 :: c :: rest)) with true.
  cbn [drop]. rewrite <- Hj, split_join by assumption.
  rewrite Hidem. reflexivity.
Qed.

(** ** normalizePath returns on well-formed paths *)

Lemma uriUnescaped_ascii c : uriUnescaped c = true -> 0 <= c < 128.
Proof.
  unfold uriUnescaped, isAlnum. intros H.
  apply orb_prop in H as [H|H].
  - repeat (apply orb_prop in H as [H|H]);
      apply andb_prop in H as [?%Z.leb_le ?%Z.leb_le]; lia.
  - apply existsb_exists in H as (x & Hin & ->%Z.eqb_eq).
    vm_compute in Hin. intuition lia.
Qed.

Lemma not_surrogate_small c :
  0 <= c < 128 -> isLeadSurrogate c = false /\ isTrailSurrogate c = false.
Proof.
  intros Hc. unfold isLeadSurrogate, isTrailSurrogate.
  split; apply andb_false_intro1, Z.leb_gt; lia.
Qed.

Lemma encode_total s :
  wellFormed s = true -> exists e, encodeURIComponent s = Ok e.
Proof.
  induction s as [s IH] using (induction_ltof1 _ (@length Z)). unfold ltof in IH.
  destruct s as [|c rest]; intros Hwf; cbn [encodeURIComponent]; [eauto|].
  cbn [wellFormed] in Hwf.
  destruct (uriUnescaped c) eqn:Hun.
  { destruct (not_surrogate_small c (uriUnescaped_ascii c Hun)) as [Hl Ht].
    rewrite Hl, Ht in Hwf. destruct (IH rest) as [e He]; [cbn; lia | exact Hwf |].
    rewrite He. cbn [bind]. eauto. }
  destruct (isLeadSurrogate c).
  - destruct rest as [|d rest']; [discriminate|].
    apply andb_prop in Hwf as [Hd Hwf]. rewrite Hd.
    destruct (IH rest') as [e He]; [cbn; lia | exact Hwf |].
    rewrite He. cbn [bind]. eauto.
  - apply andb_prop in Hwf as [Ht Hwf]. apply negb_true_iff in Ht. rewrite Ht.
    destruct (IH rest) as [e He]; [cbn; lia | exact Hwf |].
    rewrite He. cbn [bind]. eauto.
Qed.

Lemma encodeSegment_total seg :
  wellFormed seg = true -> exists e, encodeSegment seg = Ok e.
Proof.
  intros Hwf. unfold encodeSegment. destruct seg as [|c seg']; [eauto|].
  destruct (let* d := decodeURIComponent (c :: seg') in encodeURIComponent d); [eauto|].
  apply encode_total. assumption.
Qed.

Lemma split_wellFormed s :
  wellFormed s = true -> Forall (fun seg => wellFormed seg = true) (split 47 s).
Proof.
  induction s as [s IH] using (induction_ltof1 _ (@length Z)). unfold ltof in IH.
  destruct s as [|c rest]; intros Hwf; [repeat constructor|].
  cbn [wellFormed] in Hwf.
  destruct (isLeadSurrogate c) eqn:Hlead.
  - destruct rest as [|d rest']; [discriminate|].
    apply andb_prop in Hwf as [Hd Hwf].
    assert (c <> 47 /\ d <> 47) as [Hc47 Hd47].
    { unfold isLeadSurrogate, isTrailSurrogate in *.
      apply andb_prop in Hlead as [?%Z.leb_le _], Hd as [?%Z.leb_le _]. lia. }
    cbn [split]. destruct (Z.eqb_spec c 47); [contradiction|].
    destruct (Z.eqb_spec d 47); [contradiction|].
    specialize (IH rest' ltac:(cbn; lia) Hwf).
    destruct (split 47 rest') as [|seg segs] eqn:Hs; [destruct (split_nonempty _ _ Hs)|].
    apply Forall_cons in IH as [Hseg Hsegs]. constructor; [|assumption].
    cbn [wellFormed]. rewrite Hlead, Hd. exact Hseg.
  - apply andb_prop in Hwf as [Ht Hwf].
    specialize (IH rest ltac:(cbn; lia) Hwf).
    cbn [split]. destruct (c =? 47); [constructor; [reflexivity | assumption]|].
    destruct (split 47 rest) as [|seg segs] eqn:Hs; [destruct (split_nonempty _ _ Hs)|].
    apply Forall_cons in IH as [Hseg Hsegs]. constructor; [|assumption].
    cbn [wellFormed]. rewrite Hlead, Ht. exact Hseg.
Qed.

Lemma mapM_total {A B} (f : A -> result B) l :
  Forall (fun a => exists b, f a = Ok b) l -> exists bs, mapM f l = Ok bs.
Proof.
  induction 1 as [|a l [b Hb] _ [bs Hbs]]; cbn [mapM]; [eauto|].
  rewrite Hb. cbn [bind]. rewrite Hbs. cbn [bind]. eauto.
Qed.

Lemma normalizeWith_total onAbsolute p :
  wellFormed p = true -> isAbsoluteUrl p = false ->
  exists q, normalizeWith onAbsolute p = Ok q.
Proof.
  intros Hwf Habs. unfold normalizeWith. rewrite Habs.
  destruct (jsEqb p [] || jsEqb p (js "/")); [eauto|].
  destruct (mapM_total encodeSegment
              (split 47 (if startsWith (js "/") p then drop 1 p else p))) as [es Hes].
  - eapply Forall_impl; [apply split_wellFormed | intros seg; apply encodeSegment_total].
    destruct p as [|c rest]; [reflexivity|]. cbn [startsWith js list_ascii_of_string map].
    destruct (Z.eqb_spec (ch "/") c) as [<-|]; [|exact Hwf].
    cbn [andb drop]. exact Hwf.
  - rewrite Hes. cbn [bind]. eauto.
Qed.

Lemma wfStringb_ok s : wfStringb s = true -> wfString s.
Proof.
  unfold wfStringb, wfString. rewrite forallb_forall, Forall_forall.
  intros H c Hc. apply list_elem_of_In, H in Hc.
  apply andb_prop in Hc as [?%Z.leb_le ?%Z.ltb_lt]. lia.
Qed.

(** ** The statements about normalizePath *)

(** C9: the empty path and the root both normalise to the root; a space
    becomes %20 and an ampersand %26, and a leading slash is supplied. *)
Theorem normalizePath_examples :
  WebDav.normalizePath (js EmptyString) = Ok (js "/") /\
  WebDav.normalizePath (js "/") = Ok (js "/") /\
  WebDav.normalizePath (js "calendars/user/My Calendar")
    = Ok (js "/calendars/user/My%20Calendar") /\
  WebDav.normalizePath (js "Files/test&file.txt") = Ok (js "/Files/test%26file.txt") /\
  CalDav.normalizePath (js EmptyString) = Ok (js "/") /\
  CalDav.normalizePath (js "/") = Ok (js "/") /\
  CalDav.normalizePath (js "calendars/user/My Calendar")
    = Ok (js "/calendars/user/My%20Calendar") /\
  CalDav.normalizePath (js "Files/test&file.txt") = Ok (js "/Files/test%26file.txt").
Proof. repeat split; vm_compute; reflexivity. Qed.

(** C6: on a path that is not an absolute URL, normalising the result of
    normalizePath again changes nothing, in the variant of the WebDAV node
    and in that of the CalDAV node; and normalizePath does return such a
    result whenever the path has no surrogate without its partner. *)
Theorem normalizePath_idempotent (p : jsstring) :
  wfString p -> isAbsoluteUrl p = false ->
  (forall q, WebDav.normalizePath p = Ok q -> WebDav.normalizePath q = Ok q) /\
  (forall q, CalDav.normalizePath p = Ok q -> CalDav.normalizePath q = Ok q) /\
  (wellFormed p = true ->
   exists q, WebDav.normalizePath p = Ok q /\ CalDav.normalizePath p = Ok q).
Proof.
  intros Hwf Habs. unfold WebDav.normalizePath, CalDav.normalizePath.
  split; [|split].
  - intros q. apply normalizeWith_idempotent; assumption.
  - intros q. apply normalizeWith_idempotent; assumption.
  - intros Hwell. destruct (normalizeWith_total Ok p Hwell Habs) as [q Hq].
    exists q. split; [|exact Hq].
    revert Hq. unfold normalizeWith. rewrite Habs. trivial.
Qed.

Lemma normalizePath_idempotent_witness :
  wfString (js "My Folder/a&b 100%.txt") /\
  isAbsoluteUrl (js "My Folder/a&b 100%.txt") = false /\
  WebDav.normalizePath (js "/My%20Folder/a%26b%20100%25.txt")
    = Ok (js "/My%20Folder/a%26b%20100%25.txt").
Proof.
  assert (Hwf : wfString (js "My Folder/a&b 100%.txt"))
    by (apply wfStringb_ok; reflexivity).
  split; [exact Hwf | split; [reflexivity|]].
  apply (proj1 (normalizePath_idempotent (js "My Folder/a&b 100%.txt") Hwf eq_refl)).
  vm_compute. reflexivity.
Defined.

(** ** The error translator *)

Lemma startsWith_app pat rest : startsWith pat (pat ++ rest) = true.
Proof.
  induction pat as [|p pat IH]; [destruct rest; reflexivity|].
  cbn [app startsWith]. rewrite Z.eqb_refl. exact IH.
Qed.

Lemma includes_app pat a b : includes pat (a ++ pat ++ b) = true.
Proof.
  induction a as [|c a IH]; cbn [app].
  - destruct (pat ++ b) eqn:E; cbn [includes]; rewrite <- ?E, startsWith_app; reflexivity.
  - cbn [includes]. rewrite IH. apply orb_true_r.
Qed.

Lemma includes_here pat b : includes pat (pat ++ b) = true.
Proof. exact (includes_app pat [] b). Qed.

Lemma includes_skip pat a b : includes pat b = true -> includes pat (a ++ b) = true.
Proof.
  intros H. induction a as [|c a IH]; [exact H|].
  cbn [app includes]. rewrite IH. apply orb_true_r.
Qed.

Ltac find_part :=
  rewrite <- ?app_assoc;
  repeat first [apply includes_here | apply includes_skip].

(** C8, amended: an error whose code is ENOTFOUND and whose message does
    not contain "Invalid URL" (in any case) is translated to the
    host-not-found message, which carries the operation, the resource and
    the URL; an error whose message contains "Invalid URL" gets the
    invalid-URL message whatever its code, that test being the first. *)
Theorem toFriendlyError_host_not_found family operation e u resource :
  (e_code e = Some (js "ENOTFOUND") ->
   includesCI (js "Invalid URL") (messageText e) = false ->
   let r := toFriendlyError family operation e u resource in
   r = js "Host not found for " ++ friendlyBase family operation resource u ++
       js ". Check the server hostname in credentials." /\
   includes (js "Host not found") r = true /\
   includes operation r = true /\
   includes resource r = true /\
   includes (quoted u) r = true) /\
  (includesCI (js "Invalid URL") (messageText e) = true ->
   toFriendlyError family operation e u resource =
     js "Invalid URL for " ++ friendlyBase family operation resource u ++
     js ". Ensure Base URL has protocol (https://) and path starts with " ++
     quoted (js "/") ++ js ". Spaces/special chars are auto-encoded.").
Proof.
  split.
  - intros Hcode Hmsg r. subst r. unfold toFriendlyError. rewrite Hmsg.
    unfold hasCode. rewrite bool_decide_eq_true_2 by exact Hcode.
    split; [reflexivity|]. unfold friendlyBase.
    split; [|repeat split; find_part].
    change (js "Host not found for ") with (js "Host not found" ++ js " for ").
    find_part.
  - intros Hmsg. unfold toFriendlyError. rewrite Hmsg. reflexivity.
Qed.

Lemma toFriendlyError_host_not_found_witness :
  toFriendlyError "WebDAV" (js "get") dnsError (js "/a.txt") (js "file") =
  js "Host not found for WebDAV get on file: " ++ quoted (js "/a.txt") ++
  js ". Check the server hostname in credentials.".
Proof.
  exact (proj1 (proj1 (toFriendlyError_host_not_found "WebDAV" (js "get") dnsError
                         (js "/a.txt") (js "file")) eq_refl eq_refl)).
Defined.

(** C8 as stated fails: the code is ENOTFOUND, the message says "Invalid
    URL", and the translation does not mention "Host not found". *)
Lemma toFriendlyError_enotfound_counterexample :
  e_code dnsErrorInvalidUrl = Some (js "ENOTFOUND") /\
  includes (js "Host not found")
    (toFriendlyError "WebDAV" (js "get") dnsErrorInvalidUrl (js "/a.txt") (js "file"))
  = false.
Proof. split; vm_compute; reflexivity. Qed.

(** ** Computations that send requests *)

Lemma ioBind_Ok {A B} (m : io A) (k : A -> io B) sent b :
  ioBind m k = (sent, Ok b) ->
  exists s1 a s2, m = (s1, Ok a) /\ k a = (s2, Ok b) /\ sent = s1 ++ s2.
Proof.
  unfold ioBind. destruct m as [s1 [a|e]]; [|discriminate].
  destruct (k a) as [s2 r] eqn:Hk. intros [= <- ->]. eauto 6.
Qed.

Lemma ioLift_Ok {A} (r : result A) sent a :
  ioLift r = (sent, Ok a) -> sent = [] /\ r = Ok a.
Proof. unfold ioLift. intros [= <- ->]. auto. Qed.

Lemma ioBind_lift {A B} (r : result A) (k : A -> io B) a :
  r = Ok a -> ioBind (ioLift r) k = k a.
Proof. intros ->. unfold ioBind, ioLift. destruct (k a). reflexivity. Qed.

Lemma failRequest_not_Ok {A} h idx op e u (a : A) :
  WebDav.failRequest h idx op e u <> Ok a.
Proof.
  unfold WebDav.failRequest. destruct (h_stringParam h "resource" idx); discriminate.
Qed.

(** A request of the WebDAV node that returns was sent once, with the
    method, headers and body it was composed with. *)
Lemma WebDav_doRequest_Ok h baseRoot idx op opts sent r :
  WebDav.doRequest h baseRoot idx op opts = (sent, Ok r) ->
  exists opts', sent = [opts'] /\ h_send h opts' = Ok r /\
    rq_method opts' = rq_method opts /\ rq_headers opts' = rq_headers opts /\
    rq_body opts' = rq_body opts.
Proof.
  unfold WebDav.doRequest.
  destruct (if isAbsoluteUrl (rq_url opts) then _ else _) as [display|e].
  2:{ intros [_ H]%ioLift_Ok. destruct (failRequest_not_Ok _ _ _ _ _ _ H). }
  destruct (if isAbsoluteUrl (rq_url opts) then Ok opts else _) as [opts'|e] eqn:Hopts.
  2:{ intros [_ H]%ioLift_Ok. destruct (failRequest_not_Ok _ _ _ _ _ _ H). }
  destruct (h_send h opts') as [r'|e] eqn:Hsend.
  2:{ intros [= _ H]. destruct (failRequest_not_Ok _ _ _ _ _ _ H). }
  intros [= <- <-]. exists opts'. repeat split; try assumption;
    destruct (isAbsoluteUrl (rq_url opts));
    try (injection Hopts as <-; reflexivity);
    apply bind_Ok in Hopts as (n & _ & [= <-]); reflexivity.
Qed.

Ltac io_step H :=
  let s1 := fresh "s" in let s2 := fresh "s" in
  let a := fresh "a" in let Hm := fresh "Hm" in
  apply ioBind_Ok in H as (s1 & a & s2 & Hm & H & ->);
  first [apply ioLift_Ok in Hm as [-> Hm] | idtac].

(** ** The success flag of the WebDAV operations *)

Lemma is2xx_spec st : is2xx st = true <-> 200 <= st <= 299.
Proof.
  unfold is2xx. rewrite andb_true_iff, Z.leb_le, Z.ltb_lt. lia.
Qed.

(** ** Composed requests *)

Lemma wfString_app a b : wfString a -> wfString b -> wfString (a ++ b).
Proof. unfold wfString. intros. apply Forall_app. auto. Qed.

Lemma normalizeWith_head onAbsolute p q :
  isAbsoluteUrl p = false -> normalizeWith onAbsolute p = Ok q ->
  exists t, q = 47 :: t.
Proof.
  intros Habs. unfold normalizeWith. rewrite Habs.
  destruct (jsEqb p [] || jsEqb p (js "/")); [intros [= <-]; exists []; reflexivity|].
  intros (es & _ & [= <-])%bind_Ok. eauto.
Qed.

(** What the WebDAV variant returns is a path that it leaves alone. *)
Lemma WebDav_normalizePath_fixed p q :
  wfString p -> WebDav.normalizePath p = Ok q ->
  isAbsoluteUrl q = false /\ WebDav.normalizePath q = Ok q.
Proof.
  intros Hwf Hq. unfold WebDav.normalizePath in *.
  destruct (isAbsoluteUrl p) eqn:Habs.
  - unfold normalizeWith in Hq. rewrite Habs in Hq.
    destruct (jsEqb p [] || jsEqb p (js "/")); [|discriminate].
    injection Hq as <-. split; reflexivity.
  - destruct (normalizeWith_head _ _ _ Habs Hq) as [t ->].
    split; [reflexivity|]. eapply normalizeWith_idempotent; eassumption.
Qed.

Lemma WebDav_doRequest_path h baseRoot idx op opts :
  isAbsoluteUrl (rq_url opts) = false ->
  WebDav.normalizePath (rq_url opts) = Ok (rq_url opts) ->
  fst (WebDav.doRequest h baseRoot idx op opts) = [withUrl opts (baseRoot ++ rq_url opts)].
Proof.
  intros Habs Hn. unfold WebDav.doRequest. rewrite Habs, Hn. cbn [bind].
  destruct (h_send h _); reflexivity.
Qed.

Lemma fst_ioBind_end {A B} (m : io A) (k : A -> result B) :
  fst (ioBind m (fun a => ioLift (k a))) = fst m.
Proof.
  destruct m as [sent [a|e]]; cbn; [apply app_nil_r | reflexivity].
Qed.

(** C7: a move or copy whose destination is an absolute URL of another
    origin ends with an error and sends nothing.  Otherwise the request
    that goes out has the Destination header [destinationHeader] computes,
    the serialised URL for an absolute destination of the same origin and
    base root plus normalised path for a relative one, and Overwrite T or
    F as the flag says. *)
Theorem move_copy_destination h baseRoot idx op path destination overwrite :
  stringParam h "path" idx [] = Ok path ->
  stringParam h "destination" idx [] = Ok destination ->
  boolParam h "overwrite" idx false = Ok overwrite ->
  wfString path ->
  forall method run,
    (method = "MOVE"%string /\ run = WebDav.caseMove h baseRoot idx op) \/
    (method = "COPY"%string /\ run = WebDav.caseCopy h baseRoot idx op) ->
  (forall destUrl base,
     isAbsoluteUrl destination = true ->
     h_newURL h destination = Some destUrl -> h_newURL h baseRoot = Some base ->
     (origin destUrl <> origin base -> run = ([], Err WebDav.crossOrigin)) /\
     (origin destUrl = origin base ->
      WebDav.destinationHeader h baseRoot destination = Ok (href destUrl))) /\
  (isAbsoluteUrl destination = false ->
   WebDav.destinationHeader h baseRoot destination =
     (let* n := WebDav.normalizePath destination in Ok (baseRoot ++ n))) /\
  (forall header target,
     WebDav.destinationHeader h baseRoot destination = Ok header ->
     WebDav.normalizePath path = Ok target ->
     fst run =
       [{| rq_method := method; rq_url := baseRoot ++ target;
           rq_headers := [("Destination", header);
                          ("Overwrite", if overwrite then js "T" else js "F")];
           rq_body := None |}]).
Proof.
  intros Hpath Hdest How Hwf method run Hrun.
  assert (Hrun' : run = WebDav.caseMoveCopy h baseRoot idx op method)
    by (destruct Hrun as [[-> ->]|[-> ->]]; reflexivity).
  clear Hrun. subst run. unfold WebDav.caseMoveCopy.
  rewrite (ioBind_lift _ _ _ Hpath), (ioBind_lift _ _ _ Hdest), (ioBind_lift _ _ _ How).
  split; [|split].
  - intros destUrl base Habs Hd Hb. unfold WebDav.destinationHeader.
    rewrite Habs, Hd, Hb. split; intros Ho.
    + rewrite bool_decide_eq_false_2 by exact Ho. reflexivity.
    + rewrite bool_decide_eq_true_2 by exact Ho. reflexivity.
  - intros Habs. unfold WebDav.destinationHeader. rewrite Habs. reflexivity.
  - intros header target Hh Ht.
    rewrite (ioBind_lift _ _ _ Hh), (ioBind_lift _ _ _ Ht).
    destruct (WebDav_normalizePath_fixed path target Hwf Ht) as [Habs Hfix].
    rewrite fst_ioBind_end. rewrite WebDav_doRequest_path by assumption. reflexivity.
Qed.

Lemma move_copy_destination_witness :
  WebDav.caseMove moveAwayHost (js "https://dav.example.com") 0 (Some (js "move"))
  = ([], Err WebDav.crossOrigin).
Proof.
  refine (proj1 (proj1 (move_copy_destination moveAwayHost (js "https://dav.example.com") 0%nat
            (Some (js "move")) (js "/a.txt") (js "https://other.example.org/a.txt") false
            eq_refl eq_refl eq_refl _ "MOVE"%string _ (or_introl (conj eq_refl eq_refl)))
          {| origin := js "https://other.example.org"; href := js "https://other.example.org/a.txt" |}
          {| origin := js "https://dav.example.com"; href := js "https://dav.example.com/" |}
          eq_refl eq_refl eq_refl) _).
  - apply wfStringb_ok. reflexivity.
  - discriminate.
Defined.

(** ** The create-event request *)

Lemma withLeadingSlash_head p : exists t, CalDav.withLeadingSlash p = 47 :: t.
Proof.
  unfold CalDav.withLeadingSlash. destruct p as [|c t]; [exists []; reflexivity|].
  cbn [startsWith js list_ascii_of_string map].
  destruct (Z.eqb_spec (ch "/") c) as [<-|]; eexists; reflexivity.
Qed.

Lemma withLeadingSlash_wf p : wfString p -> wfString (CalDav.withLeadingSlash p).
Proof.
  intros Hwf. unfold CalDav.withLeadingSlash.
  destruct (startsWith (js "/") p); [assumption|]. constructor; [lia | assumption].
Qed.

Lemma eventPath_wf p id :
  wfString p -> wfString id -> wfString (CalDav.eventPath p id).
Proof.
  intros Hp Hid. unfold CalDav.eventPath.
  repeat apply wfString_app; try assumption; apply wfStringb_ok; reflexivity.
Qed.

Lemma CalDav_doRequest_path h baseRoot idx op opts :
  isAbsoluteUrl (rq_url opts) = false ->
  CalDav.normalizePath (rq_url opts) = Ok (rq_url opts) ->
  fst (CalDav.doRequest h baseRoot idx op opts) = [withUrl opts (baseRoot ++ rq_url opts)].
Proof.
  intros Habs Hn. unfold CalDav.doRequest. rewrite Habs, Hn. cbn [bind].
  destruct (h_send h _); reflexivity.
Qed.

(** create-event sends one PUT request with the header
    Content-Type: text/calendar and the event data as body; its URL is the
    base root followed by the normal form of calendar path + [/] + event id
    + [.ics], the calendar path being the parameter with a slash put in
    front when it has none (normalised when the request is composed and
    again when it is sent, which changes nothing).  For the calendar path
    /cal and the id evt-1 that normal form is /cal/evt-1.ics; for /cal/
    the doubled slash stays. *)
Theorem createEvent_request h baseRoot idx op calendarPath eventId eventData q :
  (stringParam h "calendarPath" idx [] = Ok calendarPath ->
   stringParam h "eventId" idx [] = Ok eventId ->
   stringParam h "eventData" idx [] = Ok eventData ->
   wfString calendarPath -> wfString eventId ->
   CalDav.normalizePath
     (CalDav.eventPath (CalDav.withLeadingSlash calendarPath) eventId) = Ok q ->
   fst (CalDav.caseCreateEvent h baseRoot idx op) =
     [{| rq_method := "PUT"; rq_url := baseRoot ++ q;
         rq_headers := [("Content-Type", js "text/calendar")];
         rq_body := Some (RawText eventData) |}]) /\
  CalDav.normalizePath
    (CalDav.eventPath (CalDav.withLeadingSlash (js "/cal")) (js "evt-1"))
    = Ok (js "/cal/evt-1.ics") /\
  CalDav.normalizePath
    (CalDav.eventPath (CalDav.withLeadingSlash (js "/cal/")) (js "evt-1"))
    = Ok (js "/cal//evt-1.ics").
Proof.
  split; [|split; vm_compute; reflexivity].
  intros Hcal Hid Hdata Hwfc Hwfi Hq.
  unfold CalDav.caseCreateEvent, CalDav.casePutEvent.
  rewrite (ioBind_lift _ _ _ Hcal), (ioBind_lift _ _ _ Hid), (ioBind_lift _ _ _ Hdata).
  unfold CalDav.putEventRequest. rewrite Hq. cbn [bind].
  rewrite (ioBind_lift _ _ _ eq_refl), fst_ioBind_end.
  destruct (withLeadingSlash_head calendarPath) as [t Ht].
  assert (Habs : isAbsoluteUrl
            (CalDav.eventPath (CalDav.withLeadingSlash calendarPath) eventId) = false)
    by (rewrite Ht; reflexivity).
  destruct (normalizeWith_head _ _ _ Habs Hq) as [t' ->].
  rewrite CalDav_doRequest_path; [reflexivity | reflexivity |].
  eapply normalizeWith_idempotent; [|exact Habs|exact Hq].
  apply eventPath_wf; [apply withLeadingSlash_wf|]; assumption.
Qed.

Lemma createEvent_request_witness :
  fst (CalDav.caseCreateEvent createEventHost (js "https://dav.example.com") 0
         (Some (js "createEvent"))) =
  [{| rq_method := "PUT"; rq_url := js "https://dav.example.com/cal//evt-1.ics";
      rq_headers := [("Content-Type", js "text/calendar")];
      rq_body := Some (RawText (js "BEGIN:VCALENDAR")) |}].
Proof.
  refine (proj1 (createEvent_request createEventHost (js "https://dav.example.com") 0%nat
            (Some (js "createEvent")) (js "/cal/") (js "evt-1") (js "BEGIN:VCALENDAR")
            (js "/cal//evt-1.ics")) eq_refl eq_refl eq_refl _ _ _).
  - apply wfStringb_ok. reflexivity.
  - apply wfStringb_ok. reflexivity.
  - vm_compute. reflexivity.
Defined.

(** ** The check of the base URL *)

(** The file and the calendar node end the run on a base URL that does
    not pass the check: no request, no output, one error. *)
Lemma invalid_baseUrl_aborts h items heap fuel e :
  validateBaseUrl h = Err e ->
  e = invalidBaseUrl /\
  WebDav.execute h items = ([], Err invalidBaseUrl) /\
  CalDav.execute fuel h items heap = Some ([], Err invalidBaseUrl).
Proof.
  intros H. assert (e = invalidBaseUrl) as ->.
  { unfold validateBaseUrl in H. destruct (trim <$> h_baseUrl h) as [[|c b]|]; try congruence.
    destruct (isAbsoluteUrl (c :: b)); congruence. }
  unfold WebDav.execute, CalDav.execute. rewrite H. auto.
Qed.

(** C3 at the address-book node of nodes/CardDav/CardDav.node.ts: the
    credential has no protocol, the check of the other two nodes refuses
    it, and still the item is processed and its request sent. *)
Theorem carddav_skips_validation :
  validateBaseUrl noProtocolHost = Err invalidBaseUrl /\
  WebDav.execute noProtocolHost [plainItem 0] = ([], Err invalidBaseUrl) /\
  (fst <$> CardDav.execute 5 noProtocolHost [plainItem 0] (<[0%nat := []]> ∅)) =
    Some [{| rq_method := "REPORT"; rq_url := js "/addressbooks/user/";
             rq_headers := [("Depth", js "1"); ("Content-Type", js "application/xml")];
             rq_body := Some (AddressbookQueryXml
               ["D:resourcetype"; "D:displayname"; "C:addressbook-description";
                "C:supported-address-data"] None) |}].
Proof. repeat split; vm_compute; reflexivity. Qed.

(** ** The batch loops *)

Lemma WebDav_loop_continue h baseRoot items todo idx acc :
  h_continueOnFail h = true ->
  snd (WebDav.loop h baseRoot items todo idx acc) =
  Ok (acc ++ map (recordOf h baseRoot items) (seq idx (length todo))).
Proof.
  intros Hc. revert idx acc. induction todo as [|it todo IH]; intros idx acc.
  - cbn. rewrite app_nil_r. reflexivity.
  - cbn [WebDav.loop length seq map]. unfold recordOf at 1.
    destruct (WebDav.processItem h baseRoot items idx) as [sent [out|e]]; cbn [snd].
    + specialize (IH (S idx) (acc ++ [out])).
      destruct (WebDav.loop h baseRoot items todo (S idx) (acc ++ [out])) as [sent' r].
      cbn [snd] in *. rewrite IH, <- app_assoc. reflexivity.
    + rewrite Hc. specialize (IH (S idx) (acc ++ [WebDav.errorItem e idx])).
      destruct (WebDav.loop h baseRoot items todo (S idx) _) as [sent' r].
      cbn [snd] in *. rewrite IH, <- app_assoc. reflexivity.
Qed.

Lemma loopInPlace_prefix fuel h body idx items heap sent out heap' :
  loopInPlace fuel h body idx items heap = Some (sent, Ok (out, heap')) ->
  items `prefix_of` out.
Proof.
  revert idx items heap sent. induction fuel as [|fuel IH]; intros idx items heap sent;
    cbn [loopInPlace]; [discriminate|].
  destruct (items !! idx) as [item|]; [|intros [= _ <- _]; reflexivity].
  destruct (ioBind (body idx) _) as [s [heap1|e]].
  - destruct (loopInPlace fuel h body (S idx) items heap1) as [[s' r']|] eqn:Hrec;
      [|discriminate].
    intros [= _ ->]. eapply IH; eassumption.
  - destruct (h_continueOnFail h); [|discriminate].
    destruct (h_getInputData h idx items) as [input|]; [|discriminate].
    destruct (input !! 0%nat) as [first|]; [|discriminate].
    destruct (loopInPlace fuel h body (S idx) _ heap) as [[s' r']|] eqn:Hrec;
      [|discriminate].
    intros [= _ ->]. apply IH in Hrec.
    etransitivity; [|exact Hrec]. apply prefix_app_r. reflexivity.
Qed.

Lemma loopInPlace_error_record fuel h body idx items heap sent out heap' :
  loopInPlace fuel h body idx items heap = Some (sent, Ok (out, heap')) ->
  forall i e, (idx <= i < length items)%nat -> snd (body i) = Err e ->
  exists j first, (length items <= j)%nat /\ out !! j = Some (errorRecord first e i).
Proof.
  revert idx items heap sent. induction fuel as [|fuel IH]; intros idx items heap sent;
    cbn [loopInPlace]; [discriminate|].
  intros Hrun i e Hi Hfail.
  destruct (items !! idx) as [item|] eqn:Hitem.
  2:{ apply lookup_ge_None in Hitem. lia. }
  destruct (ioBind (body idx) _) as [s [heap1|e0]] eqn:Hstep.
  - destruct (loopInPlace fuel h body (S idx) items heap1) as [[s' r']|] eqn:Hrec;
      [|discriminate].
    injection Hrun as _ ->.
    destruct (decide (i = idx)) as [->|Hne].
    { unfold ioBind in Hstep. destruct (body idx) as [s0 [fields|e1]]; cbn in Hfail;
        [discriminate | discriminate]. }
    eapply IH; [exact Hrec | lia | exact Hfail].
  - destruct (h_continueOnFail h); [|discriminate].
    destruct (h_getInputData h idx items) as [input|]; [|discriminate].
    destruct (input !! 0%nat) as [first|]; [|discriminate].
    destruct (loopInPlace fuel h body (S idx) _ heap) as [[s' r']|] eqn:Hrec;
      [|discriminate].
    injection Hrun as _ ->.
    destruct (decide (i = idx)) as [->|Hne].
    + assert (e0 = e) as ->.
      { unfold ioBind in Hstep. destruct (body idx) as [s0 [fields|e1]]; cbn in Hfail;
          [discriminate|]. injection Hfail as ->. injection Hstep as _ ->. reflexivity. }
      apply loopInPlace_prefix in Hrec. destruct Hrec as [k ->].
      exists (length items), first. split; [lia|].
      rewrite <- app_assoc. rewrite lookup_app_r by lia.
      rewrite Nat.sub_diag. reflexivity.
    + destruct (IH _ _ _ _ Hrec i e) as (j & first' & Hj & Hout);
        [rewrite length_app; cbn; lia | exact Hfail |].
      exists j, first'. split; [|exact Hout]. rewrite length_app in Hj. lia.
Qed.

(** Why the loop needs fuel: when every visit fails and the host hands
    out a first input item, each failure appends a record that is visited
    in turn, and the loop never reaches the end of [items]. *)
Section NeverEnds.

Variable h : Host.
Variable body : nat -> io (list (string * jsval)).
Hypothesis continue : h_continueOnFail h = true.
Hypothesis always_fails : forall i, exists e, snd (body i) = Err e.
Hypothesis input_there :
  forall i items, exists input first,
    h_getInputData h i items = Ok input /\ input !! 0%nat = Some first.

Lemma loopInPlace_never_ends fuel idx items heap :
  (idx < length items)%nat -> loopInPlace fuel h body idx items heap = None.
Proof.
  revert idx items heap. induction fuel as [|fuel IH]; intros idx items heap Hidx;
    cbn [loopInPlace]; [reflexivity|].
  destruct (lookup_lt_is_Some_2 items idx Hidx) as [item ->].
  destruct (always_fails idx) as [e He].
  destruct (body idx) as [s r]. cbn [snd] in He. subst r. cbn [ioBind].
  rewrite continue.
  destruct (input_there idx items) as (input & first & -> & ->).
  rewrite IH; [reflexivity|]. rewrite length_app. cbn [length]. lia.
Qed.

End NeverEnds.

(** The file node under continue-on-fail returns one record per input
    item, in input order: the record the item produced, or an error record
    paired with its index.  With three items of which one fails, the two
    results are there and the count is three. *)
Lemma WebDav_continueOnFail_output h items baseUrl :
  validateBaseUrl h = Ok baseUrl -> h_continueOnFail h = true ->
  exists out,
    snd (WebDav.execute h items) = Ok out /\
    length out = length items /\
    forall i, (i < length items)%nat ->
      out !! i = Some (recordOf h (stripTrailingSlash baseUrl) items i).
Proof.
  intros Hv Hc. unfold WebDav.execute. rewrite Hv.
  rewrite WebDav_loop_continue by exact Hc. cbn [app].
  eexists. split; [reflexivity|]. split.
  - rewrite length_map, length_seq. reflexivity.
  - intros i Hi. rewrite list_lookup_fmap, lookup_seq_lt by exact Hi. reflexivity.
Qed.

(** The calendar and the address-book node leave the input items where
    they were and append the error record, paired with the index of the
    failed item, behind them: a run that returns after a failure has
    returned more records than it was given. *)
Lemma loopInPlace_appends fuel h body items heap sent out heap' :
  loopInPlace fuel h body 0 items heap = Some (sent, Ok (out, heap')) ->
  items `prefix_of` out /\
  forall i e, (i < length items)%nat -> snd (body i) = Err e ->
    (length items < length out)%nat /\
    exists j first, (length items <= j)%nat /\
      out !! j = Some (errorRecord first e i).
Proof.
  intros Hrun. split; [eapply loopInPlace_prefix; eassumption|].
  intros i e Hi Hfail.
  destruct (loopInPlace_error_record _ _ _ _ _ _ _ _ _ Hrun i e ltac:(lia) Hfail)
    as (j & first & Hj & Hout).
  split; [|eauto]. apply lookup_lt_Some in Hout. lia.
Qed.

(** C1 at the calendar node: continue-on-fail is on, the first of three
    items fails and the other two succeed; the run sends a fourth request,
    for the record it appended, and returns four records, where the file
    node returns three for the same three deletions. *)
Theorem caldav_continueOnFail_count :
  h_continueOnFail failFirstHost = true /\
  (exists e, snd (CalDav.processItem failFirstHost (js "https://dav.example.com") 0) = Err e) /\
  (exists f, snd (CalDav.processItem failFirstHost (js "https://dav.example.com") 1) = Ok f) /\
  (exists f, snd (CalDav.processItem failFirstHost (js "https://dav.example.com") 2) = Ok f) /\
  (exists sent out heap',
     CalDav.execute 10 failFirstHost threeItems threeObjects = Some (sent, Ok (out, heap')) /\
     length sent = 4%nat /\
     length out = 4%nat /\ length out <> length threeItems) /\
  (exists sent out,
     WebDav.execute failFirstFileHost threeItems = (sent, Ok out) /\
     length sent = 3%nat /\ length out = length threeItems).
Proof.
  split; [reflexivity|].
  split; [eexists; vm_compute; reflexivity|].
  split; [eexists; vm_compute; reflexivity|].
  split; [eexists; vm_compute; reflexivity|].
  split.
  - eexists _, _, _. split; [vm_compute; reflexivity|].
    split; [reflexivity | split; [reflexivity | discriminate]].
  - eexists _, _. split; [vm_compute; reflexivity|]. split; reflexivity.
Qed.

(** ** Matching a tag pattern *)

Lemma stripPrefix_Some pat s rest : stripPrefix pat s = Some rest <-> s = pat ++ rest.
Proof.
  revert s. induction pat as [|p pat IH]; intros s; cbn [stripPrefix app].
  - split; [intros [= ->]; reflexivity | intros ->; reflexivity].
  - destruct s as [|c s]; [split; discriminate|].
    destruct (Z.eqb_spec p c) as [->|Hne].
    + rewrite IH. split; [intros ->; reflexivity | intros [= ->]; reflexivity].
    + split; [discriminate | intros [= -> _]; contradiction].
Qed.

Lemma stripPrefix_app pat rest : stripPrefix pat (pat ++ rest) = Some rest.
Proof. apply stripPrefix_Some. reflexivity. Qed.

Lemma startsWith_true pat s : startsWith pat s = true <-> exists rest, s = pat ++ rest.
Proof.
  revert s. induction pat as [|p pat IH]; intros s; cbn [startsWith app].
  - split; [eauto | destruct s; reflexivity].
  - destruct s as [|c s]; [split; [discriminate | intros [? [=]]]|].
    rewrite andb_true_iff, Z.eqb_eq, IH. split.
    + intros [-> [rest ->]]. eauto.
    + intros [rest [= -> ->]]. eauto.
Qed.

Lemma stripPrefix_None pat s : startsWith pat s = false -> stripPrefix pat s = None.
Proof.
  intros H. destruct (stripPrefix pat s) as [rest|] eqn:E; [|reflexivity].
  apply stripPrefix_Some in E. subst s. rewrite startsWith_app in H. discriminate.
Qed.

Lemma includes_cons_false pat c s :
  includes pat (c :: s) = false ->
  startsWith pat (c :: s) = false /\ includes pat s = false.
Proof. cbn [includes]. apply orb_false_elim. Qed.

(** An occurrence of [pat] that starts inside [a] and is followed by
    another occurrence right behind [a] lies inside [a]. *)
Lemma overlap_inside pat a t r :
  headUnique pat -> a <> [] -> a ++ pat ++ t = pat ++ r -> startsWith pat a = true.
Proof.
  intros Hu Ha Heq. apply app_eq_inv in Heq as [(k & -> & _)|(k & Hpat & Hk)].
  - apply startsWith_true. eauto.
  - destruct k as [|k0 k].
    + rewrite app_nil_r in Hpat. subst a. apply startsWith_true. exists []. symmetry. apply app_nil_r.
    + exfalso. destruct pat as [|p tl]; [exact Hu|]. cbn [headUnique] in Hu.
      cbn [app] in Hk. injection Hk as -> _.
      destruct a as [|a0 a]; [contradiction|].
      cbn [app] in Hpat. injection Hpat as _ ->.
      apply Hu. apply elem_of_app. right. left.
Qed.

Lemma stripPrefix_blocked pat a t :
  headUnique pat -> a <> [] -> includes pat a = false ->
  stripPrefix pat (a ++ pat ++ t) = None.
Proof.
  intros Hu Ha Hinc. destruct (stripPrefix pat (a ++ pat ++ t)) as [r|] eqn:E; [|reflexivity].
  apply stripPrefix_Some in E. apply overlap_inside in E; [|assumption..].
  destruct a as [|c a]; [contradiction|].
  apply includes_cons_false in Hinc as [Hs _]. congruence.
Qed.

Lemma lazyUntil_eq dotAll close s :
  lazyUntil dotAll close s =
  match stripPrefix close s with
  | Some rest => Some ([], rest)
  | None =>
      match s with
      | [] => None
      | c :: s' =>
          if dotAll || negb (isLineTerminator c) then
            match lazyUntil dotAll close s' with
            | Some (cap, rest) => Some (c :: cap, rest)
            | None => None
            end
          else None
      end
  end.
Proof. destruct s; reflexivity. Qed.

Lemma lazyUntil_found dotAll close cap t :
  headUnique close -> includes close cap = false ->
  Forall (fun c => dotAll || negb (isLineTerminator c) = true) cap ->
  lazyUntil dotAll close (cap ++ close ++ t) = Some (cap, t).
Proof.
  intros Hu Hinc Hdot. induction Hdot as [|c cap Hc Hcap IH].
  - rewrite lazyUntil_eq. cbn [app]. rewrite stripPrefix_app. reflexivity.
  - rewrite lazyUntil_eq. rewrite stripPrefix_blocked by (assumption || discriminate).
    cbn [app]. rewrite Hc.
    apply includes_cons_false in Hinc as [_ Hinc]. rewrite IH by exact Hinc. reflexivity.
Qed.

Lemma afterGt_app attrs x : 62 ∉ attrs -> afterGt (attrs ++ 62 :: x) = Some x.
Proof.
  induction attrs as [|c attrs IH]; intros Hin; cbn [app afterGt].
  - reflexivity.
  - apply not_elem_of_cons in Hin as [Hne Hin].
    destruct (Z.eqb_spec c 62); [congruence | apply IH; exact Hin].
Qed.

Section Tag.

Variable re : tagRegex.
Hypothesis open_unique : headUnique (re_open re).
Hypothesis close_unique : headUnique (re_close re).

Lemma matchAt_element attrs content t :
  62 ∉ attrs -> includes (re_close re) content = false ->
  Forall (fun c => dotMatches re c = true) content ->
  matchAt re (element re attrs content ++ t) = Some (content, t).
Proof.
  intros Hattrs Hinc Hdot. unfold matchAt, element.
  rewrite <- !app_assoc, stripPrefix_app. cbn [app].
  rewrite afterGt_app by exact Hattrs.
  apply lazyUntil_found; assumption.
Qed.

Lemma matchAt_lead lead rest :
  lead <> [] -> includes (re_open re) lead = false ->
  matchAt re (lead ++ re_open re ++ rest) = None.
Proof.
  intros Hne Hinc. unfold matchAt.
  rewrite stripPrefix_blocked by assumption. reflexivity.
Qed.

Lemma matchAt_absent s :
  startsWith (re_open re) s = false -> matchAt re s = None.
Proof. intros H. unfold matchAt. rewrite stripPrefix_None by exact H. reflexivity. Qed.

Lemma execAll_eq skip s :
  execAll re skip s =
  match s with
  | [] => []
  | _ :: s' =>
      match skip with
      | S k => execAll re k s'
      | O =>
          match matchAt re s with
          | Some (cap, rest) => cap :: execAll re (length s - length rest - 1) s'
          | None => execAll re 0 s'
          end
      end
  end.
Proof. destruct s; reflexivity. Qed.

Lemma execAll_skip a t : execAll re (length a) (a ++ t) = execAll re 0 t.
Proof. induction a as [|c a IH]; [reflexivity | exact IH]. Qed.

Lemma execAll_lead lead rest :
  includes (re_open re) lead = false ->
  execAll re 0 (lead ++ re_open re ++ rest) = execAll re 0 (re_open re ++ rest).
Proof.
  induction lead as [|c lead IH]; intros Hinc; [reflexivity|].
  rewrite execAll_eq. cbn [app].
  change (c :: lead ++ re_open re ++ rest) with ((c :: lead) ++ re_open re ++ rest).
  rewrite matchAt_lead by (discriminate || assumption).
  apply IH. apply includes_cons_false in Hinc as [_ ?]. assumption.
Qed.

Lemma execAll_absent s :
  includes (re_open re) s = false -> execAll re 0 s = [].
Proof.
  induction s as [|c s IH]; intros Hinc; [reflexivity|].
  apply includes_cons_false in Hinc as [Hs Hinc].
  rewrite execAll_eq, matchAt_absent by exact Hs. apply IH. exact Hinc.
Qed.

Lemma execAll_element attrs content t :
  62 ∉ attrs -> includes (re_close re) content = false ->
  Forall (fun c => dotMatches re c = true) content ->
  execAll re 0 (element re attrs content ++ t) = content :: execAll re 0 t.
Proof.
  intros Hattrs Hinc Hdot.
  pose proof (matchAt_element attrs content t Hattrs Hinc Hdot) as Hm.
  destruct (element re attrs content) as [|c0 tl] eqn:He.
  { unfold element in He. destruct (re_open re); [destruct open_unique | discriminate]. }
  rewrite execAll_eq. cbn [app] in *. rewrite Hm. f_equal.
  replace (length (c0 :: tl ++ t) - length t - 1)%nat with (length tl)
    by (cbn [length]; rewrite length_app; lia).
  apply execAll_skip.
Qed.

Lemma matchFirst_eq s :
  matchFirst re s =
  match matchAt re s with
  | Some (cap, _) => Some cap
  | None =>
      match s with
      | [] => None
      | _ :: s' => matchFirst re s'
      end
  end.
Proof. destruct s; reflexivity. Qed.

Lemma matchFirst_lead lead rest :
  includes (re_open re) lead = false ->
  matchFirst re (lead ++ re_open re ++ rest) = matchFirst re (re_open re ++ rest).
Proof.
  induction lead as [|c lead IH]; intros Hinc; [reflexivity|].
  rewrite matchFirst_eq. cbn [app].
  change (c :: lead ++ re_open re ++ rest) with ((c :: lead) ++ re_open re ++ rest).
  rewrite matchAt_lead by (discriminate || assumption).
  apply IH. apply includes_cons_false in Hinc as [_ ?]. assumption.
Qed.

(** The first element behind text without an opening tag is the match. *)
Lemma matchFirst_element lead attrs content t :
  includes (re_open re) lead = false ->
  62 ∉ attrs -> includes (re_close re) content = false ->
  Forall (fun c => dotMatches re c = true) content ->
  matchFirst re (lead ++ element re attrs content ++ t) = Some content.
Proof.
  intros Hlead Hattrs Hinc Hdot.
  pose proof (matchAt_element attrs content t Hattrs Hinc Hdot) as Hm.
  unfold element in *. rewrite <- !app_assoc in *.
  rewrite matchFirst_lead by exact Hlead.
  rewrite matchFirst_eq, Hm. reflexivity.
Qed.

Lemma matchFirst_absent s :
  includes (re_open re) s = false -> matchFirst re s = None.
Proof.
  induction s as [|c s IH]; intros Hinc.
  - rewrite matchFirst_eq, matchAt_absent by reflexivity || (destruct (re_open re); [destruct open_unique | reflexivity]). reflexivity.
  - apply includes_cons_false in Hinc as [Hs Hinc].
    rewrite matchFirst_eq, matchAt_absent by exact Hs. apply IH. exact Hinc.
Qed.

End Tag.

Lemma tag_unique name dotAll :
  60 ∉ js name -> 60 <> 47 -> headUnique (re_open (tag name dotAll)) /\
  headUnique (re_close (tag name dotAll)).
Proof.
  intros Hname _. unfold tag, headUnique. cbn [re_open re_close].
  change (js "<") with [60]. change (js "</") with [60; 47]. change (js ">") with [62].
  cbn [app]. split; [exact Hname|].
  intros Hin. apply elem_of_cons in Hin as [?|Hin]; [lia|].
  apply elem_of_app in Hin as [Hin|Hin]; [contradiction|].
  apply list_elem_of_singleton in Hin. lia.
Qed.

Lemma not_in_js c s : forallb (fun x => negb (x =? c)) (js s) = true -> c ∉ js s.
Proof.
  intros H Hin. rewrite forallb_forall in H. apply list_elem_of_In, H in Hin.
  rewrite Z.eqb_refl in Hin. discriminate.
Qed.

Lemma responseRegex_unique :
  headUnique (re_open responseRegex) /\ headUnique (re_close responseRegex).
Proof. apply tag_unique; [apply not_in_js; reflexivity | lia]. Qed.

Lemma hrefRegex_unique :
  headUnique (re_open hrefRegex) /\ headUnique (re_close hrefRegex).
Proof. apply tag_unique; [apply not_in_js; reflexivity | lia]. Qed.

(** The chunks of a document of response elements are the bodies of
    the elements, in order. *)
Lemma responseChunks_document blocks trailer :
  Forall blockOk blocks -> includes (re_open responseRegex) trailer = false ->
  responseChunks (document blocks trailer) = map b_body blocks.
Proof.
  intros Hblocks Htrailer. unfold responseChunks, document.
  destruct responseRegex_unique as [Ho Hc].
  induction Hblocks as [|b blocks (Hlead & Hattrs & Hbody) _ IH]; cbn [map concat app].
  - apply execAll_absent. exact Htrailer.
  - rewrite <- !app_assoc.
    unfold element at 1. rewrite <- !app_assoc.
    rewrite execAll_lead by assumption.
    pose proof (execAll_element responseRegex Ho Hc (b_attrs b) (b_body b)
                  (concat (map (fun b0 => b_lead b0 ++
                     element responseRegex (b_attrs b0) (b_body b0)) blocks) ++ trailer)
                  Hattrs Hbody) as Hel.
    unfold element at 1 in Hel. rewrite <- !app_assoc in Hel.
    rewrite Hel; [f_equal; exact IH|].
    apply Forall_forall. intros; reflexivity.
Qed.

(** ** The extractor loop *)

Lemma whileExec_collect {R} re (body : jsstring -> result (option R)) skip s :
  whileExec re body skip s = collect body (execAll re skip s).
Proof.
  revert skip. induction s as [|c s IH]; intros skip; [reflexivity|].
  cbn [whileExec execAll]. destruct skip as [|k]; [|apply IH].
  destruct (matchAt re (c :: s)) as [[cap rest]|]; [|apply IH].
  cbn [collect]. rewrite IH. reflexivity.
Qed.

Lemma collect_Ok {R} (body : jsstring -> result (option R)) chunks :
  Forall (fun c => exists p, body c = Ok p) chunks ->
  exists pushes, Forall2 (fun c p => body c = Ok p) chunks pushes /\
                 collect body chunks = Ok (omap id pushes).
Proof.
  induction 1 as [|c chunks [p Hp] _ (pushes & Hall & Hcol)]; cbn [collect].
  - exists []. split; [constructor | reflexivity].
  - exists (p :: pushes). split; [constructor; assumption|].
    rewrite Hp, Hcol. cbn [bind omap]. destruct p; reflexivity.
Qed.

Lemma collect_Err {R} (body : jsstring -> result (option R)) chunks c e :
  c ∈ chunks -> body c = Err e -> exists e', collect body chunks = Err e'.
Proof.
  intros Hin Hc. induction chunks as [|c' chunks IH]; [inversion Hin|].
  cbn [collect]. apply elem_of_cons in Hin as [<-|Hin].
  - rewrite Hc. eauto.
  - destruct (body c') as [p|e1]; [|eauto]. cbn [bind].
    destruct (IH Hin) as [e' ->]. eauto.
Qed.

(** ** The extractors *)

Lemma collect_members {R} (body : jsstring -> result (option R)) chunks recs :
  collect body chunks = Ok recs ->
  Forall (fun r => exists c, c ∈ chunks /\ body c = Ok (Some r)) recs.
Proof.
  revert recs. induction chunks as [|c chunks IH]; intros recs; cbn [collect].
  - intros [= <-]. constructor.
  - intros (p & Hp & (more & Hmore & [= <-])%bind_Ok)%bind_Ok.
    specialize (IH _ Hmore).
    assert (Hrest : Forall (fun r => exists c0, c0 ∈ c :: chunks /\ body c0 = Ok (Some r)) more).
    { eapply Forall_impl; [exact IH|]. intros r (c0 & Hin & Hb). exists c0.
      split; [right; exact Hin | exact Hb]. }
    destruct p as [r|]; [|exact Hrest].
    constructor; [|exact Hrest]. exists c. split; [left | exact Hp].
Qed.

Lemma collect_filter {R} (body : jsstring -> result (option R))
    (P : jsstring -> Prop) `{!forall c, Decision (P c)} chunks recs :
  (forall c, ~ P c -> body c = Ok None) ->
  (forall c, P c -> body c <> Ok None) ->
  collect body chunks = Ok recs ->
  Forall2 (fun c r => body c = Ok (Some r)) (filter P chunks) recs.
Proof.
  intros Hno Hyes. revert recs. induction chunks as [|c chunks IH]; intros recs; cbn [collect].
  - intros [= <-]. constructor.
  - intros (p & Hp & (more & Hmore & [= <-])%bind_Ok)%bind_Ok.
    specialize (IH _ Hmore). destruct (decide (P c)) as [HP|HP].
    + rewrite filter_cons_True by exact HP.
      destruct p as [r|]; [constructor; assumption | destruct (Hyes c HP Hp)].
    + rewrite filter_cons_False by exact HP.
      rewrite (Hno c HP) in Hp. injection Hp as <-. exact IH.
Qed.

(** What each loop body does with a chunk, by the href it finds. *)
Lemma calendarOfResponse_spec chunk :
  match matchFirst hrefRegex chunk with
  | None => calendarOfResponse chunk = Ok None
  | Some h =>
      match decodeURIComponent h with
      | Err e => calendarOfResponse chunk = Err e
      | Ok d =>
          calendarOfResponse chunk = Ok (Some (JObj
            [("href", JStr d);
             ("displayName", orNull (matchFirst (tag "D:displayname" false) chunk));
             ("description", orNull (matchFirst (tag "C:calendar-description" false) chunk))]))
      end
  end.
Proof.
  unfold calendarOfResponse. destruct (matchFirst hrefRegex chunk) as [h|]; [|reflexivity].
  destruct (decodeURIComponent h); reflexivity.
Qed.

Lemma resourceOfResponse_spec chunk :
  match matchFirst hrefRegex chunk with
  | None => resourceOfResponse chunk = Ok None
  | Some h =>
      match decodeURIComponent h with
      | Err e => resourceOfResponse chunk = Err e
      | Ok d => exists r, resourceOfResponse chunk = Ok (Some r) /\ hrefOf r = Some d
      end
  end.
Proof.
  unfold resourceOfResponse. destruct (matchFirst hrefRegex chunk) as [h|]; [|reflexivity].
  destruct (decodeURIComponent h); [|reflexivity]. eexists. split; reflexivity.
Qed.

Lemma eventOfResponse_spec chunk :
  match matchFirst hrefRegex chunk, matchFirst (tag "C:calendar-data" true) chunk with
  | Some h, Some data =>
      match decodeURIComponent h with
      | Err e => eventOfResponse chunk = Err e
      | Ok d =>
          eventOfResponse chunk = Ok (Some (JObj
            [("href", JStr d);
             ("etag", orNull (matchFirst (tag "D:getetag" false) chunk));
             ("calendarData", JStr data)]))
      end
  | _, _ => eventOfResponse chunk = Ok None
  end.
Proof.
  unfold eventOfResponse. destruct (matchFirst hrefRegex chunk) as [h|]; [|reflexivity].
  destruct (matchFirst (tag "C:calendar-data" true) chunk); [|reflexivity].
  destruct (decodeURIComponent h); reflexivity.
Qed.

Lemma bodies_return {R} (body : jsstring -> result (option R)) xmlData :
  hrefsDecode xmlData ->
  (forall chunk,
     match matchFirst hrefRegex chunk with
     | None => body chunk = Ok None
     | Some h => forall d, decodeURIComponent h = Ok d -> exists p, body chunk = Ok p
     end) ->
  Forall (fun c => exists p, body c = Ok p) (responseChunks xmlData).
Proof.
  intros Hdec Hbody. apply Forall_forall. intros chunk Hin.
  specialize (Hbody chunk). specialize (Hdec chunk).
  destruct (matchFirst hrefRegex chunk) as [h|]; [|eauto].
  destruct (Hdec h Hin eq_refl) as [d Hd]. eauto.
Qed.

(** The extractors return a list for every input whose hrefs, as far as
    the href pattern finds them in the chunks, are valid
    percent-encodings; an href that is not makes the calendar and the
    property extractor throw.  Every record holds the decoded href, and
    null for a display name, a description or an etag that the chunk does
    not have. *)
Theorem extractor_returns xmlData :
  (hrefsDecode xmlData ->
   (exists recs, parseCalendarsResponse xmlData = Ok recs /\
      Forall (fun r => exists chunk h d,
        chunk ∈ responseChunks xmlData /\
        matchFirst hrefRegex chunk = Some h /\ decodeURIComponent h = Ok d /\
        r = JObj
          [("href", JStr d);
           ("displayName",
            match matchFirst (tag "D:displayname" false) chunk with
            | Some s => JStr s
            | None => JNull
            end);
           ("description",
            match matchFirst (tag "C:calendar-description" false) chunk with
            | Some s => JStr s
            | None => JNull
            end)]) recs) /\
   (exists recs, parseEventsResponse xmlData = Ok recs /\
      Forall (fun r => exists chunk h d data,
        chunk ∈ responseChunks xmlData /\
        matchFirst hrefRegex chunk = Some h /\ decodeURIComponent h = Ok d /\
        matchFirst (tag "C:calendar-data" true) chunk = Some data /\
        r = JObj
          [("href", JStr d);
           ("etag",
            match matchFirst (tag "D:getetag" false) chunk with
            | Some s => JStr s
            | None => JNull
            end);
           ("calendarData", JStr data)]) recs) /\
   (exists recs, parsePropfindResponse xmlData = Ok recs /\
      Forall (fun r => exists chunk h d,
        chunk ∈ responseChunks xmlData /\
        matchFirst hrefRegex chunk = Some h /\ decodeURIComponent h = Ok d /\
        hrefOf r = Some d) recs)) /\
  (forall chunk h e,
     chunk ∈ responseChunks xmlData ->
     matchFirst hrefRegex chunk = Some h -> decodeURIComponent h = Err e ->
     (exists e', parseCalendarsResponse xmlData = Err e') /\
     (exists e', parsePropfindResponse xmlData = Err e')).
Proof.
  unfold parseCalendarsResponse, parseEventsResponse, parsePropfindResponse.
  rewrite !whileExec_collect. fold (responseChunks xmlData).
  split.
  - intros Hdec. split; [|split].
    + destruct (collect_Ok calendarOfResponse (responseChunks xmlData)) as (pushes & _ & Hcol).
      { apply bodies_return; [exact Hdec|]. intros chunk.
        pose proof (calendarOfResponse_spec chunk) as Hs.
        destruct (matchFirst hrefRegex chunk) as [h|]; [|exact Hs].
        intros d Hd. rewrite Hd in Hs. eauto. }
      eexists. split; [exact Hcol|].
      eapply Forall_impl; [exact (collect_members _ _ _ Hcol)|].
      intros r (chunk & Hin & Hb). pose proof (calendarOfResponse_spec chunk) as Hs.
      destruct (matchFirst hrefRegex chunk) as [h|] eqn:Hh; [|congruence].
      destruct (decodeURIComponent h) as [d|e] eqn:Hd; [|congruence].
      rewrite Hs in Hb. injection Hb as <-. exists chunk, h, d. auto.
    + destruct (collect_Ok eventOfResponse (responseChunks xmlData)) as (pushes & _ & Hcol).
      { apply bodies_return; [exact Hdec|]. intros chunk.
        pose proof (eventOfResponse_spec chunk) as Hs.
        destruct (matchFirst hrefRegex chunk) as [h|]; [|exact Hs].
        intros d Hd. rewrite Hd in Hs.
        destruct (matchFirst (tag "C:calendar-data" true) chunk); eauto. }
      eexists. split; [exact Hcol|].
      eapply Forall_impl; [exact (collect_members _ _ _ Hcol)|].
      intros r (chunk & Hin & Hb). pose proof (eventOfResponse_spec chunk) as Hs.
      destruct (matchFirst hrefRegex chunk) as [h|] eqn:Hh; [|congruence].
      destruct (matchFirst (tag "C:calendar-data" true) chunk) as [data|] eqn:Hdata;
        [|congruence].
      destruct (decodeURIComponent h) as [d|e] eqn:Hd; [|congruence].
      rewrite Hs in Hb. injection Hb as <-. exists chunk, h, d, data. auto.
    + destruct (collect_Ok resourceOfResponse (responseChunks xmlData)) as (pushes & _ & Hcol).
      { apply bodies_return; [exact Hdec|]. intros chunk.
        pose proof (resourceOfResponse_spec chunk) as Hs.
        destruct (matchFirst hrefRegex chunk) as [h|]; [|exact Hs].
        intros d Hd. rewrite Hd in Hs. destruct Hs as (r & Hr & _). eauto. }
      eexists. split; [exact Hcol|].
      eapply Forall_impl; [exact (collect_members _ _ _ Hcol)|].
      intros r (chunk & Hin & Hb). pose proof (resourceOfResponse_spec chunk) as Hs.
      destruct (matchFirst hrefRegex chunk) as [h|] eqn:Hh; [|congruence].
      destruct (decodeURIComponent h) as [d|e] eqn:Hd; [|congruence].
      destruct Hs as (r' & Hr' & Hhref). rewrite Hr' in Hb. injection Hb as <-.
      exists chunk, h, d. auto.
  - intros chunk h e Hin Hh Hd. split.
    + eapply collect_Err; [exact Hin|].
      pose proof (calendarOfResponse_spec chunk) as Hs. rewrite Hh, Hd in Hs. exact Hs.
    + eapply collect_Err; [exact Hin|].
      pose proof (resourceOfResponse_spec chunk) as Hs. rewrite Hh, Hd in Hs. exact Hs.
Qed.

Lemma threeResponses_decode : hrefsDecode threeResponses.
Proof.
  intros chunk h Hin Hh.
  assert (Hc : responseChunks threeResponses =
               [js "<D:href>/cal/a%20b/</D:href><D:displayname>A</D:displayname>";
                js "<D:displayname>B</D:displayname>";
                js "<D:href>/cal/c/</D:href>"]) by (vm_compute; reflexivity).
  rewrite Hc in Hin.
  repeat (apply elem_of_cons in Hin as [->|Hin]);
    try (vm_compute in Hh; injection Hh as <-; eexists; vm_compute; reflexivity).
  - vm_compute in Hh. discriminate.
  - inversion Hin.
Qed.

Lemma extractor_returns_witness :
  exists recs, parseCalendarsResponse threeResponses = Ok recs /\
    Forall (fun r => exists chunk h d,
      chunk ∈ responseChunks threeResponses /\
      matchFirst hrefRegex chunk = Some h /\ decodeURIComponent h = Ok d /\
      r = JObj
        [("href", JStr d);
         ("displayName",
          match matchFirst (tag "D:displayname" false) chunk with
          | Some s => JStr s
          | None => JNull
          end);
         ("description",
          match matchFirst (tag "C:calendar-description" false) chunk with
          | Some s => JStr s
          | None => JNull
          end)]) recs.
Proof.
  exact (proj1 (proj1 (extractor_returns threeResponses) threeResponses_decode)).
Defined.

(** ** Count and order of the records *)

Lemma hrefElementIn_match body d :
  hrefElementIn body d ->
  exists h, matchFirst hrefRegex body = Some h /\ decodeURIComponent h = Ok d.
Proof.
  intros (lead & attrs & h & rest & -> & Hlead & Hattrs & Hclose & Hline & Hd).
  exists h. split; [|exact Hd].
  destruct hrefRegex_unique as [Ho Hc].
  apply matchFirst_element; try assumption.
  eapply Forall_impl; [exact Hline|]. intros c Hc'. unfold dotMatches. rewrite Hc'.
  apply orb_true_r.
Qed.

Lemma collect_all {R} (body : jsstring -> result (option R)) chunks recs :
  Forall2 (fun c r => body c = Ok (Some r)) chunks recs ->
  collect body chunks = Ok recs.
Proof.
  induction 1 as [|c r chunks recs Hc _ IH]; cbn [collect]; [reflexivity|].
  rewrite Hc, IH. reflexivity.
Qed.

(** C5, amended.  A document of N response elements, each holding an
    href element on one line whose text is a valid percent-encoding,
    yields exactly N records, the decoded hrefs in document order.  For
    any input whose hrefs decode, the records are, in order and without
    any merging, those of the chunks in which the href pattern matches; a
    chunk without such a match gives none, and the extractor of events
    also passes over a chunk without calendar data. *)
Theorem extractor_order :
  (forall blocks trailer hrefs,
     Forall blockOk blocks ->
     includes (re_open responseRegex) trailer = false ->
     Forall2 (fun b d => hrefElementIn (b_body b) d) blocks hrefs ->
     exists recs,
       parsePropfindResponse (document blocks trailer) = Ok recs /\
       map hrefOf recs = map Some hrefs /\
       length recs = length blocks) /\
  (forall xmlData,
     hrefsDecode xmlData ->
     (exists recs,
        parsePropfindResponse xmlData = Ok recs /\
        Forall2 (fun chunk r => exists h d,
                   matchFirst hrefRegex chunk = Some h /\
                   decodeURIComponent h = Ok d /\ hrefOf r = Some d)
                (withHref (responseChunks xmlData)) recs) /\
     (exists recs,
        parseEventsResponse xmlData = Ok recs /\
        Forall2 (fun chunk r => exists h d,
                   matchFirst hrefRegex chunk = Some h /\
                   decodeURIComponent h = Ok d /\ hrefOf r = Some d)
                (withHrefAndData (responseChunks xmlData)) recs)) /\
  (forall chunk,
     includes (re_open hrefRegex) chunk = false ->
     resourceOfResponse chunk = Ok None /\ eventOfResponse chunk = Ok None).
Proof.
  unfold parseEventsResponse, parsePropfindResponse.
  split; [|split].
  3:{ intros chunk Hno. destruct hrefRegex_unique as [Ho _].
      pose proof (matchFirst_absent hrefRegex Ho chunk Hno) as Hm.
      pose proof (resourceOfResponse_spec chunk) as Hr.
      pose proof (eventOfResponse_spec chunk) as He.
      rewrite Hm in Hr, He. auto. }
  - intros blocks trailer hrefs Hblocks Htrailer Hhrefs.
    rewrite whileExec_collect. fold (responseChunks (document blocks trailer)).
    rewrite responseChunks_document by assumption.
    clear Hblocks Htrailer.
    assert (Hrecs : exists recs,
              Forall2 (fun c r => resourceOfResponse c = Ok (Some r)) (map b_body blocks) recs /\
              map hrefOf recs = map Some hrefs /\ length recs = length blocks).
    { induction Hhrefs as [|b d blocks hrefs Hb _ (recs & Hall & Hmap & Hlen)].
      - exists []. repeat split; constructor.
      - apply hrefElementIn_match in Hb as (h & Hh & Hd).
        pose proof (resourceOfResponse_spec (b_body b)) as Hs. rewrite Hh, Hd in Hs.
        destruct Hs as (r & Hr & Hhref).
        exists (r :: recs). cbn [map length]. repeat split.
        + constructor; assumption.
        + rewrite Hhref, Hmap. reflexivity.
        + rewrite Hlen. reflexivity. }
    destruct Hrecs as (recs & Hall & Hmap & Hlen).
    exists recs. split; [apply collect_all; exact Hall | split; assumption].
  - intros xmlData Hdec. rewrite !whileExec_collect. fold (responseChunks xmlData).
    split.
    + destruct (collect_Ok resourceOfResponse (responseChunks xmlData)) as (pushes & _ & Hcol).
      { apply bodies_return; [exact Hdec|]. intros chunk.
        pose proof (resourceOfResponse_spec chunk) as Hs.
        destruct (matchFirst hrefRegex chunk) as [h|]; [|exact Hs].
        intros d Hd. rewrite Hd in Hs. destruct Hs as (r & Hr & _). eauto. }
      eexists. split; [exact Hcol|].
      eapply Forall2_impl.
      * unfold withHref. apply (collect_filter resourceOfResponse); [| |exact Hcol].
        -- intros c Hno. pose proof (resourceOfResponse_spec c) as Hs.
           destruct (matchFirst hrefRegex c); [destruct Hno; eauto | exact Hs].
        -- intros c [h Hh] Hnone. pose proof (resourceOfResponse_spec c) as Hs.
           rewrite Hh in Hs. destruct (decodeURIComponent h); [|congruence].
           destruct Hs as (r & Hr & _). congruence.
      * intros chunk r Hb. cbn beta in Hb. pose proof (resourceOfResponse_spec chunk) as Hs.
        destruct (matchFirst hrefRegex chunk) as [h|] eqn:Hh; [|congruence].
        destruct (decodeURIComponent h) as [d|e] eqn:Hd; [|congruence].
        destruct Hs as (r' & Hr' & Hhref). rewrite Hr' in Hb. injection Hb as <-.
        exists h, d. auto.
    + destruct (collect_Ok eventOfResponse (responseChunks xmlData)) as (pushes & _ & Hcol).
      { apply bodies_return; [exact Hdec|]. intros chunk.
        pose proof (eventOfResponse_spec chunk) as Hs.
        destruct (matchFirst hrefRegex chunk) as [h|]; [|exact Hs].
        intros d Hd. rewrite Hd in Hs.
        destruct (matchFirst (tag "C:calendar-data" true) chunk); eauto. }
      eexists. split; [exact Hcol|].
      eapply Forall2_impl.
      * unfold withHrefAndData. apply (collect_filter eventOfResponse); [| |exact Hcol].
        -- intros c Hno. pose proof (eventOfResponse_spec c) as Hs.
           destruct (matchFirst hrefRegex c); [|exact Hs].
           destruct (matchFirst (tag "C:calendar-data" true) c); [|exact Hs].
           destruct Hno. split; eauto.
        -- intros c [[h Hh] [data Hdata]] Hnone. pose proof (eventOfResponse_spec c) as Hs.
           rewrite Hh, Hdata in Hs. destruct (decodeURIComponent h); congruence.
      * intros chunk r Hb. cbn beta in Hb. pose proof (eventOfResponse_spec chunk) as Hs.
        destruct (matchFirst hrefRegex chunk) as [h|] eqn:Hh; [|congruence].
        destruct (matchFirst (tag "C:calendar-data" true) chunk) as [data|]; [|congruence].
        destruct (decodeURIComponent h) as [d|e] eqn:Hd; [|congruence].
        rewrite Hs in Hb. injection Hb as <-. exists h, d. auto.
Qed.

Lemma extractor_order_witness :
  exists recs,
    parsePropfindResponse (document twoBlocks (js "</D:multistatus>")) = Ok recs /\
    map hrefOf recs = map Some [js "/files/a b.txt"; js "/files/c.txt"] /\
    length recs = length twoBlocks.
Proof.
  apply (proj1 extractor_order twoBlocks (js "</D:multistatus>")
           [js "/files/a b.txt"; js "/files/c.txt"]).
  - repeat constructor; try reflexivity.
    + intros H. inversion H.
    + apply not_in_js. reflexivity.
  - reflexivity.
  - repeat constructor.
    + exists [], [], (js "/files/a%20b.txt"), (js "<D:propstat/>").
      repeat split; try reflexivity.
      * intros H. inversion H.
      * apply Forall_forall. intros c Hc. apply list_elem_of_In in Hc.
        vm_compute in Hc. repeat (destruct Hc as [<-|Hc]; [reflexivity|]). destruct Hc.
    + exists [], [], (js "/files/c.txt"), [].
      repeat split; try reflexivity.
      * intros H. inversion H.
      * apply Forall_forall. intros c Hc. apply list_elem_of_In in Hc.
        vm_compute in Hc. repeat (destruct Hc as [<-|Hc]; [reflexivity|]). destruct Hc.
Defined.

(** C5 as stated fails at the extractor of events: one response, it has an
    href, and no record comes out, the response having no calendar data. *)
Lemma extractor_count_counterexample :
  responseChunks hrefOnly =
    [js "<D:href>/cal/e1.ics</D:href><D:getetag>1</D:getetag>"] /\
  matchFirst hrefRegex (js "<D:href>/cal/e1.ics</D:href><D:getetag>1</D:getetag>")
    = Some (js "/cal/e1.ics") /\
  parseEventsResponse hrefOnly = Ok [] /\
  ~ (exists recs, parseEventsResponse hrefOnly = Ok recs /\
                  length recs = length (responseChunks hrefOnly)).
Proof.
  assert (H : parseEventsResponse hrefOnly = Ok []) by (vm_compute; reflexivity).
  repeat split; try (vm_compute; reflexivity).
  intros (recs & Hrecs & Hlen). rewrite H in Hrecs. injection Hrecs as <-.
  vm_compute in Hlen. discriminate.
Qed.

(** ** More on normalizePath *)

Lemma mapM_Forall2 {A B} (f : A -> result B) l bs :
  mapM f l = Ok bs -> Forall2 (fun a b => f a = Ok b) l bs.
Proof.
  revert bs. induction l as [|a l IH]; intros bs; cbn [mapM].
  - intros [= <-]. constructor.
  - intros (b & Hb & (bs' & Hbs' & [= <-])%bind_Ok)%bind_Ok.
    constructor; [assumption | apply IH; assumption].
Qed.

Lemma join_split sep s : join sep (split sep s) = s.
Proof.
  induction s as [|c rest IH]; [reflexivity|].
  cbn [split]. destruct (Z.eqb_spec c sep) as [->|Hne].
  - destruct (split sep rest) as [|seg segs] eqn:Hs; [exact (False_rect _ (split_nonempty _ _ Hs))|].
    cbn [join app]. rewrite <- IH. reflexivity.
  - destruct (split sep rest) as [|seg segs] eqn:Hs; [exact (False_rect _ (split_nonempty _ _ Hs))|].
    rewrite <- IH. destruct segs; reflexivity.
Qed.

Lemma join_Forall (P : Z -> Prop) sep segs :
  P sep -> Forall (Forall P) segs -> Forall P (join sep segs).
Proof.
  intros Hsep. induction 1 as [|seg rest Hseg Hrest IH]; [constructor|].
  destruct rest as [|seg' rest']; [exact Hseg|].
  change (join sep (seg :: seg' :: rest')) with (seg ++ sep :: join sep (seg' :: rest')).
  apply Forall_app. split; [assumption | constructor; assumption].
Qed.

Lemma split_Forall (P : Z -> Prop) sep s :
  Forall P s -> Forall (Forall P) (split sep s).
Proof.
  induction 1 as [|c rest Hc Hrest IH]; [repeat constructor|].
  cbn [split]. destruct (c =? sep); [constructor; [constructor | assumption]|].
  destruct (split sep rest) as [|seg segs]; [repeat constructor; assumption|].
  apply Forall_cons in IH as [Hseg Hsegs].
  constructor; [constructor; assumption | assumption].
Qed.

Lemma split_segments_no_sep sep s : Forall (fun seg => sep ∉ seg) (split sep s).
Proof.
  induction s as [|c rest IH]; [repeat constructor; apply not_elem_of_nil|].
  cbn [split]. destruct (Z.eqb_spec c sep) as [->|Hne].
  - constructor; [apply not_elem_of_nil | assumption].
  - destruct (split sep rest) as [|seg segs].
    + repeat constructor. intros [->|H]%elem_of_cons; [congruence | inversion H].
    + apply Forall_cons in IH as [Hseg Hsegs]. constructor; [|assumption].
      intros [->|H]%elem_of_cons; [congruence | contradiction].
Qed.

Lemma withoutLeadingSlash_wf p : wfString p -> wfString (withoutLeadingSlash p).
Proof.
  intros Hwf. unfold withoutLeadingSlash. destruct (startsWith (js "/") p); [|assumption].
  destruct p; [constructor | apply Forall_cons in Hwf as [_ ?]; assumption].
Qed.

(** The shared part of normalizePath, spelled out. *)
Lemma normalizeWith_segments onAbsolute p q :
  isAbsoluteUrl p = false -> normalizeWith onAbsolute p = Ok q ->
  exists es, q = 47 :: join 47 es /\
    Forall2 (fun seg e => encodeSegment seg = Ok e) (split 47 (withoutLeadingSlash p)) es.
Proof.
  intros Habs. unfold normalizeWith. rewrite Habs.
  destruct (jsEqb p [] || jsEqb p (js "/")) eqn:Hp.
  - intros [= <-]. exists [[]]. split; [reflexivity|].
    apply orb_true_iff in Hp as [Hp|Hp]; apply bool_decide_eq_true in Hp; subst p;
      repeat constructor.
  - intros (es & Hes & [= <-])%bind_Ok. exists es. split; [reflexivity|].
    apply mapM_Forall2. exact Hes.
Qed.

Lemma WebDav_normalizePath_not_absolute p q :
  WebDav.normalizePath p = Ok q -> isAbsoluteUrl p = false.
Proof.
  unfold WebDav.normalizePath, normalizeWith.
  destruct (jsEqb p [] || jsEqb p (js "/")) eqn:Hp.
  - intros _. apply orb_true_iff in Hp as [Hp|Hp]; apply bool_decide_eq_true in Hp; subst p;
      reflexivity.
  - destruct (isAbsoluteUrl p); [discriminate | reflexivity].
Qed.

Lemma encodeSegments_safe segs es :
  Forall wfString segs ->
  Forall2 (fun seg e => encodeSegment seg = Ok e) segs es ->
  Forall (Forall (fun c => pathSafe c = true)) es.
Proof.
  intros Hsegs Hes. induction Hes as [|seg e segs es' He Hes IH]; [constructor|].
  apply Forall_cons in Hsegs as [Hseg Hsegs]. constructor; [|apply IH; assumption].
  destruct (encodeSegment_shape _ _ Hseg He) as (g & Hg & Henc).
  eapply Forall_impl; [eapply encode_safe; eassumption|].
  intros c Hc. unfold pathSafe. cbn beta in Hc. rewrite Hc. reflexivity.
Qed.

Lemma encodeSegments_no_slash segs es :
  Forall wfString segs ->
  Forall2 (fun seg e => encodeSegment seg = Ok e) segs es ->
  Forall (fun e => 47 ∉ e) es.
Proof.
  intros Hsegs Hes. induction Hes as [|seg e segs es' He Hes IH]; [constructor|].
  apply Forall_cons in Hsegs as [Hseg Hsegs]. constructor; [|apply IH; assumption].
  eapply encodeSegment_no_slash; eassumption.
Qed.

Lemma normalizeWith_safe onAbsolute p q :
  wfString p -> isAbsoluteUrl p = false -> normalizeWith onAbsolute p = Ok q ->
  (exists t, q = 47 :: t) /\ Forall (fun c => pathSafe c = true) q.
Proof.
  intros Hwf Habs Hq.
  destruct (normalizeWith_segments _ _ _ Habs Hq) as (es & -> & Hes).
  split; [eauto|]. constructor; [reflexivity|].
  apply join_Forall; [reflexivity|].
  eapply encodeSegments_safe; [|exact Hes].
  apply split_wf, withoutLeadingSlash_wf, Hwf.
Qed.

(** X1: whatever normalizePath returns for a path starts with a slash
    and holds nothing but unreserved characters, percent signs and
    slashes. *)
Theorem normalizePath_output_safe (p : jsstring) :
  wfString p ->
  (forall q, WebDav.normalizePath p = Ok q ->
     (exists t, q = 47 :: t) /\ Forall (fun c => pathSafe c = true) q) /\
  (forall q, isAbsoluteUrl p = false -> CalDav.normalizePath p = Ok q ->
     (exists t, q = 47 :: t) /\ Forall (fun c => pathSafe c = true) q).
Proof.
  intros Hwf. split.
  - intros q Hq. eapply normalizeWith_safe;
      [eassumption | eapply WebDav_normalizePath_not_absolute; eassumption | exact Hq].
  - intros q Habs Hq. eapply normalizeWith_safe; eassumption.
Qed.

Lemma normalizePath_output_safe_witness :
  (exists t, js "/My%20Folder/a%26b%3Fc.txt" = 47 :: t) /\
  Forall (fun c => pathSafe c = true) (js "/My%20Folder/a%26b%3Fc.txt").
Proof.
  apply (proj1 (normalizePath_output_safe (js "My Folder/a&b?c.txt")
                  ltac:(apply wfStringb_ok; vm_compute; reflexivity))).
  vm_compute. reflexivity.
Defined.

(** X2: the result of normalizePath has the segments of the path, one
    for one and in order, each put through the segment encoder: no
    segment is dropped, merged or split. *)
Theorem normalizePath_segmentwise (p q : jsstring) :
  wfString p -> isAbsoluteUrl p = false ->
  WebDav.normalizePath p = Ok q \/ CalDav.normalizePath p = Ok q ->
  exists t, q = 47 :: t /\
    Forall2 (fun seg e => encodeSegment seg = Ok e)
      (split 47 (withoutLeadingSlash p)) (split 47 t).
Proof.
  intros Hwf Habs Hq.
  assert (Hn : exists f, normalizeWith f p = Ok q) by (destruct Hq; eauto).
  destruct Hn as [f Hn].
  destruct (normalizeWith_segments _ _ _ Habs Hn) as (es & -> & Hes).
  exists (join 47 es). split; [reflexivity|].
  rewrite split_join; [exact Hes | |].
  - intros ->. apply Forall2_nil_inv_r in Hes. exact (split_nonempty _ _ Hes).
  - eapply encodeSegments_no_slash; [|exact Hes].
    apply split_wf, withoutLeadingSlash_wf, Hwf.
Qed.

Lemma normalizePath_segmentwise_witness :
  exists t, js "/a%20b//c%2Fd/" = 47 :: t /\
    Forall2 (fun seg e => encodeSegment seg = Ok e)
      (split 47 (withoutLeadingSlash (js "a b//c%2Fd/"))) (split 47 t).
Proof.
  apply (normalizePath_segmentwise (js "a b//c%2Fd/"));
    [apply wfStringb_ok; vm_compute; reflexivity | vm_compute; reflexivity
    | left; vm_compute; reflexivity].
Defined.

(** X3: a leading slash is optional: a path that is not an absolute URL
    and its variant with a slash in front are normalised alike, errors
    included. *)
Theorem normalizePath_leading_slash_optional (p : jsstring) :
  startsWith (js "/") p = false -> isAbsoluteUrl p = false ->
  WebDav.normalizePath (47 :: p) = WebDav.normalizePath p /\
  CalDav.normalizePath (47 :: p) = CalDav.normalizePath p.
Proof.
  intros Hs Habs.
  assert (H : forall f, normalizeWith f (47 :: p) = normalizeWith f p).
  { intros f. unfold normalizeWith. rewrite Habs, isAbsoluteUrl_slash, Hs.
    change (startsWith (js "/") (47 :: p)) with true. cbn [drop].
    destruct p as [|c p']; [reflexivity|].
    assert (c <> 47).
    { intros ->. cbn in Hs. discriminate. }
    change (js "/") with [47]. unfold jsEqb.
    rewrite !bool_decide_eq_false_2; [reflexivity | | | |];
      first [discriminate | intros [= ? ?]; contradiction]. }
  split; apply H.
Qed.

Lemma normalizePath_leading_slash_optional_witness :
  WebDav.normalizePath (47 :: js "Files/a b.txt") = WebDav.normalizePath (js "Files/a b.txt") /\
  CalDav.normalizePath (47 :: js "Files/a b.txt") = CalDav.normalizePath (js "Files/a b.txt").
Proof.
  apply (normalizePath_leading_slash_optional (js "Files/a b.txt")); vm_compute; reflexivity.
Defined.

(** ** Decoding what normalizePath returns *)

Lemma decode_encode_app g :
  wfString g -> forall e t, encodeURIComponent g = Ok e ->
  decodeFrom 0 (e ++ t) = (let* r := decodeFrom 0 t in Ok (g ++ r)).
Proof.
  induction g as [g IH] using (induction_ltof1 _ (@length Z)). unfold ltof in IH.
  intros Hwf e t He. destruct g as [|c rest]; cbn [encodeURIComponent] in He.
  - injection He as <-. cbn [app]. destruct (decodeFrom 0 t); reflexivity.
  - apply Forall_cons in Hwf as [Hc Hrest].
    destruct (uriUnescaped c) eqn:Hun.
    { apply bind_Ok in He as (r & Hr & [= <-]). cbn [app].
      rewrite decodeFrom_literal by (apply uriUnescaped_not_percent; assumption).
      rewrite (IH rest) with (e := r); [|cbn; lia|assumption|assumption].
      destruct (decodeFrom 0 t); reflexivity. }
    destruct (isLeadSurrogate c) eqn:Hlead.
    { destruct rest as [|d rest']; [discriminate|].
      destruct (isTrailSurrogate d) eqn:Htrail; [|discriminate].
      apply bind_Ok in He as (r & Hr & [= <-]).
      apply Forall_cons in Hrest as [Hd Hrest'].
      destruct (utf16Encode_pair c d Hlead Htrail) as [Hpair Hsc].
      rewrite <- app_assoc, decodeFrom_utf8 by assumption.
      rewrite (IH rest') with (e := r); [|cbn; lia|assumption|assumption].
      rewrite Hpair. destruct (decodeFrom 0 t); reflexivity. }
    destruct (isTrailSurrogate c) eqn:Htrail; [discriminate|].
    apply bind_Ok in He as (r & Hr & [= <-]).
    assert (isScalar c).
    { unfold isScalar, isLeadSurrogate, isTrailSurrogate in *.
      apply andb_false_iff in Hlead, Htrail. rewrite !Z.leb_gt in Hlead, Htrail. lia. }
    rewrite <- app_assoc, decodeFrom_utf8 by assumption.
    rewrite (IH rest) with (e := r); [|cbn; lia|assumption|assumption].
    rewrite utf16Encode_bmp by assumption. destruct (decodeFrom 0 t); reflexivity.
Qed.

Lemma decode_no_percent s : 37 ∉ s -> decodeURIComponent s = Ok s.
Proof.
  unfold decodeURIComponent. induction s as [|c rest IH]; [reflexivity|].
  intros Hno. rewrite decodeFrom_literal.
  - rewrite IH; [reflexivity|]. intros Hin. apply Hno. right. exact Hin.
  - intros ->. apply Hno. left.
Qed.

(** A segment without a percent sign is encoded as it stands. *)
Lemma encodeSegment_no_percent seg :
  37 ∉ seg -> encodeSegment seg = encodeURIComponent seg.
Proof.
  intros Hno. unfold encodeSegment. rewrite (decode_no_percent _ Hno). cbn [bind].
  destruct seg; [reflexivity|]. destruct (encodeURIComponent _); reflexivity.
Qed.

Lemma decode_join segs es :
  Forall wfString segs ->
  Forall2 (fun seg e => encodeURIComponent seg = Ok e) segs es ->
  decodeFrom 0 (join 47 es) = Ok (join 47 segs).
Proof.
  intros Hwf Hes. induction Hes as [|seg e segs es He Hes IH]; [reflexivity|].
  apply Forall_cons in Hwf as [Hseg Hsegs]. specialize (IH Hsegs).
  destruct Hes as [|seg' e' segs' es' He' Hes'].
  - exact (decode_encode _ Hseg _ He).
  - change (join 47 (e :: e' :: es')) with (e ++ 47 :: join 47 (e' :: es')).
    rewrite (decode_encode_app _ Hseg _ _ He), decodeFrom_literal by lia.
    rewrite IH. reflexivity.
Qed.

Lemma split_no_percent s :
  37 ∉ s -> Forall (fun seg => 37 ∉ seg) (split 47 s).
Proof.
  intros Hno.
  assert (H : Forall (fun c => c <> 37) s).
  { apply Forall_forall. intros c Hc ->. contradiction. }
  apply (split_Forall _ 47) in H.
  eapply Forall_impl; [exact H|]. cbn beta. intros seg Hseg Hin.
  rewrite Forall_forall in Hseg. exact (Hseg _ Hin eq_refl).
Qed.

Lemma withoutLeadingSlash_no_percent p : 37 ∉ p -> 37 ∉ withoutLeadingSlash p.
Proof.
  intros Hno. unfold withoutLeadingSlash. destruct (startsWith (js "/") p); [|assumption].
  destruct p; [assumption|]. cbn [drop]. intros Hin. apply Hno. right. exact Hin.
Qed.

Lemma encodeSegments_no_percent segs es :
  Forall (fun seg => 37 ∉ seg) segs ->
  Forall2 (fun seg e => encodeSegment seg = Ok e) segs es ->
  Forall2 (fun seg e => encodeURIComponent seg = Ok e) segs es.
Proof.
  intros Hsegs Hes. induction Hes as [|seg e segs es' He Hes IH]; [constructor|].
  apply Forall_cons in Hsegs as [Hseg Hsegs]. constructor; [|apply IH; assumption].
  rewrite <- encodeSegment_no_percent; assumption.
Qed.

(** X4: for a path without percent signs, percent-decoding what
    normalizePath returns gives the path back, with one slash in
    front: the server is asked for the names that were typed. *)
Theorem normalizePath_decodes_back (p q : jsstring) :
  wfString p -> 37 ∉ p -> isAbsoluteUrl p = false ->
  WebDav.normalizePath p = Ok q \/ CalDav.normalizePath p = Ok q ->
  decodeURIComponent q = Ok (47 :: withoutLeadingSlash p).
Proof.
  intros Hwf Hno Habs Hq.
  assert (Hn : exists f, normalizeWith f p = Ok q) by (destruct Hq; eauto).
  destruct Hn as [f Hn].
  destruct (normalizeWith_segments _ _ _ Habs Hn) as (es & -> & Hes).
  unfold decodeURIComponent. rewrite decodeFrom_literal by lia.
  rewrite (decode_join (split 47 (withoutLeadingSlash p))).
  - cbn [bind]. rewrite join_split. reflexivity.
  - apply split_wf, withoutLeadingSlash_wf, Hwf.
  - eapply encodeSegments_no_percent; [|exact Hes].
    apply split_no_percent, withoutLeadingSlash_no_percent, Hno.
Qed.

Lemma normalizePath_decodes_back_witness :
  decodeURIComponent (js "/My%20Folder/a%26b%3Fc.txt") = Ok (47 :: js "My Folder/a&b?c.txt").
Proof.
  apply (normalizePath_decodes_back (js "/My Folder/a&b?c.txt"));
    [apply wfStringb_ok; vm_compute; reflexivity | apply not_in_js; vm_compute; reflexivity
    | vm_compute; reflexivity | left; vm_compute; reflexivity].
Defined.

(** ** Paths that need no encoding *)

Lemma encode_unreserved s :
  Forall (fun c => uriUnescaped c = true) s -> encodeURIComponent s = Ok s.
Proof.
  induction 1 as [|c rest Hc Hrest IH]; [reflexivity|].
  cbn [encodeURIComponent]. rewrite Hc, IH. reflexivity.
Qed.

Lemma mapM_fixed {A} (f : A -> result A) l :
  Forall (fun a => f a = Ok a) l -> mapM f l = Ok l.
Proof.
  induction 1 as [|a l Ha Hl IH]; [reflexivity|].
  cbn [mapM]. rewrite Ha, IH. reflexivity.
Qed.

Lemma startsWithCI_lookup pat s :
  startsWithCI pat s = true ->
  forall i x, pat !! i = Some x -> exists c, s !! i = Some c /\ lowerAscii x = lowerAscii c.
Proof.
  revert s. induction pat as [|x0 pat IH]; intros s H i x Hi; [discriminate|].
  destruct s as [|c0 s]; [discriminate|].
  cbn [startsWithCI] in H. apply andb_prop in H as [H0 H].
  destruct i as [|i]; cbn in Hi.
  - injection Hi as <-. exists c0. split; [reflexivity | apply Z.eqb_eq; assumption].
  - exact (IH _ H _ _ Hi).
Qed.

Lemma lowerAscii_colon c : lowerAscii 58 = lowerAscii c -> c = 58.
Proof.
  unfold lowerAscii. cbn.
  destruct ((65 <=? c) && (c <=? 90)) eqn:H; [|congruence].
  apply andb_prop in H as [?%Z.leb_le ?%Z.leb_le]. lia.
Qed.

Lemma pathClean_not_absolute p : pathClean p = true -> isAbsoluteUrl p = false.
Proof.
  intros Hc. unfold pathClean in Hc. rewrite forallb_forall in Hc.
  assert (Hno : 58 ∉ p).
  { intros Hin. apply list_elem_of_In, Hc in Hin. discriminate. }
  unfold isAbsoluteUrl. apply orb_false_iff. split; apply not_true_is_false; intros H.
  - destruct (startsWithCI_lookup _ _ H 4%nat 58 eq_refl) as (c & Hl & ->%lowerAscii_colon).
    apply Hno. eapply list_elem_of_lookup_2. exact Hl.
  - destruct (startsWithCI_lookup _ _ H 5%nat 58 eq_refl) as (c & Hl & ->%lowerAscii_colon).
    apply Hno. eapply list_elem_of_lookup_2. exact Hl.
Qed.

Lemma clean_segments s :
  pathClean s = true ->
  Forall (fun seg => encodeSegment seg = Ok seg) (split 47 s).
Proof.
  intros Hc. unfold pathClean in Hc. rewrite forallb_forall in Hc.
  assert (H : Forall (fun c => uriUnescaped c || (c =? 47) = true) s).
  { apply Forall_forall. intros c Hin. apply Hc, list_elem_of_In, Hin. }
  apply (split_Forall _ 47) in H.
  pose proof (split_segments_no_sep 47 s) as Hno.
  revert H Hno. generalize (split 47 s). intros l H Hno.
  induction H as [|seg segs Hseg Hsegs IH]; [constructor|].
  apply Forall_cons in Hno as [Hn Hno]. constructor; [|apply IH; assumption].
  assert (Hun : Forall (fun c => uriUnescaped c = true) seg).
  { apply Forall_forall. intros c Hin. rewrite Forall_forall in Hseg.
    specialize (Hseg _ Hin). apply orb_prop in Hseg as [?|Heq]; [assumption|].
    apply Z.eqb_eq in Heq. subst c. contradiction. }
  rewrite encodeSegment_no_percent; [apply encode_unreserved; assumption|].
  intros Hin. rewrite Forall_forall in Hun. specialize (Hun _ Hin). discriminate.
Qed.

Lemma withoutLeadingSlash_clean p : pathClean p = true -> pathClean (withoutLeadingSlash p) = true.
Proof.
  intros Hc. unfold withoutLeadingSlash. destruct (startsWith (js "/") p); [|assumption].
  destruct p; [assumption|]. cbn [drop]. unfold pathClean in *. cbn [forallb] in Hc.
  apply andb_prop in Hc as [_ ?]. assumption.
Qed.

(** X5: a path of unreserved characters and slashes comes back from
    normalizePath as it was given, with a slash put in front if it had
    none: nothing is encoded, no slash is added or removed elsewhere. *)
Theorem normalizePath_clean_unchanged (p : jsstring) :
  pathClean p = true ->
  WebDav.normalizePath p = Ok (47 :: withoutLeadingSlash p) /\
  CalDav.normalizePath p = Ok (47 :: withoutLeadingSlash p).
Proof.
  intros Hc.
  assert (H : forall f, normalizeWith f p = Ok (47 :: withoutLeadingSlash p)).
  { intros f. unfold normalizeWith. rewrite (pathClean_not_absolute _ Hc).
    destruct (jsEqb p [] || jsEqb p (js "/")) eqn:Hp.
    - apply orb_true_iff in Hp as [Hp|Hp]; apply bool_decide_eq_true in Hp; subst p;
        reflexivity.
    - fold (withoutLeadingSlash p).
      rewrite mapM_fixed by (apply clean_segments, withoutLeadingSlash_clean, Hc).
      cbn [bind]. rewrite join_split. reflexivity. }
  split; apply H.
Qed.

Lemma normalizePath_clean_unchanged_witness :
  WebDav.normalizePath (js "remote.php/dav/files//a_b-1.txt")
    = Ok (js "/remote.php/dav/files//a_b-1.txt") /\
  CalDav.normalizePath (js "remote.php/dav/files//a_b-1.txt")
    = Ok (js "/remote.php/dav/files//a_b-1.txt").
Proof.
  apply (normalizePath_clean_unchanged (js "remote.php/dav/files//a_b-1.txt")).
  vm_compute. reflexivity.
Defined.

(** ** More on the error translator *)

(** X6: whichever rule applies, the translated message holds the
    context line: the protocol family, the operation, the resource and
    the quoted URL. *)
Theorem toFriendlyError_keeps_context family operation (e : rawError) u resource :
  includes (friendlyBase family operation resource u)
    (toFriendlyError family operation e u resource) = true.
Proof.
  unfold toFriendlyError. generalize (friendlyBase family operation resource u). intros base.
  destruct (includesCI _ _); [find_part|].
  destruct (hasCode e "ENOTFOUND"); [find_part|].
  destruct (hasCode e "ECONNREFUSED"); [find_part|].
  destruct (hasCode e "ETIMEDOUT"); [find_part|].
  destruct (coalesce _ _) as [n|]; [destruct (n =? 0)|]; find_part.
Qed.

(** X7: an error with the code ECONNREFUSED or ETIMEDOUT, and without
    "Invalid URL" in its message, gets the connection-refused or the
    timed-out message, whatever HTTP status it carries besides. *)
Theorem toFriendlyError_network_codes family operation (e : rawError) u resource :
  includesCI (js "Invalid URL") (messageText e) = false ->
  (e_code e = Some (js "ECONNREFUSED") ->
   toFriendlyError family operation e u resource =
     js "Connection refused for " ++ friendlyBase family operation resource u ++
     js ". Server unreachable or port blocked.") /\
  (e_code e = Some (js "ETIMEDOUT") ->
   toFriendlyError family operation e u resource =
     js "Connection timed out for " ++ friendlyBase family operation resource u ++
     js ". Server slow or network issues.").
Proof.
  intros Hmsg. unfold toFriendlyError. rewrite Hmsg. unfold hasCode.
  split; intros Hcode; rewrite Hcode;
    repeat first [rewrite bool_decide_eq_true_2 by reflexivity
                 | rewrite bool_decide_eq_false_2 by (intros [=]; discriminate)];
    reflexivity.
Qed.

Lemma toFriendlyError_network_codes_witness :
  toFriendlyError "CalDAV" (js "getEvents") refusedError (js "/cal") (js "calendar") =
  js "Connection refused for CalDAV getEvents on calendar: " ++ quoted (js "/cal") ++
  js ". Server unreachable or port blocked.".
Proof.
  exact (proj1 (toFriendlyError_network_codes "CalDAV" (js "getEvents") refusedError
                  (js "/cal") (js "calendar") eq_refl) eq_refl).
Defined.



(** ** The requests of one item *)

Lemma ioBind_pair {A B} (m : io A) (k : A -> io B) :
  ioBind m k =
  match snd m with
  | Ok a => (fst m ++ fst (k a), snd (k a))
  | Err e => (fst m, Err e)
  end.
Proof. destruct m as [sent [a|e]]; cbn; [destruct (k a)|]; reflexivity. Qed.

Lemma fst_ioBind {A B} (m : io A) (k : A -> io B) :
  fst (ioBind m k) =
  fst m ++ match snd m with Ok a => fst (k a) | Err _ => [] end.
Proof.
  rewrite ioBind_pair. destruct (snd m); cbn [fst]; [reflexivity | rewrite app_nil_r; reflexivity].
Qed.

Lemma failRequest_Err {A} h idx op e u :
  exists e', @WebDav.failRequest h idx op A e u = Err e'.
Proof.
  unfold WebDav.failRequest. destruct (h_stringParam h "resource" idx); cbn; eauto.
Qed.

Lemma CalDav_failRequest_Err {A} h idx op e u :
  exists e', @CalDav.failRequest h idx op A e u = Err e'.
Proof.
  unfold CalDav.failRequest. destruct (h_stringParam h "resource" idx); cbn; eauto.
Qed.

(** What doRequest does with a path: nothing is sent and it throws, or
    the one request goes to the base root followed by the normalised
    path, and a response it returns is the answer to that request. *)
Lemma WebDav_doRequest_shape h baseRoot idx op opts :
  isAbsoluteUrl (rq_url opts) = false ->
  (exists e, WebDav.doRequest h baseRoot idx op opts = ([], Err e)) \/
  (exists t res,
     WebDav.normalizePath (rq_url opts) = Ok (47 :: t) /\
     WebDav.doRequest h baseRoot idx op opts =
       ([withUrl opts (baseRoot ++ 47 :: t)], res) /\
     forall r, res = Ok r -> h_send h (withUrl opts (baseRoot ++ 47 :: t)) = Ok r).
Proof.
  intros Habs. unfold WebDav.doRequest. rewrite Habs.
  destruct (WebDav.normalizePath (rq_url opts)) as [n|e] eqn:Hn.
  - destruct (normalizeWith_head _ _ _ Habs Hn) as [t ->]. right. exists t.
    cbn [bind]. destruct (h_send h _) as [r|e] eqn:Hsend.
    + eexists. split; [reflexivity|]. split; [reflexivity|]. intros r' [= <-]. reflexivity.
    + eexists. split; [reflexivity|]. split; [reflexivity|].
      intros r' Hr. destruct (failRequest_not_Ok _ _ _ _ _ _ Hr).
  - left. destruct (@failRequest_Err response h idx op e (rq_url opts)) as [e' He'].
    exists e'. unfold ioLift. rewrite He'. reflexivity.
Qed.

Lemma CalDav_doRequest_shape h baseRoot idx op opts :
  isAbsoluteUrl (rq_url opts) = false ->
  (exists e, CalDav.doRequest h baseRoot idx op opts = ([], Err e)) \/
  (exists t res,
     CalDav.normalizePath (rq_url opts) = Ok (47 :: t) /\
     CalDav.doRequest h baseRoot idx op opts =
       ([withUrl opts (baseRoot ++ 47 :: t)], res) /\
     forall r, res = Ok r -> h_send h (withUrl opts (baseRoot ++ 47 :: t)) = Ok r).
Proof.
  intros Habs. unfold CalDav.doRequest. rewrite Habs.
  destruct (CalDav.normalizePath (rq_url opts)) as [n|e] eqn:Hn.
  - destruct (normalizeWith_head _ _ _ Habs Hn) as [t ->]. right. exists t.
    cbn [bind]. destruct (h_send h _) as [r|e] eqn:Hsend.
    + eexists. split; [reflexivity|]. split; [reflexivity|]. intros r' [= <-]. reflexivity.
    + eexists. split; [reflexivity|]. split; [reflexivity|].
      intros r' Hr. destruct (CalDav_failRequest_Err (A := response) h idx op e
                                (rq_url (withUrl opts (baseRoot ++ 47 :: t)))) as [e' He'].
      rewrite He' in Hr. discriminate.
  - left. destruct (CalDav_failRequest_Err (A := response) h idx op e (rq_url opts)) as [e' He'].
    exists e'. cbn [bind]. unfold ioLift. rewrite He'. reflexivity.
Qed.

Lemma shape_lift h baseRoot {A B} (r : result A) (k : A -> io B) :
  (forall a, r = Ok a -> oneRequestUnder h baseRoot (k a)) ->
  oneRequestUnder h baseRoot (ioBind (ioLift r) k).
Proof.
  intros H. destruct r as [a|e].
  - rewrite (ioBind_lift _ _ a eq_refl). apply H. reflexivity.
  - left. split; [reflexivity | eauto].
Qed.

Lemma shape_throw h baseRoot {A} (e : jserror) :
  oneRequestUnder h baseRoot (@ioLift A (Err e)).
Proof. left. split; [reflexivity | eauto]. Qed.

Lemma shape_end h baseRoot {A B} (m : io A) (k : A -> io B) :
  oneRequestUnder h baseRoot m -> (forall a, fst (k a) = []) ->
  oneRequestUnder h baseRoot (ioBind m k).
Proof.
  intros [[Hf [e He]]|(rq & t & Hf & Hu & Hs)] Hk; rewrite ioBind_pair.
  - left. rewrite He. split; [assumption | eauto].
  - right. exists rq, t. destruct (snd m) as [a|e] eqn:Hm; cbn [fst snd].
    + rewrite Hf, Hk. repeat split; try assumption. intros _ _. eauto.
    + repeat split; try assumption. intros ? [=].
Qed.

Lemma WebDav_doRequest_has_shape h baseRoot idx op opts :
  isAbsoluteUrl (rq_url opts) = false ->
  oneRequestUnder h baseRoot (WebDav.doRequest h baseRoot idx op opts).
Proof.
  intros Habs.
  destruct (WebDav_doRequest_shape h baseRoot idx op opts Habs)
    as [[e ->]|(t & res & _ & -> & Hres)].
  - left. split; [reflexivity | eauto].
  - right. exists (withUrl opts (baseRoot ++ 47 :: t)), t.
    repeat split. intros a Ha. exists a. apply Hres. exact Ha.
Qed.

Lemma CalDav_doRequest_has_shape h baseRoot idx op opts :
  isAbsoluteUrl (rq_url opts) = false ->
  oneRequestUnder h baseRoot (CalDav.doRequest h baseRoot idx op opts).
Proof.
  intros Habs.
  destruct (CalDav_doRequest_shape h baseRoot idx op opts Habs)
    as [[e ->]|(t & res & _ & -> & Hres)].
  - left. split; [reflexivity | eauto].
  - right. exists (withUrl opts (baseRoot ++ 47 :: t)), t.
    repeat split. intros a Ha. exists a. apply Hres. exact Ha.
Qed.

Ltac quiet :=
  intros;
  repeat first
    [ reflexivity
    | rewrite fst_ioBind; cbn [ioLift fst snd app]
    | match goal with
      | |- context [match ?x with _ => _ end] => destruct x
      end ].

Ltac to_request :=
  repeat (apply shape_lift; intros ? ?).

Lemma WebDav_target_relative p target :
  WebDav.normalizePath p = Ok target -> isAbsoluteUrl target = false.
Proof.
  intros Hn.
  destruct (normalizeWith_head _ _ _ (WebDav_normalizePath_not_absolute _ _ Hn) Hn) as [t ->].
  reflexivity.
Qed.

Lemma WebDav_processItem_shape h baseRoot items idx :
  oneRequestUnder h baseRoot (WebDav.processItem h baseRoot items idx).
Proof.
  unfold WebDav.processItem. apply shape_lift. intros op _. unfold WebDav.dispatch.
  repeat match goal with
         | |- oneRequestUnder h baseRoot (if ?b then _ else _) => destruct b
         end.
  - unfold WebDav.caseGet. to_request.
    apply shape_end; [|quiet].
    apply WebDav_doRequest_has_shape. eapply WebDav_target_relative. eassumption.
  - unfold WebDav.casePut. to_request.
    destruct (items !! idx) as [inputItem|]; [|apply shape_throw].
    destruct (it_binary inputItem ≫= _) as [ref|]; [|apply shape_throw].
    to_request. apply shape_end; [|quiet].
    apply WebDav_doRequest_has_shape. eapply WebDav_target_relative. eassumption.
  - unfold WebDav.casePropfind. to_request.
    apply shape_end; [|quiet].
    apply WebDav_doRequest_has_shape. cbn [rq_url].
    match goal with
    | H : (if ?b then _ else _) = Ok _ |- _ => destruct b; [injection H as <-; reflexivity|]
    end.
    eapply WebDav_target_relative. eassumption.
  - unfold WebDav.caseMkcol. to_request.
    apply shape_end; [|quiet].
    apply WebDav_doRequest_has_shape. eapply WebDav_target_relative. eassumption.
  - unfold WebDav.caseDelete. to_request.
    apply shape_end; [|quiet].
    apply WebDav_doRequest_has_shape. eapply WebDav_target_relative. eassumption.
  - unfold WebDav.caseMove, WebDav.caseMoveCopy. to_request.
    apply shape_end; [|quiet].
    apply WebDav_doRequest_has_shape. eapply WebDav_target_relative. eassumption.
  - unfold WebDav.caseCopy, WebDav.caseMoveCopy. to_request.
    apply shape_end; [|quiet].
    apply WebDav_doRequest_has_shape. eapply WebDav_target_relative. eassumption.
  - apply shape_throw.
Qed.

Lemma CalDav_target_relative p target :
  isAbsoluteUrl p = false -> CalDav.normalizePath p = Ok target ->
  isAbsoluteUrl target = false.
Proof.
  intros Habs Hn. destruct (normalizeWith_head _ _ _ Habs Hn) as [t ->]. reflexivity.
Qed.

Lemma eventPath_relative calendarPath eventId :
  isAbsoluteUrl (CalDav.eventPath (CalDav.withLeadingSlash calendarPath) eventId) = false.
Proof.
  destruct (withLeadingSlash_head calendarPath) as [t ->]. reflexivity.
Qed.

Lemma withLeadingSlash_relative calendarPath :
  isAbsoluteUrl (CalDav.withLeadingSlash calendarPath) = false.
Proof.
  destruct (withLeadingSlash_head calendarPath) as [t ->]. reflexivity.
Qed.

Lemma CalDav_event_operations_shape h baseRoot idx op :
  op <> Some (js "getCalendars") ->
  oneRequestUnder h baseRoot (CalDav.dispatch h baseRoot idx op).
Proof.
  intros Hop. unfold CalDav.dispatch.
  rewrite bool_decide_eq_false_2 by exact Hop.
  repeat match goal with
         | |- oneRequestUnder h baseRoot (if ?b then _ else _) => destruct b
         end.
  - unfold CalDav.caseGetEvents. to_request.
    apply shape_end; [|quiet].
    apply CalDav_doRequest_has_shape.
    eapply CalDav_target_relative; [apply withLeadingSlash_relative | eassumption].
  - unfold CalDav.caseCreateEvent, CalDav.casePutEvent. to_request.
    apply shape_end; [|quiet].
    apply CalDav_doRequest_has_shape.
    match goal with
    | H : CalDav.putEventRequest _ _ _ _ = Ok _ |- _ =>
        unfold CalDav.putEventRequest in H;
        apply bind_Ok in H as (target & Ht & [= <-])
    end.
    eapply CalDav_target_relative; [apply eventPath_relative | eassumption].
  - unfold CalDav.caseUpdateEvent, CalDav.casePutEvent. to_request.
    apply shape_end; [|quiet].
    apply CalDav_doRequest_has_shape.
    match goal with
    | H : CalDav.putEventRequest _ _ _ _ = Ok _ |- _ =>
        unfold CalDav.putEventRequest in H;
        apply bind_Ok in H as (target & Ht & [= <-])
    end.
    eapply CalDav_target_relative; [apply eventPath_relative | eassumption].
  - unfold CalDav.caseDeleteEvent. to_request.
    apply shape_end; [|quiet].
    apply CalDav_doRequest_has_shape.
    eapply CalDav_target_relative; [apply eventPath_relative | eassumption].
  - apply shape_throw.
Qed.

(** X9: every request that the WebDAV node sends for an item has a URL
    that is the base root followed by a path that starts with a slash,
    whatever the path parameter of the item holds.  (The base root is
    the credential's URL without its trailing slash.) *)
Theorem webdav_requests_under_baseRoot h baseRoot items idx rq :
  rq ∈ fst (WebDav.processItem h baseRoot items idx) ->
  exists t, rq_url rq = baseRoot ++ 47 :: t.
Proof.
  intros Hin.
  destruct (WebDav_processItem_shape h baseRoot items idx)
    as [[Hf _]|(rq' & t & Hf & Hu & _)]; rewrite Hf in Hin.
  - inversion Hin.
  - apply list_elem_of_singleton in Hin as ->. eauto.
Qed.

Lemma webdav_requests_under_baseRoot_witness :
  exists t,
    rq_url {| rq_method := "MKCOL"; rq_url := js "https://dav.example.com/new%20dir";
              rq_headers := []; rq_body := None |}
    = js "https://dav.example.com" ++ 47 :: t.
Proof.
  apply (webdav_requests_under_baseRoot mkcolHost (js "https://dav.example.com") [] 0%nat).
  vm_compute. left.
Defined.

(** X10: the WebDAV node sends at most one request for an item; an
    item that sent none has failed, and an item that yields a record
    has sent exactly one request and got its answer. *)
Theorem webdav_one_request_per_item h baseRoot items idx :
  let run := WebDav.processItem h baseRoot items idx in
  (fst run = [] /\ exists e, snd run = Err e) \/
  (exists rq, fst run = [rq] /\
     forall out, snd run = Ok out -> exists r, h_send h rq = Ok r).
Proof.
  intros run. subst run.
  destruct (WebDav_processItem_shape h baseRoot items idx)
    as [H|(rq & t & Hf & _ & Hs)]; [left; exact H | right; eauto].
Qed.

(** X11: the event operations of the CalDAV node (every operation but
    getCalendars) send at most one request for an item, and they send
    it to the base root followed by a path that starts with a slash. *)
Theorem caldav_event_requests_under_baseRoot h baseRoot idx rq :
  h_stringParam h "operation" idx <> Ok (Some (js "getCalendars")) ->
  rq ∈ fst (CalDav.processItem h baseRoot idx) ->
  fst (CalDav.processItem h baseRoot idx) = [rq] /\
  exists t, rq_url rq = baseRoot ++ 47 :: t.
Proof.
  intros Hop Hin. unfold CalDav.processItem in *.
  destruct (h_stringParam h "operation" idx) as [op|e]; [|inversion Hin].
  rewrite (ioBind_lift _ _ op eq_refl) in *.
  assert (Hne : op <> Some (js "getCalendars")) by congruence.
  destruct (CalDav_event_operations_shape h baseRoot idx op Hne)
    as [[Hf _]|(rq' & t & Hf & Hu & _)]; rewrite Hf in Hin |- *.
  - inversion Hin.
  - apply list_elem_of_singleton in Hin as ->. eauto.
Qed.

Lemma caldav_event_requests_under_baseRoot_witness :
  exists rq,
    fst (CalDav.processItem createEventHost (js "https://dav.example.com") 0) = [rq] /\
    exists t, rq_url rq = js "https://dav.example.com" ++ 47 :: t.
Proof.
  eexists.
  apply (caldav_event_requests_under_baseRoot createEventHost (js "https://dav.example.com")
           0%nat); [vm_compute; discriminate | vm_compute; left].
Defined.

(** X12: getCalendars is the exception: the CalDAV normalizePath
    passes an absolute URL through and doRequest sends it as it is, so a
    calendar home set that is an absolute URL is requested from the
    server it names, not from the base root. *)
Theorem caldav_getCalendars_absolute h baseRoot idx op homeSet :
  stringParam h "calendarHomeSet" idx (js "/calendars/user/") = Ok homeSet ->
  isAbsoluteUrl homeSet = true ->
  map rq_url (fst (CalDav.caseGetCalendars h baseRoot idx op)) = [homeSet].
Proof.
  intros Hparam Habs. unfold CalDav.caseGetCalendars.
  rewrite (ioBind_lift _ _ homeSet Hparam).
  assert (Hn : CalDav.normalizePath homeSet = Ok homeSet).
  { unfold CalDav.normalizePath, normalizeWith. rewrite Habs.
    destruct (jsEqb homeSet [] || jsEqb homeSet (js "/")) eqn:Hp; [|reflexivity].
    apply orb_true_iff in Hp as [Hp|Hp]; apply bool_decide_eq_true in Hp; subst homeSet;
      discriminate. }
  rewrite (ioBind_lift _ _ homeSet Hn), fst_ioBind.
  unfold CalDav.doRequest. cbn [rq_url]. rewrite Habs.
  destruct (h_send h _) as [r|e]; cbn [fst snd map app].
  - rewrite fst_ioBind. cbn [ioLift fst snd app map].
    destruct (parseCalendarsResponse _); reflexivity.
  - destruct (CalDav_failRequest_Err (A := response) h idx op e
                (rq_url {| rq_method := "PROPFIND"; rq_url := homeSet;
                           rq_headers := [("Depth", js "1");
                                          ("Content-Type", js "application/xml")];
                           rq_body := Some (PropfindXml
                             ["D:resourcetype"; "D:displayname"; "C:calendar-description";
                              "C:supported-calendar-component-set"]) |})) as [e' ->].
    reflexivity.
Qed.

Lemma caldav_getCalendars_absolute_witness :
  map rq_url (fst (CalDav.caseGetCalendars elsewhereHost (js "https://dav.example.com") 0
                     (Some (js "getCalendars"))))
  = [js "https://other.example.org/calendars/"].
Proof.
  apply (caldav_getCalendars_absolute elsewhereHost); vm_compute; reflexivity.
Defined.

(** ** Runs of the WebDAV node *)

Lemma decorate_index e i :
  exists msg, decorate e i = NodeOperationError msg (Some i).
Proof. destruct e; cbn; eauto. Qed.

Lemma WebDav_loop_run h baseRoot items todo idx acc :
  h_continueOnFail h = true ->
  WebDav.loop h baseRoot items todo idx acc =
  (concat (map (fun j => fst (WebDav.processItem h baseRoot items j)) (seq idx (length todo))),
   Ok (acc ++ map (recordOf h baseRoot items) (seq idx (length todo)))).
Proof.
  intros Hc. revert idx acc. induction todo as [|it todo IH]; intros idx acc.
  - cbn. rewrite app_nil_r. reflexivity.
  - cbn [WebDav.loop length seq map concat]. unfold recordOf at 1.
    destruct (WebDav.processItem h baseRoot items idx) as [sent [out|e]]; cbn [fst snd].
    + rewrite IH, <- app_assoc. reflexivity.
    + rewrite Hc, IH, <- app_assoc. reflexivity.
Qed.

Lemma WebDav_loop_stop h baseRoot items k : forall todo idx acc e,
  h_continueOnFail h = false ->
  (k < length todo)%nat ->
  (forall j, (j < k)%nat ->
     exists out, snd (WebDav.processItem h baseRoot items (idx + j)) = Ok out) ->
  snd (WebDav.processItem h baseRoot items (idx + k)) = Err e ->
  WebDav.loop h baseRoot items todo idx acc =
  (concat (map (fun j => fst (WebDav.processItem h baseRoot items j)) (seq idx (S k))),
   Err (decorate e (idx + k))).
Proof.
  induction k as [|k IH]; intros todo idx acc e Hc Hk Hok Hfail;
    (destruct todo as [|it todo]; [cbn in Hk; lia|]); cbn [WebDav.loop].
  - rewrite Nat.add_0_r in *.
    destruct (WebDav.processItem h baseRoot items idx) as [sent [out|e0]] eqn:Hrun;
      cbn [snd] in Hfail; [discriminate|]. injection Hfail as ->.
    rewrite Hc. cbn [seq map concat]. rewrite Hrun, app_nil_r. reflexivity.
  - destruct (Hok 0%nat ltac:(lia)) as [out Hout]. rewrite Nat.add_0_r in Hout.
    destruct (WebDav.processItem h baseRoot items idx) as [sent [out'|e0]] eqn:Hrun;
      cbn [snd] in Hout; [|discriminate].
    rewrite (IH todo (S idx) (acc ++ [out']) e Hc).
    + cbn [seq map concat]. rewrite Hrun. cbn [fst].
      replace (S idx + k)%nat with (idx + S k)%nat by lia. reflexivity.
    + cbn in Hk. lia.
    + intros j Hj. replace (S idx + j)%nat with (idx + S j)%nat by lia.
      apply Hok. lia.
    + replace (S idx + k)%nat with (idx + S k)%nat by lia. exact Hfail.
Qed.

(** X13: with continue-on-fail disabled the WebDAV node stops at the
    first item that fails: the requests of the items before it and its
    own have been sent, in order, no later item sends anything, and the
    error that ends the run carries the index of the failed item. *)
Theorem webdav_stops_at_first_failure h items baseUrl k e :
  validateBaseUrl h = Ok baseUrl -> h_continueOnFail h = false ->
  (k < length items)%nat ->
  (forall j, (j < k)%nat ->
     exists out, snd (WebDav.processItem h (stripTrailingSlash baseUrl) items j) = Ok out) ->
  snd (WebDav.processItem h (stripTrailingSlash baseUrl) items k) = Err e ->
  WebDav.execute h items =
    (concat (map (fun j => fst (WebDav.processItem h (stripTrailingSlash baseUrl) items j))
               (seq 0 (S k))),
     Err (decorate e k)) /\
  exists msg, decorate e k = NodeOperationError msg (Some k).
Proof.
  intros Hv Hc Hk Hok Hfail. split; [|apply decorate_index].
  unfold WebDav.execute. rewrite Hv.
  apply (WebDav_loop_stop h _ items k items 0%nat [] e Hc Hk Hok Hfail).
Qed.

Lemma webdav_stops_at_first_failure_witness :
  exists e,
    WebDav.execute failSecondFileHost threeItems =
      (concat (map (fun j => fst (WebDav.processItem failSecondFileHost
                                    (stripTrailingSlash (js "https://dav.example.com/"))
                                    threeItems j)) (seq 0 2)),
       Err (decorate e 1)) /\
    exists msg, decorate e 1 = NodeOperationError msg (Some 1%nat).
Proof.
  eexists.
  apply (webdav_stops_at_first_failure failSecondFileHost threeItems
           (js "https://dav.example.com/") 1%nat).
  - vm_compute. reflexivity.
  - reflexivity.
  - vm_compute. lia.
  - intros j Hj. assert (j = 0%nat) as -> by lia. eexists. vm_compute. reflexivity.
  - vm_compute. reflexivity.
Defined.

(** X14: with continue-on-fail enabled the WebDAV node visits every
    item and sends the requests of all of them in order; the run
    returns one record per item, at the item's position: the record the
    item produced, or for a failed item a record with the error message
    that is paired with the item's index. *)
Theorem webdav_continueOnFail_run h items baseUrl :
  validateBaseUrl h = Ok baseUrl -> h_continueOnFail h = true ->
  let run j := WebDav.processItem h (stripTrailingSlash baseUrl) items j in
  exists out,
    WebDav.execute h items =
      (concat (map (fun j => fst (run j)) (seq 0 (length items))), Ok out) /\
    length out = length items /\
    forall i, (i < length items)%nat ->
      (forall o, snd (run i) = Ok o -> out !! i = Some o) /\
      (forall e, snd (run i) = Err e ->
         out !! i = Some {| WebDav.o_json := JObj [("error", messageOf e)];
                            WebDav.o_binary := None;
                            WebDav.o_pairedItem := Some i |}).
Proof.
  intros Hv Hc run. subst run. unfold WebDav.execute. rewrite Hv.
  rewrite WebDav_loop_run by exact Hc. cbn [app].
  eexists. split; [reflexivity|]. split.
  - rewrite length_map, length_seq. reflexivity.
  - intros i Hi. rewrite list_lookup_fmap, lookup_seq_lt by exact Hi.
    change (0 + i)%nat with i.
    split; intros ? Hr; cbn [fmap option_fmap option_map]; unfold recordOf;
      rewrite Hr; reflexivity.
Qed.

Lemma webdav_continueOnFail_run_witness :
  exists out,
    WebDav.execute failFirstFileHost threeItems =
      (concat (map (fun j => fst (WebDav.processItem failFirstFileHost
                                    (stripTrailingSlash (js "https://dav.example.com/"))
                                    threeItems j)) (seq 0 (length threeItems))), Ok out) /\
    length out = length threeItems /\
    forall i, (i < length threeItems)%nat ->
      (forall o, snd (WebDav.processItem failFirstFileHost
                        (stripTrailingSlash (js "https://dav.example.com/")) threeItems i)
                 = Ok o -> out !! i = Some o) /\
      (forall e, snd (WebDav.processItem failFirstFileHost
                        (stripTrailingSlash (js "https://dav.example.com/")) threeItems i)
                 = Err e ->
         out !! i = Some {| WebDav.o_json := JObj [("error", messageOf e)];
                            WebDav.o_binary := None;
                            WebDav.o_pairedItem := Some i |}).
Proof.
  apply (webdav_continueOnFail_run failFirstFileHost threeItems (js "https://dav.example.com/"));
    vm_compute; reflexivity.
Defined.

(** ** Runs of the calendar and the address-book node *)

(** The loop after [k] items that succeed, starting from item [idx]:
    their requests have been sent, their fields assigned. *)
Lemma loopInPlace_steps h body items k : forall idx heap fuel,
  (idx + k <= length items)%nat ->
  (forall j, (idx <= j < idx + k)%nat -> exists f, snd (body j) = Ok f) ->
  (forall it, it ∈ items -> is_Some (heap !! it_json it)) ->
  exists heap',
    (forall a, is_Some (heap' !! a) <-> is_Some (heap !! a)) /\
    (forall a,
       (forall j it, (idx <= j < idx + k)%nat -> items !! j = Some it -> it_json it <> a) ->
       heap' !! a = heap !! a) /\
    (forall j it f obj,
       (idx <= j < idx + k)%nat -> items !! j = Some it ->
       snd (body j) = Ok f -> heap !! it_json it = Some obj ->
       (forall j' it', (idx <= j' < idx + k)%nat -> j' <> j -> items !! j' = Some it' ->
          it_json it' <> it_json it) ->
       heap' !! it_json it =
         Some (foldl (fun o kv => setField (fst kv) (snd kv) o) obj f)) /\
    loopInPlace (k + fuel) h body idx items heap =
      match loopInPlace fuel h body (idx + k)%nat items heap' with
      | Some (sent', r) =>
          Some (concat (map (fun j => fst (body j)) (seq idx k)) ++ sent', r)
      | None => None
      end.
Proof.
  induction k as [|k IH]; intros idx heap fuel Hlen Hok Hheap.
  - exists heap. rewrite Nat.add_0_r. repeat split; try tauto.
    + intros j it f obj Hj. lia.
    + cbn. destruct (loopInPlace fuel h body idx items heap) as [[s r]|]; reflexivity.
  - destruct (lookup_lt_is_Some_2 items idx ltac:(lia)) as [it Hit].
    destruct (Hok idx ltac:(lia)) as [f Hf].
    destruct (Hheap it (list_elem_of_lookup_2 _ _ _ Hit)) as [obj Hobj].
    set (new := foldl (fun o kv => setField (fst kv) (snd kv) o) obj f).
    destruct (IH (S idx) (<[it_json it := new]> heap) fuel) as (heap' & Hdom & Hother & Hset & Hrun).
    { lia. }
    { intros j Hj. apply Hok. lia. }
    { intros it' Hin. destruct (decide (it_json it' = it_json it)) as [->|Hne].
      - rewrite lookup_insert_eq. eauto.
      - rewrite lookup_insert_ne by congruence. apply Hheap, Hin. }
    exists heap'. split; [|split; [|split]].
    + intros a. rewrite Hdom. destruct (decide (a = it_json it)) as [->|Hne].
      * rewrite lookup_insert_eq, Hobj. split; eauto.
      * rewrite lookup_insert_ne by congruence. reflexivity.
    + intros a Ha. rewrite Hother.
      * apply lookup_insert_ne. apply (Ha idx it); [lia | exact Hit].
      * intros j it' Hj. apply Ha. lia.
    + intros j it' f' obj' Hj Hit' Hf' Hobj' Huniq.
      destruct (decide (j = idx)) as [->|Hne].
      * assert (it' = it) as -> by congruence.
        assert (f' = f) as -> by congruence.
        assert (obj' = obj) as -> by congruence.
        rewrite Hother; [apply lookup_insert_eq|].
        intros j' it'' Hj' Hit''. apply (Huniq j' it''); [lia | lia | exact Hit''].
      * apply (Hset j it' f' obj'); [lia | exact Hit' | exact Hf' | |].
        -- rewrite lookup_insert_ne; [exact Hobj'|].
           apply (Huniq idx it); [lia | congruence | exact Hit].
        -- intros j' it'' Hj' Hne' Hit''. apply (Huniq j' it''); [lia | exact Hne' | exact Hit''].
    + cbn [Nat.add loopInPlace]. rewrite Hit.
      destruct (body idx) as [s [f0|e0]] eqn:Hbody; cbn [snd] in Hf; [|discriminate].
      injection Hf as ->. cbn [ioBind ioLift]. unfold assignFields. rewrite Hobj.
      fold new. rewrite Hrun. replace (S idx + k)%nat with (idx + S k)%nat by lia.
      destruct (loopInPlace fuel h body (idx + S k) items heap') as [[s' r']|]; [|reflexivity].
      cbn [seq map concat]. rewrite Hbody. cbn [fst].
      rewrite app_nil_r, <- app_assoc. reflexivity.
Qed.

(** X16: when every item succeeds, the calendar and the address-book
    node return the very list of items they were given, having sent the
    requests of the items in order; the fields of each item have been
    assigned into the item's own [json] object, on top of what it held,
    and no other object has changed. *)
Theorem inPlace_all_succeed h body items heap fuel :
  (length items < fuel)%nat ->
  (forall j, (j < length items)%nat -> exists f, snd (body j) = Ok f) ->
  (forall it, it ∈ items -> is_Some (heap !! it_json it)) ->
  exists heap',
    loopInPlace fuel h body 0 items heap =
      Some (concat (map (fun j => fst (body j)) (seq 0 (length items))),
            Ok (items, heap')) /\
    (forall j it f obj,
       items !! j = Some it -> snd (body j) = Ok f -> heap !! it_json it = Some obj ->
       (forall j' it', j' <> j -> items !! j' = Some it' -> it_json it' <> it_json it) ->
       heap' !! it_json it =
         Some (foldl (fun o kv => setField (fst kv) (snd kv) o) obj f)) /\
    (forall a, (forall it, it ∈ items -> it_json it <> a) -> heap' !! a = heap !! a).
Proof.
  intros Hfuel Hok Hheap.
  destruct (loopInPlace_steps h body items (length items) 0%nat heap (fuel - length items))
    as (heap' & _ & Hother & Hset & Hrun); [lia | intros; apply Hok; lia | exact Hheap |].
  exists heap'. split; [|split].
  - replace (length items + (fuel - length items))%nat with fuel in Hrun by lia.
    rewrite Hrun. cbn [Nat.add].
    destruct (fuel - length items)%nat as [|fuel'] eqn:Hf; [lia|].
    cbn [loopInPlace]. rewrite (lookup_ge_None_2 items (length items)) by lia.
    unfold ioLift. rewrite app_nil_r. reflexivity.
  - intros j it f obj Hit Hf Hobj Huniq.
    apply (Hset j it f obj); try assumption.
    + apply lookup_lt_Some in Hit. lia.
    + intros j' it' _. apply Huniq.
  - intros a Ha. apply Hother. intros j it _ Hit.
    apply Ha. eapply list_elem_of_lookup_2. exact Hit.
Qed.

Lemma inPlace_all_succeed_witness :
  exists heap',
    loopInPlace 2 createEventHost
        (CalDav.processItem createEventHost (js "https://dav.example.com")) 0
        [plainItem 1] threeNamedObjects =
      Some (concat (map (fun j => fst (CalDav.processItem createEventHost
                                         (js "https://dav.example.com") j))
                      (seq 0 (length [plainItem 1]))),
            Ok ([plainItem 1], heap')) /\
    (forall j it f obj,
       [plainItem 1] !! j = Some it ->
       snd (CalDav.processItem createEventHost (js "https://dav.example.com") j) = Ok f ->
       threeNamedObjects !! it_json it = Some obj ->
       (forall j' it', j' <> j -> [plainItem 1] !! j' = Some it' ->
          it_json it' <> it_json it) ->
       heap' !! it_json it =
         Some (foldl (fun o kv => setField (fst kv) (snd kv) o) obj f)) /\
    (forall a, (forall it, it ∈ [plainItem 1] -> it_json it <> a) ->
       heap' !! a = threeNamedObjects !! a).
Proof.
  apply (inPlace_all_succeed createEventHost
           (CalDav.processItem createEventHost (js "https://dav.example.com"))
           [plainItem 1] threeNamedObjects 2).
  - cbn. lia.
  - intros j Hj. assert (j = 0%nat) as -> by (cbn in Hj; lia).
    eexists. vm_compute. reflexivity.
  - intros it ->%list_elem_of_singleton. vm_compute. eauto.
Defined.

(** X17: with continue-on-fail disabled the calendar and the
    address-book node stop at the first item that fails: the requests of
    the items up to it have been sent, in order, nothing is sent for a
    later item, and the error carries the index of the failed item. *)
Theorem inPlace_stops_at_first_failure h body items heap fuel k e :
  h_continueOnFail h = false ->
  (k < length items)%nat -> (k < fuel)%nat ->
  (forall j, (j < k)%nat -> exists f, snd (body j) = Ok f) ->
  (forall it, it ∈ items -> is_Some (heap !! it_json it)) ->
  snd (body k) = Err e ->
  loopInPlace fuel h body 0 items heap =
    Some (concat (map (fun j => fst (body j)) (seq 0 (S k))), Err (decorate e k)) /\
  exists msg, decorate e k = NodeOperationError msg (Some k).
Proof.
  intros Hc Hk Hfuel Hok Hheap Hfail. split; [|apply decorate_index].
  destruct (loopInPlace_steps h body items k 0%nat heap (fuel - k))
    as (heap' & _ & _ & _ & Hrun); [lia | intros; apply Hok; lia | exact Hheap |].
  replace (k + (fuel - k))%nat with fuel in Hrun by lia.
  rewrite Hrun. cbn [Nat.add].
  destruct (fuel - k)%nat as [|fuel'] eqn:Hf; [lia|].
  cbn [loopInPlace].
  destruct (lookup_lt_is_Some_2 items k Hk) as [it ->].
  destruct (body k) as [s [f|e0]] eqn:Hbody; cbn [snd] in Hfail; [discriminate|].
  injection Hfail as ->. cbn [ioBind]. rewrite Hc.
  rewrite seq_S, map_app, concat_app. cbn [Nat.add map concat]. rewrite Hbody.
  cbn [fst]. rewrite app_nil_r. reflexivity.
Qed.

Lemma inPlace_stops_at_first_failure_witness :
  exists e,
    loopInPlace 5 stopSecondHost
        (CalDav.processItem stopSecondHost (js "https://dav.example.com")) 0
        threeItems threeObjects =
      Some (concat (map (fun j => fst (CalDav.processItem stopSecondHost
                                         (js "https://dav.example.com") j)) (seq 0 2)),
            Err (decorate e 1)) /\
    exists msg, decorate e 1 = NodeOperationError msg (Some 1%nat).
Proof.
  eexists.
  apply (inPlace_stops_at_first_failure stopSecondHost
           (CalDav.processItem stopSecondHost (js "https://dav.example.com"))
           threeItems threeObjects 5 1).
  - reflexivity.
  - cbn. lia.
  - lia.
  - intros j Hj. assert (j = 0%nat) as -> by lia. eexists. vm_compute. reflexivity.
  - intros it Hin. repeat (apply elem_of_cons in Hin as [->|Hin]; [vm_compute; eauto|]).
    inversion Hin.
  - vm_compute. reflexivity.
Defined.

(** X18: the [catch] of the calendar and the address-book node reads
    [this.getInputData(itemIndex)[0].json], the first item of the input
    whose number is the index of the failed item.  When that call throws,
    or hands out no item, the run ends with that error, or with the
    TypeError of reading [json] of [undefined], although continue-on-fail
    is enabled; the later items are not visited. *)
Theorem inPlace_catch_can_throw h body items heap fuel k e :
  h_continueOnFail h = true ->
  (k < length items)%nat -> (k < fuel)%nat ->
  (forall j, (j < k)%nat -> exists f, snd (body j) = Ok f) ->
  (forall it, it ∈ items -> is_Some (heap !! it_json it)) ->
  snd (body k) = Err e ->
  let sent := concat (map (fun j => fst (body j)) (seq 0 (S k))) in
  (forall e', h_getInputData h k items = Err e' ->
     loopInPlace fuel h body 0 items heap = Some (sent, Err e')) /\
  (forall input, h_getInputData h k items = Ok input -> input !! 0%nat = None ->
     loopInPlace fuel h body 0 items heap = Some (sent, Err cannotRead)).
Proof.
  intros Hc Hk Hfuel Hok Hheap Hfail sent. subst sent.
  destruct (loopInPlace_steps h body items k 0%nat heap (fuel - k))
    as (heap' & _ & _ & _ & Hrun); [lia | intros; apply Hok; lia | exact Hheap |].
  replace (k + (fuel - k))%nat with fuel in Hrun by lia.
  rewrite Hrun. cbn [Nat.add].
  destruct (fuel - k)%nat as [|fuel'] eqn:Hf; [lia|].
  cbn [loopInPlace].
  destruct (lookup_lt_is_Some_2 items k Hk) as [it ->].
  destruct (body k) as [s [f|e0]] eqn:Hbody; cbn [snd] in Hfail; [discriminate|].
  injection Hfail as ->. cbn [ioBind]. rewrite Hc.
  rewrite seq_S, map_app, concat_app. cbn [Nat.add map concat]. rewrite Hbody.
  cbn [fst]. rewrite app_nil_r. split.
  - intros e' ->. reflexivity.
  - intros input -> ->. reflexivity.
Qed.

Lemma inPlace_catch_can_throw_witness :
  loopInPlace 5 failSecondHost
      (CalDav.processItem failSecondHost (js "https://dav.example.com")) 0
      threeItems threeObjects =
    Some (concat (map (fun j => fst (CalDav.processItem failSecondHost
                                       (js "https://dav.example.com") j)) (seq 0 2)),
          Err cannotRead).
Proof.
  refine (proj2 (inPlace_catch_can_throw failSecondHost
           (CalDav.processItem failSecondHost (js "https://dav.example.com"))
           threeItems threeObjects 5 1 _ _ _ _ _ _ _) [] _ _).
  - reflexivity.
  - cbn. lia.
  - lia.
  - intros j Hj. assert (j = 0%nat) as -> by lia. eexists. vm_compute. reflexivity.
  - intros it Hin. repeat (apply elem_of_cons in Hin as [->|Hin]; [vm_compute; eauto|]).
    inversion Hin.
  - vm_compute. reflexivity.
  - reflexivity.
  - reflexivity.
Defined.

(** ** More on the extractors *)

Lemma lazyUntil_Some dotAll close s cap rest :
  lazyUntil dotAll close s = Some (cap, rest) -> s = cap ++ close ++ rest.
Proof.
  revert cap. induction s as [|c s IH]; intros cap; rewrite lazyUntil_eq.
  - destruct (stripPrefix close []) as [r|] eqn:Hs; [|discriminate].
    intros [= <- <-]. apply stripPrefix_Some in Hs. exact Hs.
  - destruct (stripPrefix close (c :: s)) as [r|] eqn:Hs.
    + intros [= <- <-]. apply stripPrefix_Some in Hs. exact Hs.
    + destruct (dotAll || negb (isLineTerminator c)); [|discriminate].
      destruct (lazyUntil dotAll close s) as [[cap' rest']|]; [|discriminate].
      intros [= <- <-]. cbn [app]. f_equal. apply IH. reflexivity.
Qed.

Lemma afterGt_Some s t : afterGt s = Some t -> exists a, s = a ++ 62 :: t.
Proof.
  induction s as [|c s IH]; cbn [afterGt]; [discriminate|].
  destruct (Z.eqb_spec c 62) as [->|_].
  - intros [= ->]. exists []. reflexivity.
  - intros [a ->]%IH. exists (c :: a). reflexivity.
Qed.

(** A match holds the closing tag. *)
Lemma matchAt_Some re s cap rest :
  matchAt re s = Some (cap, rest) -> includes (re_close re) s = true.
Proof.
  unfold matchAt. destruct (stripPrefix (re_open re) s) as [s1|] eqn:H1; [|discriminate].
  destruct (afterGt s1) as [s2|] eqn:H2; [|discriminate].
  intros ->%lazyUntil_Some. apply stripPrefix_Some in H1 as ->.
  apply afterGt_Some in H2 as [a ->].
  apply includes_skip, includes_skip.
  change (62 :: cap ++ re_close re ++ rest) with ([62] ++ cap ++ re_close re ++ rest).
  apply includes_skip, includes_skip, includes_here.
Qed.

Lemma execAll_unclosed re s :
  includes (re_close re) s = false -> forall skip, execAll re skip s = [].
Proof.
  induction s as [|c s IH]; intros Hinc skip; [destruct skip; reflexivity|].
  pose proof Hinc as Hc. apply includes_cons_false in Hc as [_ Hs].
  cbn [execAll]. destruct skip as [|k]; [|apply IH; exact Hs].
  destruct (matchAt re (c :: s)) as [[cap rest]|] eqn:Hm; [|apply IH; exact Hs].
  apply matchAt_Some in Hm. congruence.
Qed.

(** X19: a text without the opening of a response element, or without
    a closing response tag, gives the empty list in all five extractors:
    an empty answer, a missing body or a truncated document is no
    error. *)
Theorem extractors_empty (xmlData : jsstring) :
  includes (js "<D:response") xmlData = false \/
  includes (js "</D:response>") xmlData = false ->
  parseCalendarsResponse xmlData = Ok [] /\
  parseEventsResponse xmlData = Ok [] /\
  parsePropfindResponse xmlData = Ok [] /\
  parseAddressBooksResponse xmlData = Ok [] /\
  parseContactsResponse xmlData = Ok [].
Proof.
  intros H.
  assert (Hnone : execAll responseRegex 0 xmlData = []).
  { destruct H as [H|H].
    - destruct responseRegex_unique as [Ho Hc]. apply execAll_absent; assumption.
    - apply execAll_unclosed. exact H. }
  unfold parseCalendarsResponse, parseEventsResponse, parsePropfindResponse,
    parseAddressBooksResponse, parseContactsResponse.
  rewrite !whileExec_collect, Hnone. repeat split.
Qed.

Lemma extractors_empty_witness :
  parseCalendarsResponse emptyMultistatus = Ok [] /\
  parseEventsResponse emptyMultistatus = Ok [] /\
  parsePropfindResponse emptyMultistatus = Ok [] /\
  parseAddressBooksResponse emptyMultistatus = Ok [] /\
  parseContactsResponse emptyMultistatus = Ok [].
Proof.
  apply (extractors_empty emptyMultistatus). left. vm_compute. reflexivity.
Defined.

Lemma addressBookOfResponse_spec chunk :
  match matchFirst hrefRegex chunk with
  | None => addressBookOfResponse chunk = Ok None
  | Some h =>
      match decodeURIComponent h with
      | Err e => addressBookOfResponse chunk = Err e
      | Ok d =>
          addressBookOfResponse chunk = Ok (Some (JObj
            [("href", JStr d);
             ("displayName", orNull (matchFirst (tag "D:displayname" false) chunk));
             ("description",
              orNull (matchFirst (tag "C:addressbook-description" false) chunk))]))
      end
  end.
Proof.
  unfold addressBookOfResponse. destruct (matchFirst hrefRegex chunk) as [h|]; [|reflexivity].
  destruct (decodeURIComponent h); reflexivity.
Qed.

Lemma contactOfResponse_spec chunk :
  match matchFirst hrefRegex chunk, matchFirst (tag "C:address-data" true) chunk with
  | Some h, Some data =>
      match decodeURIComponent h with
      | Err e => contactOfResponse chunk = Err e
      | Ok d =>
          contactOfResponse chunk = Ok (Some (JObj
            [("href", JStr d);
             ("etag", orNull (matchFirst (tag "D:getetag" false) chunk));
             ("addressData", JStr data)]))
      end
  | _, _ => contactOfResponse chunk = Ok None
  end.
Proof.
  unfold contactOfResponse. destruct (matchFirst hrefRegex chunk) as [h|]; [|reflexivity].
  destruct (matchFirst (tag "C:address-data" true) chunk); [|reflexivity].
  destruct (decodeURIComponent h); reflexivity.
Qed.

(** X20: the extractors of the CardDAV node.  When every href that the
    href pattern finds in a response chunk is a valid percent-encoding,
    parseAddressBooksResponse returns one record for each chunk with an
    href, and parseContactsResponse one for each chunk with an href and
    address data, in document order; a record holds the decoded href,
    and null for a display name, a description or an etag that its chunk
    does not have. *)
Theorem carddav_extractors (xmlData : jsstring) :
  hrefsDecode xmlData ->
  (exists recs,
     parseAddressBooksResponse xmlData = Ok recs /\
     Forall2 (fun chunk r => exists h d,
                matchFirst hrefRegex chunk = Some h /\ decodeURIComponent h = Ok d /\
                r = JObj
                  [("href", JStr d);
                   ("displayName", orNull (matchFirst (tag "D:displayname" false) chunk));
                   ("description",
                    orNull (matchFirst (tag "C:addressbook-description" false) chunk))])
             (withHref (responseChunks xmlData)) recs) /\
  (exists recs,
     parseContactsResponse xmlData = Ok recs /\
     Forall2 (fun chunk r => exists h d data,
                matchFirst hrefRegex chunk = Some h /\ decodeURIComponent h = Ok d /\
                matchFirst (tag "C:address-data" true) chunk = Some data /\
                r = JObj
                  [("href", JStr d);
                   ("etag", orNull (matchFirst (tag "D:getetag" false) chunk));
                   ("addressData", JStr data)])
             (withHrefAndAddressData (responseChunks xmlData)) recs).
Proof.
  intros Hdec. unfold parseAddressBooksResponse, parseContactsResponse.
  rewrite !whileExec_collect. fold (responseChunks xmlData). split.
  - destruct (collect_Ok addressBookOfResponse (responseChunks xmlData)) as (pushes & _ & Hcol).
    { apply bodies_return; [exact Hdec|]. intros chunk.
      pose proof (addressBookOfResponse_spec chunk) as Hs.
      destruct (matchFirst hrefRegex chunk) as [h|]; [|exact Hs].
      intros d Hd. rewrite Hd in Hs. eauto. }
    eexists. split; [exact Hcol|].
    eapply Forall2_impl.
    + unfold withHref. apply (collect_filter addressBookOfResponse); [| |exact Hcol].
      * intros c Hno. pose proof (addressBookOfResponse_spec c) as Hs.
        destruct (matchFirst hrefRegex c); [destruct Hno; eauto | exact Hs].
      * intros c [h Hh] Hnone. pose proof (addressBookOfResponse_spec c) as Hs.
        rewrite Hh in Hs. destruct (decodeURIComponent h); congruence.
    + intros chunk r Hb. cbn beta in Hb. pose proof (addressBookOfResponse_spec chunk) as Hs.
      destruct (matchFirst hrefRegex chunk) as [h|] eqn:Hh; [|congruence].
      destruct (decodeURIComponent h) as [d|e] eqn:Hd; [|congruence].
      rewrite Hs in Hb. injection Hb as <-. exists h, d. auto.
  - destruct (collect_Ok contactOfResponse (responseChunks xmlData)) as (pushes & _ & Hcol).
    { apply bodies_return; [exact Hdec|]. intros chunk.
      pose proof (contactOfResponse_spec chunk) as Hs.
      destruct (matchFirst hrefRegex chunk) as [h|]; [|exact Hs].
      intros d Hd. rewrite Hd in Hs.
      destruct (matchFirst (tag "C:address-data" true) chunk); eauto. }
    eexists. split; [exact Hcol|].
    eapply Forall2_impl.
    + unfold withHrefAndAddressData. apply (collect_filter contactOfResponse); [| |exact Hcol].
      * intros c Hno. pose proof (contactOfResponse_spec c) as Hs.
        destruct (matchFirst hrefRegex c); [|exact Hs].
        destruct (matchFirst (tag "C:address-data" true) c); [|exact Hs].
        destruct Hno. split; eauto.
      * intros c [[h Hh] [data Hdata]] Hnone. pose proof (contactOfResponse_spec c) as Hs.
        rewrite Hh, Hdata in Hs. destruct (decodeURIComponent h); congruence.
    + intros chunk r Hb. cbn beta in Hb. pose proof (contactOfResponse_spec chunk) as Hs.
      destruct (matchFirst hrefRegex chunk) as [h|] eqn:Hh; [|congruence].
      destruct (matchFirst (tag "C:address-data" true) chunk) as [data|]; [|congruence].
      destruct (decodeURIComponent h) as [d|e] eqn:Hd; [|congruence].
      rewrite Hs in Hb. injection Hb as <-. exists h, d, data. auto.
Qed.

Lemma contactsAnswer_decode : hrefsDecode contactsAnswer.
Proof.
  intros chunk h Hin Hh.
  let l := eval vm_compute in (responseChunks contactsAnswer) in
  assert (Hc : responseChunks contactsAnswer = l) by (vm_compute; reflexivity).
  rewrite Hc in Hin.
  repeat (apply elem_of_cons in Hin as [->|Hin]);
    try (vm_compute in Hh; injection Hh as <-; eexists; vm_compute; reflexivity).
  inversion Hin.
Qed.

Lemma carddav_extractors_witness :
  exists recs,
    parseContactsResponse contactsAnswer = Ok recs /\
    Forall2 (fun chunk r => exists h d data,
               matchFirst hrefRegex chunk = Some h /\ decodeURIComponent h = Ok d /\
               matchFirst (tag "C:address-data" true) chunk = Some data /\
               r = JObj
                 [("href", JStr d);
                  ("etag", orNull (matchFirst (tag "D:getetag" false) chunk));
                  ("addressData", JStr data)])
            (withHrefAndAddressData (responseChunks contactsAnswer)) recs.
Proof.
  exact (proj2 (carddav_extractors contactsAnswer contactsAnswer_decode)).
Defined.

(** ** The cases of the WebDAV node *)

(** A request for a normalised path, answered. *)
Lemma WebDav_doRequest_answer h baseRoot idx op opts r :
  isAbsoluteUrl (rq_url opts) = false ->
  WebDav.normalizePath (rq_url opts) = Ok (rq_url opts) ->
  h_send h (withUrl opts (baseRoot ++ rq_url opts)) = Ok r ->
  WebDav.doRequest h baseRoot idx op opts =
    ([withUrl opts (baseRoot ++ rq_url opts)], Ok r).
Proof.
  intros Habs Hn Hsend. unfold WebDav.doRequest. rewrite Habs, Hn. cbn [bind].
  rewrite Hsend. reflexivity.
Qed.

Lemma includes_nil_false pat : pat <> [] -> includes pat [] = false.
Proof. destruct pat; [congruence | reflexivity]. Qed.

(** X21: the download of the WebDAV node refuses two answers, after the
    one request has been sent: an answer without data and body, and an
    answer whose content type mentions application/json in any case.
    In both cases no record is produced and a NodeOperationError with
    the item index is thrown. *)
Theorem webdav_get_refuses h baseRoot idx op path target r :
  stringParam h "path" idx [] = Ok path -> wfString path ->
  WebDav.normalizePath path = Ok target ->
  let rq := {| rq_method := "GET"; rq_url := baseRoot ++ target;
               rq_headers := []; rq_body := None |} in
  h_send h rq = Ok r ->
  (rs_data r = None -> rs_body r = None ->
   exists msg,
     WebDav.caseGet h baseRoot idx op = ([rq], Err (NodeOperationError msg (Some idx)))) /\
  (forall t,
     ~ (rs_data r = None /\ rs_body r = None) ->
     getHeader "content-type" (rs_headers r) = Some t ->
     includes (js "application/json") (map lowerAscii t) = true ->
     exists msg,
       WebDav.caseGet h baseRoot idx op = ([rq], Err (NodeOperationError msg (Some idx)))).
Proof.
  intros Hpath Hwf Hn rq Hsend. subst rq.
  destruct (WebDav_normalizePath_fixed _ _ Hwf Hn) as [Habs Hfix].
  unfold WebDav.caseGet.
  rewrite (ioBind_lift _ _ path Hpath), (ioBind_lift _ _ target Hn).
  rewrite (WebDav_doRequest_answer h baseRoot idx op
             {| rq_method := "GET"; rq_url := target; rq_headers := []; rq_body := None |}
             r Habs Hfix Hsend).
  cbn [ioBind withUrl rq_method rq_url rq_headers rq_body]. split.
  - intros -> ->. eexists. reflexivity.
  - intros t Hdata Hct Hjson. rewrite Hct.
    destruct (coalesce (WebDav.bufferFrom <$> rs_data r) (rs_body r)) as [buf|] eqn:Hbuf.
    + assert (Ht : truthy (Some t) = Some t).
      { destruct t; [|reflexivity]. cbn in Hjson. discriminate. }
      rewrite Ht, Hjson. eexists. reflexivity.
    + destruct Hdata. destruct (rs_data r); [discriminate|].
      destruct (rs_body r); [discriminate|]. split; reflexivity.
Qed.

Lemma webdav_get_refuses_witness :
  exists msg,
    WebDav.caseGet jsonAnswerHost (js "https://dav.example.com") 0 (Some (js "get")) =
      ([{| rq_method := "GET"; rq_url := js "https://dav.example.com" ++ js "/a%20b.txt";
           rq_headers := []; rq_body := None |}],
       Err (NodeOperationError msg (Some 0%nat))).
Proof.
  refine (proj2 (webdav_get_refuses jsonAnswerHost (js "https://dav.example.com") 0%nat
                   (Some (js "get")) (js "/a b.txt") (js "/a%20b.txt") _ _ _ _ _)
            (js "Application/JSON; charset=utf-8") _ _ _).
  - vm_compute. reflexivity.
  - apply wfStringb_ok. vm_compute. reflexivity.
  - vm_compute. reflexivity.
  - vm_compute. reflexivity.
  - vm_compute. intros [H _]. discriminate H.
  - vm_compute. reflexivity.
  - vm_compute. reflexivity.
Defined.

Lemma find_absent (name : jsstring) (b : list (jsstring * binaryRef)) :
  (forall ref, (name, ref) ∉ b) ->
  find (fun kv => jsEqb name (fst kv)) b = None.
Proof.
  induction b as [|[k ref] b IH]; intros Hno; [reflexivity|].
  cbn [find fst]. unfold jsEqb at 1. destruct (decide (name = k)) as [->|Hne].
  - destruct (Hno ref). left.
  - rewrite bool_decide_eq_false_2 by exact Hne. apply IH.
    intros ref' Hin. apply (Hno ref'). right. exact Hin.
Qed.

(** X22: the upload of the WebDAV node sends nothing for an item that
    has no binary data, and nothing for an item whose binary data has no
    entry under the configured property name, unless that name is one
    that every object inherits (such as constructor or toString), which
    [binary[name]] finds: it throws a NodeOperationError with the item
    index. *)
Theorem webdav_put_missing_binary h baseRoot items idx op path name it :
  stringParam h "path" idx [] = Ok path ->
  stringParam h "binaryPropertyName" idx (js "data") = Ok name ->
  items !! idx = Some it ->
  it_binary it = None \/
    (exists b, it_binary it = Some b /\ (forall ref, (name, ref) ∉ b) /\
               name ∉ objectPrototypeKeys) ->
  exists msg,
    WebDav.casePut h baseRoot items idx op = ([], Err (NodeOperationError msg (Some idx))).
Proof.
  intros Hpath Hname Hit Hbin. unfold WebDav.casePut.
  rewrite (ioBind_lift _ _ path Hpath), (ioBind_lift _ _ name Hname), Hit.
  destruct Hbin as [->|(b & -> & Hno & Hown)]; cbn [mbind option_bind].
  - eexists. reflexivity.
  - unfold binaryProperty. rewrite (find_absent _ _ Hno).
    rewrite bool_decide_eq_false_2 by exact Hown. eexists. reflexivity.
Qed.

Lemma webdav_put_missing_binary_witness :
  exists msg,
    WebDav.casePut attachmentHost (js "https://dav.example.com") [binaryItem] 0
        (Some (js "put")) =
      ([], Err (NodeOperationError msg (Some 0%nat))).
Proof.
  apply (webdav_put_missing_binary attachmentHost (js "https://dav.example.com")
           [binaryItem] 0%nat (Some (js "put")) (js "/a.txt") (js "attachment") binaryItem);
    [vm_compute; reflexivity | vm_compute; reflexivity | reflexivity |].
  right. eexists. split; [reflexivity|]. split.
  - intros ref Hin. apply list_elem_of_singleton in Hin. discriminate Hin.
  - vm_compute. intros Hin.
    repeat (apply elem_of_cons in Hin as [Hin|Hin]; [discriminate Hin|]). inversion Hin.
Defined.

(** X23: an operation that a node does not know makes it throw a
    NodeOperationError, which the constructor gets without an item
    index, and nothing is sent; the names are compared exactly, so the
    operations of one node are unknown to the others, and so is a name in
    another case. *)
Theorem unsupported_operation_sends_nothing h baseRoot items idx (op : option jsstring) :
  (op ∉ [Some (js "get"); Some (js "put"); Some (js "propfind"); Some (js "mkcol");
         Some (js "delete"); Some (js "move"); Some (js "copy")] ->
   exists msg, WebDav.dispatch h baseRoot items idx op = ([], Err (NodeOperationError msg None))) /\
  (op ∉ [Some (js "getCalendars"); Some (js "getEvents"); Some (js "createEvent");
         Some (js "updateEvent"); Some (js "deleteEvent")] ->
   exists msg, CalDav.dispatch h baseRoot idx op = ([], Err (NodeOperationError msg None))) /\
  (op ∉ [Some (js "getAddressBooks"); Some (js "getContacts"); Some (js "createContact");
         Some (js "updateContact"); Some (js "deleteContact")] ->
   exists msg, CardDav.dispatch h idx op = ([], Err (NodeOperationError msg None))).
Proof.
  repeat split; intros Hop;
    unfold WebDav.dispatch, CalDav.dispatch, CardDav.dispatch;
    rewrite !bool_decide_eq_false_2
      by (intros Heq; apply Hop; rewrite Heq; repeat first [left | right]);
    eexists; reflexivity.
Qed.

Lemma unsupported_operation_sends_nothing_witness :
  exists msg,
    WebDav.dispatch mkcolHost (js "https://dav.example.com") threeItems 0 (Some (js "MKCOL")) =
      ([], Err (NodeOperationError msg None)).
Proof.
  apply (proj1 (unsupported_operation_sends_nothing mkcolHost (js "https://dav.example.com")
                  threeItems 0%nat (Some (js "MKCOL")))).
  vm_compute. intros H. repeat (apply elem_of_cons in H as [H|H]; [discriminate H|]).
  inversion H.
Defined.

(** ** The cases of the CalDAV node *)

Lemma CalDav_doRequest_sent h baseRoot idx op opts :
  fst (CalDav.doRequest h baseRoot idx op opts) =
  if isAbsoluteUrl (rq_url opts) then [opts]
  else match CalDav.normalizePath (rq_url opts) with
       | Ok n => [withUrl opts (baseRoot ++ n)]
       | Err _ => []
       end.
Proof.
  unfold CalDav.doRequest. destruct (isAbsoluteUrl (rq_url opts)).
  - destruct (h_send h opts); reflexivity.
  - destruct (CalDav.normalizePath (rq_url opts)) as [n|e]; cbn [bind]; [|reflexivity].
    destruct (h_send h _); reflexivity.
Qed.

(** X24: creating, updating and deleting an event address the same
    URL; the update sends the method and the body of the creation and
    adds the header If-Match: * to its headers, whatever the server
    answers. *)
Theorem caldav_event_operations_same_url h baseRoot idx op eventData :
  stringParam h "eventData" idx [] = Ok eventData ->
  let create := fst (CalDav.caseCreateEvent h baseRoot idx op) in
  let update := fst (CalDav.caseUpdateEvent h baseRoot idx op) in
  let delete := fst (CalDav.caseDeleteEvent h baseRoot idx op) in
  map rq_url update = map rq_url create /\
  map rq_url delete = map rq_url create /\
  map rq_method update = map rq_method create /\
  map rq_body update = map rq_body create /\
  map rq_headers update =
    map (fun rq => rq_headers rq ++ [("If-Match", js "*")]) create /\
  map rq_method delete = map (fun _ => "DELETE"%string) create.
Proof.
  intros Hdata create update delete. subst create update delete.
  unfold CalDav.caseCreateEvent, CalDav.caseUpdateEvent, CalDav.casePutEvent,
    CalDav.caseDeleteEvent, CalDav.putEventRequest.
  rewrite !fst_ioBind. cbn [ioLift fst snd app].
  destruct (stringParam h "calendarPath" idx []) as [calendarPath|];
    [|repeat split].
  rewrite !fst_ioBind. cbn [ioLift fst snd app].
  destruct (stringParam h "eventId" idx []) as [eventId|]; [|repeat split].
  rewrite !fst_ioBind. cbn [ioLift fst snd app]. rewrite Hdata.
  rewrite !fst_ioBind. cbn [ioLift fst snd app].
  destruct (CalDav.normalizePath _) as [target|] eqn:Ht; cbn [bind]; [|repeat split].
  rewrite !fst_ioBind, !CalDav_doRequest_sent. cbn [rq_url ioLift fst snd].
  destruct (isAbsoluteUrl target); [|destruct (CalDav.normalizePath target)];
    cbn [app map]; rewrite ?app_nil_r; repeat split;
    repeat match goal with
           | |- context [match ?x with _ => _ end] => destruct x
           end; reflexivity.
Qed.

Lemma caldav_event_operations_same_url_witness :
  map rq_url (fst (CalDav.caseDeleteEvent createEventHost (js "https://dav.example.com") 0
                     (Some (js "deleteEvent")))) =
  map rq_url (fst (CalDav.caseCreateEvent createEventHost (js "https://dav.example.com") 0
                     (Some (js "deleteEvent")))).
Proof.
  refine (proj1 (proj2 (caldav_event_operations_same_url createEventHost
            (js "https://dav.example.com") 0%nat (Some (js "deleteEvent"))
            (js "BEGIN:VCALENDAR") _))).
  vm_compute. reflexivity.
Defined.

(** ** Failed requests *)

(** X25: a request for a path that fails in transport has been sent
    once, to the base root followed by the normalised path, and
    doRequest lets no transport error through as it is: whatever the
    error, it throws a NodeOperationError that carries the item index,
    in the WebDAV and in the CalDAV node. *)
Theorem doRequest_failure_wrapped h baseRoot idx op opts n e resource :
  isAbsoluteUrl (rq_url opts) = false ->
  h_send h (withUrl opts (baseRoot ++ n)) = Err e ->
  h_stringParam h "resource" idx = Ok resource ->
  (WebDav.normalizePath (rq_url opts) = Ok n ->
   exists msg,
     WebDav.doRequest h baseRoot idx op opts =
       ([withUrl opts (baseRoot ++ n)], Err (NodeOperationError msg (Some idx)))) /\
  (CalDav.normalizePath (rq_url opts) = Ok n ->
   exists msg,
     CalDav.doRequest h baseRoot idx op opts =
       ([withUrl opts (baseRoot ++ n)], Err (NodeOperationError msg (Some idx)))).
Proof.
  intros Habs Hsend Hres. split; intros Hn.
  - unfold WebDav.doRequest, WebDav.failRequest. rewrite Habs, Hn. cbn [bind].
    rewrite Hsend, Hres. eexists. reflexivity.
  - unfold CalDav.doRequest, CalDav.failRequest. rewrite Habs, Hn. cbn [bind].
    rewrite Hsend, Hres. eexists. reflexivity.
Qed.

Lemma doRequest_failure_wrapped_witness :
  exists msg,
    CalDav.doRequest refusedHost (js "https://dav.example.com") 0 (Some (js "deleteEvent"))
      {| rq_method := "DELETE"; rq_url := js "/my%20cal/e1.ics";
         rq_headers := []; rq_body := None |} =
    ([{| rq_method := "DELETE"; rq_url := js "https://dav.example.com/my%20cal/e1.ics";
         rq_headers := []; rq_body := None |}],
     Err (NodeOperationError msg (Some 0%nat))).
Proof.
  refine (proj2 (doRequest_failure_wrapped refusedHost (js "https://dav.example.com") 0%nat
            (Some (js "deleteEvent"))
            {| rq_method := "DELETE"; rq_url := js "/my%20cal/e1.ics";
               rq_headers := []; rq_body := None |}
            (js "/my%20cal/e1.ics") (Thrown refusedError) (Some (js "calendar")) _ _ _) _);
    vm_compute; reflexivity.
Defined.

(** ** Assigning into [item.json] *)

Lemma getField_setField_eq k v o : getField k (setField k v o) = Some v.
Proof.
  induction o as [|[k' v'] o IH]; cbn [setField getField].
  - rewrite String.eqb_refl. reflexivity.
  - destruct (String.eqb_spec k k') as [->|Hne]; cbn [getField].
    + rewrite String.eqb_refl. reflexivity.
    + destruct (String.eqb_spec k k'); [contradiction | exact IH].
Qed.

Lemma getField_setField_ne k k' v o :
  k <> k' -> getField k' (setField k v o) = getField k' o.
Proof.
  intros Hne. induction o as [|[k0 v0] o IH]; cbn [setField getField].
  - destruct (String.eqb_spec k' k); [congruence | reflexivity].
  - destruct (String.eqb_spec k k0) as [->|Hk]; cbn [getField].
    + destruct (String.eqb_spec k' k0); [congruence | reflexivity].
    + destruct (String.eqb_spec k' k0); [reflexivity | exact IH].
Qed.

Lemma getField_assigned_other k fields : forall obj,
  k ∉ fields.*1 ->
  getField k (foldl (fun o kv => setField (fst kv) (snd kv) o) obj fields) = getField k obj.
Proof.
  induction fields as [|[k0 v0] fields IH]; intros obj Hno; [reflexivity|].
  cbn [foldl fst snd]. rewrite IH.
  - apply getField_setField_ne. intros ->. apply Hno. left.
  - intros Hin. apply Hno. right. exact Hin.
Qed.

Lemma getField_assigned k v fields : forall obj,
  NoDup fields.*1 -> (k, v) ∈ fields ->
  getField k (foldl (fun o kv => setField (fst kv) (snd kv) o) obj fields) = Some v.
Proof.
  induction fields as [|[k0 v0] fields IH]; intros obj Hnd Hin; [inversion Hin|].
  cbn [fmap list_fmap fst] in Hnd. apply NoDup_cons in Hnd as [Hk0 Hnd].
  cbn [foldl fst snd]. apply elem_of_cons in Hin as [[= -> ->]|Hin].
  - rewrite getField_assigned_other by exact Hk0. apply getField_setField_eq.
  - apply IH; assumption.
Qed.

(** X26: the assignments [item.json.k = v] of a successful item change
    the item's own [json] object and no other: every field that the
    object held under another name keeps its value, and every assigned
    name holds the assigned value afterwards, whether or not the object
    had the name before. *)
Theorem assignFields_fields fields addr (heap heap' : store) :
  assignFields fields addr heap = Ok heap' ->
  exists obj obj',
    heap !! addr = Some obj /\ heap' !! addr = Some obj' /\
    (forall a, a <> addr -> heap' !! a = heap !! a) /\
    (forall k, k ∉ fields.*1 -> getField k obj' = getField k obj) /\
    (NoDup fields.*1 -> forall k v, (k, v) ∈ fields -> getField k obj' = Some v).
Proof.
  unfold assignFields. destruct (heap !! addr) as [obj|] eqn:Hobj; [|discriminate].
  intros [= <-]. exists obj. eexists. split; [reflexivity|]. split; [apply lookup_insert_eq|].
  split; [|split].
  - intros a Ha. apply lookup_insert_ne. congruence.
  - intros k Hk. apply getField_assigned_other. exact Hk.
  - intros Hnd k v Hin. apply getField_assigned; assumption.
Qed.

Lemma assignFields_fields_witness :
  exists obj obj',
    threeNamedObjects !! 1%nat = Some obj /\
    (<[1%nat := [("name", JStr (js "b")); ("success", JBool true);
                 ("statusCode", JNum 201); ("eventId", JStr (js "evt-1"));
                 ("calendarPath", JStr (js "/cal"))]]> threeNamedObjects) !! 1%nat
      = Some obj' /\
    (forall a, a <> 1%nat ->
       (<[1%nat := [("name", JStr (js "b")); ("success", JBool true);
                    ("statusCode", JNum 201); ("eventId", JStr (js "evt-1"));
                    ("calendarPath", JStr (js "/cal"))]]> threeNamedObjects) !! a
       = threeNamedObjects !! a) /\
    (forall k,
       k ∉ (CalDav.eventResult (okResponse 201 EmptyString) (js "evt-1") (js "/cal")).*1 ->
       getField k obj' = getField k obj) /\
    (NoDup (CalDav.eventResult (okResponse 201 EmptyString) (js "evt-1") (js "/cal")).*1 ->
     forall k v,
       (k, v) ∈ CalDav.eventResult (okResponse 201 EmptyString) (js "evt-1") (js "/cal") ->
       getField k obj' = Some v).
Proof.
  apply (assignFields_fields
           (CalDav.eventResult (okResponse 201 EmptyString) (js "evt-1") (js "/cal"))
           1%nat threeNamedObjects).
  reflexivity.
Defined.

(** ** The records of a PROPFIND answer *)

Lemma matchFirst_unclosed re s :
  includes (re_close re) s = false -> matchFirst re s = None.
Proof.
  induction s as [|c s IH]; intros Hinc.
  - cbn [matchFirst]. destruct (matchAt re []) as [[cap rest]|] eqn:Hm; [|reflexivity].
    apply matchAt_Some in Hm. congruence.
  - pose proof Hinc as Hc. apply includes_cons_false in Hc as [_ Hs].
    cbn [matchFirst]. destruct (matchAt re (c :: s)) as [[cap rest]|] eqn:Hm; [|apply IH; exact Hs].
    apply matchAt_Some in Hm. congruence.
Qed.

Lemma resourcetype_unique :
  headUnique (re_open (tag "D:resourcetype" false)) /\
  headUnique (re_close (tag "D:resourcetype" false)).
Proof. apply tag_unique; [apply not_in_js; reflexivity | lia]. Qed.

(** X27: the record that parsePropfindResponse builds for a response
    chunk with a decodable href has the five fields href, contentType,
    lastModified, contentLength and isCollection, in this order.
    isCollection is a boolean in every case: it tells whether the text
    of the resourcetype element contains "collection", and it is false
    when the chunk has no such element or none that is closed;
    contentLength is null when the chunk has no getcontentlength
    element. *)
Theorem propfind_record_fields (chunk h d : jsstring) :
  matchFirst hrefRegex chunk = Some h -> decodeURIComponent h = Ok d ->
  exists fields,
    resourceOfResponse chunk = Ok (Some (JObj fields)) /\
    map fst fields =
      ["href"; "contentType"; "lastModified"; "contentLength"; "isCollection"]%string /\
    getField "href" fields = Some (JStr d) /\
    (forall lead attrs t rest,
       chunk = lead ++ element (tag "D:resourcetype" false) attrs t ++ rest ->
       includes (js "<D:resourcetype") lead = false -> 62 ∉ attrs ->
       includes (js "</D:resourcetype>") t = false ->
       Forall (fun c => isLineTerminator c = false) t ->
       getField "isCollection" fields = Some (JBool (includes (js "collection") t))) /\
    (includes (js "<D:resourcetype") chunk = false \/
     includes (js "</D:resourcetype>") chunk = false ->
     getField "isCollection" fields = Some (JBool false)) /\
    (includes (js "<D:getcontentlength") chunk = false ->
     getField "contentLength" fields = Some JNull).
Proof.
  intros Hh Hd. unfold resourceOfResponse. rewrite Hh, Hd. cbn [bind].
  eexists. split; [reflexivity|]. split; [reflexivity|]. split; [reflexivity|].
  destruct resourcetype_unique as [Ho Hc].
  split; [|split].
  - intros lead attrs t rest -> Hlead Hattrs Ht Hline.
    rewrite (matchFirst_element (tag "D:resourcetype" false) Ho Hc lead attrs t rest);
      [reflexivity | exact Hlead | exact Hattrs | exact Ht |].
    eapply Forall_impl; [exact Hline|]. intros c Hlt. unfold dotMatches.
    cbn beta in Hlt. rewrite Hlt. reflexivity.
  - intros [Hno|Hno].
    + rewrite (matchFirst_absent (tag "D:resourcetype" false) Ho chunk Hno). reflexivity.
    + rewrite (matchFirst_unclosed (tag "D:resourcetype" false) chunk Hno). reflexivity.
  - intros Hno.
    assert (Hu : headUnique (re_open (tag "D:getcontentlength" false))).
    { apply tag_unique; [apply not_in_js; reflexivity | lia]. }
    rewrite (matchFirst_absent (tag "D:getcontentlength" false) Hu chunk Hno). reflexivity.
Qed.

Lemma propfind_record_fields_witness :
  exists fields,
    resourceOfResponse folderChunk = Ok (Some (JObj fields)) /\
    map fst fields =
      ["href"; "contentType"; "lastModified"; "contentLength"; "isCollection"]%string /\
    getField "href" fields = Some (JStr (js "/files/docs/")) /\
    (forall lead attrs t rest,
       folderChunk = lead ++ element (tag "D:resourcetype" false) attrs t ++ rest ->
       includes (js "<D:resourcetype") lead = false -> 62 ∉ attrs ->
       includes (js "</D:resourcetype>") t = false ->
       Forall (fun c => isLineTerminator c = false) t ->
       getField "isCollection" fields = Some (JBool (includes (js "collection") t))) /\
    (includes (js "<D:resourcetype") folderChunk = false \/
     includes (js "</D:resourcetype>") folderChunk = false ->
     getField "isCollection" fields = Some (JBool false)) /\
    (includes (js "<D:getcontentlength") folderChunk = false ->
     getField "contentLength" fields = Some JNull).
Proof.
  apply (propfind_record_fields folderChunk (js "/files/docs/") (js "/files/docs/"));
    vm_compute; reflexivity.
Defined.

(** ** The requests of a whole run *)

Lemma WebDav_loop_sent h baseRoot items rq : forall todo idx acc,
  rq ∈ fst (WebDav.loop h baseRoot items todo idx acc) ->
  exists j, (idx <= j < idx + length todo)%nat /\
    rq ∈ fst (WebDav.processItem h baseRoot items j).
Proof.
  induction todo as [|it todo IH]; intros idx acc; cbn [WebDav.loop].
  - intros Hin. inversion Hin.
  - destruct (WebDav.processItem h baseRoot items idx) as [sent [out|e]] eqn:Hrun.
    + destruct (WebDav.loop h baseRoot items todo (S idx) _) as [sent' r] eqn:Hrec.
      cbn [fst]. intros [Hin|Hin]%elem_of_app.
      * exists idx. rewrite Hrun. split; [cbn; lia | exact Hin].
      * destruct (IH (S idx) (acc ++ [out])) as (j & Hj & Hin'); [rewrite Hrec; exact Hin|].
        exists j. split; [cbn; lia | exact Hin'].
    + destruct (h_continueOnFail h).
      * destruct (WebDav.loop h baseRoot items todo (S idx) _) as [sent' r] eqn:Hrec.
        cbn [fst]. intros [Hin|Hin]%elem_of_app.
        -- exists idx. rewrite Hrun. split; [cbn; lia | exact Hin].
        -- destruct (IH (S idx) (acc ++ [WebDav.errorItem e idx])) as (j & Hj & Hin');
             [rewrite Hrec; exact Hin|].
           exists j. split; [cbn; lia | exact Hin'].
      * cbn [fst]. intros Hin. exists idx. rewrite Hrun. split; [cbn; lia | exact Hin].
Qed.

(** X28: a run of the WebDAV node sends a request only if the
    credential's base URL, trimmed, starts with http:// or https://, and
    every request of the run goes to that URL, without its trailing
    slash if it has one, followed by a path that starts with a slash. *)
Theorem webdav_run_requests h items rq :
  rq ∈ fst (WebDav.execute h items) ->
  exists raw t,
    h_baseUrl h = Some raw /\ isAbsoluteUrl (trim raw) = true /\
    rq_url rq = stripTrailingSlash (trim raw) ++ 47 :: t.
Proof.
  unfold WebDav.execute, validateBaseUrl.
  destruct (h_baseUrl h) as [raw|]; cbn [fmap option_fmap option_map];
    [|intros Hin; inversion Hin].
  destruct (trim raw) as [|c b] eqn:Htrim; [intros Hin; inversion Hin|].
  destruct (isAbsoluteUrl (c :: b)) eqn:Habs; [|intros Hin; inversion Hin].
  intros (j & _ & Hin)%WebDav_loop_sent.
  destruct (WebDav_processItem_shape h (stripTrailingSlash (c :: b)) items j)
    as [[Hf _]|(rq' & t & Hf & Hu & _)]; rewrite Hf in Hin.
  - inversion Hin.
  - apply list_elem_of_singleton in Hin as ->. exists raw, t.
    rewrite Htrim. split; [reflexivity|]. split; [exact Habs | exact Hu].
Qed.

Lemma webdav_run_requests_witness :
  exists raw t,
    h_baseUrl failFirstFileHost = Some raw /\ isAbsoluteUrl (trim raw) = true /\
    rq_url {| rq_method := "DELETE"; rq_url := js "https://dav.example.com/e1";
              rq_headers := []; rq_body := None |}
    = stripTrailingSlash (trim raw) ++ 47 :: t.
Proof.
  apply (webdav_run_requests failFirstFileHost threeItems).
  vm_compute. right. left.
Defined.

(** ** The success flag, for every answer *)

(** A request of the WebDAV node for the normalised form of a path,
    answered. *)
Lemma WebDav_doRequest_target h baseRoot idx op path target opts r :
  wfString path -> WebDav.normalizePath path = Ok target ->
  rq_url opts = target ->
  h_send h (withUrl opts (baseRoot ++ target)) = Ok r ->
  WebDav.doRequest h baseRoot idx op opts = ([withUrl opts (baseRoot ++ target)], Ok r).
Proof.
  intros Hwf Hn <- Hsend.
  destruct (WebDav_normalizePath_fixed _ _ Hwf Hn) as [Habs Hfix].
  apply WebDav_doRequest_answer; assumption.
Qed.

(** C10: whatever the server answers to the one request of the
    operation, create-directory returns a record whose [success] is true
    exactly for the status 201, and upload, delete, move and copy return
    a record whose [success] is true exactly for the statuses 200 to 299;
    [statusCode] is the status of that answer.  Conversely a record that
    one of these operations returns reports the answer to the one request
    it has sent. *)
Theorem webdav_success_flag h baseRoot items idx op :
  (forall path target r,
     stringParam h "path" idx [] = Ok path -> wfString path ->
     WebDav.normalizePath path = Ok target ->
     let rq := {| rq_method := "MKCOL"; rq_url := baseRoot ++ target;
                  rq_headers := []; rq_body := None |} in
     h_send h rq = Ok r ->
     exists out b,
       WebDav.caseMkcol h baseRoot idx op = ([rq], Ok out) /\
       statusCodeOf (WebDav.o_json out) = Some (rs_status r) /\
       successOf (WebDav.o_json out) = Some b /\
       (b = true <-> rs_status r = 201)) /\
  (forall path name it binary ref binData target r,
     stringParam h "path" idx [] = Ok path -> wfString path ->
     stringParam h "binaryPropertyName" idx (js "data") = Ok name ->
     items !! idx = Some it -> it_binary it = Some binary ->
     binaryProperty name binary = Some ref ->
     h_getBinaryDataBuffer h idx name = Ok binData ->
     WebDav.normalizePath path = Ok target ->
     let rq := {| rq_method := "PUT"; rq_url := baseRoot ++ target;
                  rq_headers :=
                    [("Content-Type",
                      default (js "application/octet-stream") (truthy (mimeType ref)))];
                  rq_body := Some (RawBytes binData) |} in
     h_send h rq = Ok r ->
     exists out b,
       WebDav.casePut h baseRoot items idx op = ([rq], Ok out) /\
       statusCodeOf (WebDav.o_json out) = Some (rs_status r) /\
       successOf (WebDav.o_json out) = Some b /\
       (b = true <-> 200 <= rs_status r <= 299)) /\
  (forall path target r,
     stringParam h "path" idx [] = Ok path -> wfString path ->
     WebDav.normalizePath path = Ok target ->
     let rq := {| rq_method := "DELETE"; rq_url := baseRoot ++ target;
                  rq_headers := []; rq_body := None |} in
     h_send h rq = Ok r ->
     exists out b,
       WebDav.caseDelete h baseRoot idx op = ([rq], Ok out) /\
       statusCodeOf (WebDav.o_json out) = Some (rs_status r) /\
       successOf (WebDav.o_json out) = Some b /\
       (b = true <-> 200 <= rs_status r <= 299)) /\
  (forall method run path destination overwrite header target r,
     (method = "MOVE"%string /\ run = WebDav.caseMove h baseRoot idx op) \/
     (method = "COPY"%string /\ run = WebDav.caseCopy h baseRoot idx op) ->
     stringParam h "path" idx [] = Ok path -> wfString path ->
     stringParam h "destination" idx [] = Ok destination ->
     boolParam h "overwrite" idx false = Ok overwrite ->
     WebDav.destinationHeader h baseRoot destination = Ok header ->
     WebDav.normalizePath path = Ok target ->
     let rq := {| rq_method := method; rq_url := baseRoot ++ target;
                  rq_headers := [("Destination", header);
                                 ("Overwrite", if overwrite then js "T" else js "F")];
                  rq_body := None |} in
     h_send h rq = Ok r ->
     exists out b,
       run = ([rq], Ok out) /\
       statusCodeOf (WebDav.o_json out) = Some (rs_status r) /\
       successOf (WebDav.o_json out) = Some b /\
       (b = true <-> 200 <= rs_status r <= 299)) /\
  (forall sent out,
     WebDav.caseMkcol h baseRoot idx op = (sent, Ok out) ->
     exists rq r b, sent = [rq] /\ h_send h rq = Ok r /\
       statusCodeOf (WebDav.o_json out) = Some (rs_status r) /\
       successOf (WebDav.o_json out) = Some b /\
       (b = true <-> rs_status r = 201)) /\
  (forall run sent out,
     run = WebDav.casePut h baseRoot items idx op \/
     run = WebDav.caseDelete h baseRoot idx op \/
     run = WebDav.caseMove h baseRoot idx op \/
     run = WebDav.caseCopy h baseRoot idx op ->
     run = (sent, Ok out) ->
     exists rq r b, sent = [rq] /\ h_send h rq = Ok r /\
       statusCodeOf (WebDav.o_json out) = Some (rs_status r) /\
       successOf (WebDav.o_json out) = Some b /\
       (b = true <-> 200 <= rs_status r <= 299)).
Proof.
  split; [|split; [|split; [|split; [|split]]]].
  - intros path target r Hpath Hwf Hn rq Hsend. subst rq.
    unfold WebDav.caseMkcol.
    rewrite (ioBind_lift _ _ path Hpath), (ioBind_lift _ _ target Hn).
    rewrite (WebDav_doRequest_target h baseRoot idx op path target
               {| rq_method := "MKCOL"; rq_url := target; rq_headers := []; rq_body := None |}
               r Hwf Hn eq_refl Hsend).
    eexists _, (rs_status r =? 201). split; [reflexivity|].
    split; [reflexivity|]. split; [reflexivity|]. apply Z.eqb_eq.
  - intros path name it binary ref binData target r
      Hpath Hwf Hname Hit Hbin Href Hdata Hn rq Hsend. subst rq.
    unfold WebDav.casePut.
    rewrite (ioBind_lift _ _ path Hpath), (ioBind_lift _ _ name Hname), Hit, Hbin.
    cbn [mbind option_bind]. rewrite Href.
    rewrite (ioBind_lift _ _ binData Hdata), (ioBind_lift _ _ target Hn).
    rewrite (WebDav_doRequest_target h baseRoot idx op path target
               {| rq_method := "PUT"; rq_url := target;
                  rq_headers :=
                    [("Content-Type",
                      default (js "application/octet-stream") (truthy (mimeType ref)))];
                  rq_body := Some (RawBytes binData) |}
               r Hwf Hn eq_refl Hsend).
    eexists _, (is2xx (rs_status r)). split; [reflexivity|].
    split; [reflexivity|]. split; [reflexivity|]. apply is2xx_spec.
  - intros path target r Hpath Hwf Hn rq Hsend. subst rq.
    unfold WebDav.caseDelete.
    rewrite (ioBind_lift _ _ path Hpath), (ioBind_lift _ _ target Hn).
    rewrite (WebDav_doRequest_target h baseRoot idx op path target
               {| rq_method := "DELETE"; rq_url := target; rq_headers := []; rq_body := None |}
               r Hwf Hn eq_refl Hsend).
    eexists _, (is2xx (rs_status r)). split; [reflexivity|].
    split; [reflexivity|]. split; [reflexivity|]. apply is2xx_spec.
  - intros method run path destination overwrite header target r Hrun
      Hpath Hwf Hdest Hover Hheader Hn rq Hsend. subst rq.
    assert (Hcase : run = WebDav.caseMoveCopy h baseRoot idx op method)
      by (destruct Hrun as [[-> ->]|[-> ->]]; reflexivity).
    rewrite Hcase. unfold WebDav.caseMoveCopy.
    rewrite (ioBind_lift _ _ path Hpath), (ioBind_lift _ _ destination Hdest),
      (ioBind_lift _ _ overwrite Hover), (ioBind_lift _ _ header Hheader),
      (ioBind_lift _ _ target Hn).
    rewrite (WebDav_doRequest_target h baseRoot idx op path target
               {| rq_method := method; rq_url := target;
                  rq_headers := [("Destination", header);
                                 ("Overwrite", if overwrite then js "T" else js "F")];
                  rq_body := None |}
               r Hwf Hn eq_refl Hsend).
    eexists _, (is2xx (rs_status r)). split; [reflexivity|].
    split; [reflexivity|]. split; [reflexivity|]. apply is2xx_spec.
  - unfold WebDav.caseMkcol. intros sent out H.
    io_step H. io_step H. io_step H.
    apply WebDav_doRequest_Ok in Hm1 as (rq & -> & Hsend & _).
    apply ioLift_Ok in H as [-> [= <-]].
    exists rq, a1, (rs_status a1 =? 201). cbn. repeat split; try assumption.
    + apply Z.eqb_eq.
    + apply Z.eqb_eq.
  - intros run sent out [->|[->|[->| ->]]] H.
    + unfold WebDav.casePut in H. io_step H. io_step H.
      destruct (items !! idx) as [inputItem|]; [|apply ioLift_Ok in H as [_ [=]]].
      destruct (it_binary inputItem ≫= _) as [ref|]; [|apply ioLift_Ok in H as [_ [=]]].
      io_step H. io_step H. io_step H.
      apply WebDav_doRequest_Ok in Hm3 as (rq & -> & Hsend & _).
      apply ioLift_Ok in H as [-> [= <-]].
      exists rq, a3, (is2xx (rs_status a3)). cbn.
      repeat split; try assumption; apply is2xx_spec; assumption.
    + unfold WebDav.caseDelete in H. io_step H. io_step H. io_step H.
      apply WebDav_doRequest_Ok in Hm1 as (rq & -> & Hsend & _).
      apply ioLift_Ok in H as [-> [= <-]].
      exists rq, a1, (is2xx (rs_status a1)). cbn.
      repeat split; try assumption; apply is2xx_spec; assumption.
    + unfold WebDav.caseMove, WebDav.caseMoveCopy in H.
      do 6 io_step H.
      apply WebDav_doRequest_Ok in Hm4 as (rq & -> & Hsend & _).
      apply ioLift_Ok in H as [-> [= <-]].
      exists rq, a4, (is2xx (rs_status a4)). cbn.
      repeat split; try assumption; apply is2xx_spec; assumption.
    + unfold WebDav.caseCopy, WebDav.caseMoveCopy in H.
      do 6 io_step H.
      apply WebDav_doRequest_Ok in Hm4 as (rq & -> & Hsend & _).
      apply ioLift_Ok in H as [-> [= <-]].
      exists rq, a4, (is2xx (rs_status a4)). cbn.
      repeat split; try assumption; apply is2xx_spec; assumption.
Qed.

Lemma webdav_success_flag_witness :
  exists out b,
    WebDav.casePut uploadHost (js "https://dav.example.com") [binaryItem] 0
        (Some (js "put")) =
      ([{| rq_method := "PUT";
           rq_url := js "https://dav.example.com" ++ js "/notes/a%20b.txt";
           rq_headers :=
             [("Content-Type",
               default (js "application/octet-stream") (truthy (Some (js "text/plain"))))];
           rq_body := Some (RawBytes [104; 105]) |}], Ok out) /\
    statusCodeOf (WebDav.o_json out) = Some 204 /\
    successOf (WebDav.o_json out) = Some b /\
    (b = true <-> 200 <= 204 <= 299).
Proof.
  refine (proj1 (proj2 (webdav_success_flag uploadHost (js "https://dav.example.com")
                          [binaryItem] 0%nat (Some (js "put"))))
            (js "/notes/a b.txt") (js "data") binaryItem
            [(js "data", {| mimeType := Some (js "text/plain") |})]
            {| mimeType := Some (js "text/plain") |} [104; 105] (js "/notes/a%20b.txt")
            (okResponse 204 EmptyString) _ _ _ _ _ _ _ _ _).
  - vm_compute. reflexivity.
  - apply wfStringb_ok. vm_compute. reflexivity.
  - vm_compute. reflexivity.
  - reflexivity.
  - reflexivity.
  - vm_compute. reflexivity.
  - reflexivity.
  - vm_compute. reflexivity.
  - vm_compute. reflexivity.
Defined.

(** ** Where the code leaves the specification *)

(** C2 at the calendar path /cal/ and the event id evt-1: the run sends
    one request, a PUT with the header Content-Type: text/calendar and
    the event data, and its URL is {baseRoot}/cal//evt-1.ics, not
    {baseRoot}/cal/evt-1.ics: the case puts a slash between the calendar
    path and the id whether or not the path ends with one, and
    normalizePath keeps the empty segment.  A path of the form that the
    placeholder of the field shows, /calendars/user/calendar/, gets the
    doubled slash as well; for /cal the URL has the single slash. *)
Theorem createEvent_trailing_slash :
  (fst <$> CalDav.execute 5 createEventHost [plainItem 0] (<[0%nat := []]> ∅)) =
    Some [{| rq_method := "PUT";
             rq_url := js "https://dav.example.com/cal//evt-1.ics";
             rq_headers := [("Content-Type", js "text/calendar")];
             rq_body := Some (RawText (js "BEGIN:VCALENDAR")) |}] /\
  js "https://dav.example.com/cal//evt-1.ics" <>
    js "https://dav.example.com" ++ js "/cal/evt-1.ics" /\
  (map rq_url <$>
     (fst <$> CalDav.execute 5 placeholderEventHost [plainItem 0] (<[0%nat := []]> ∅))) =
    Some [js "https://dav.example.com/calendars/user/calendar//event-123.ics"] /\
  CalDav.normalizePath (CalDav.eventPath (CalDav.withLeadingSlash (js "/cal")) (js "evt-1"))
    = Ok (js "/cal/evt-1.ics").
Proof.
  split; [vm_compute; reflexivity|]. split; [vm_compute; discriminate|].
  split; vm_compute; reflexivity.
Qed.

(** C4 at a response whose href is no valid percent-encoding, such as
    /files/100%.txt: the calendar and the property extractor throw the
    URIError of decodeURIComponent instead of returning a list, and so
    does the event extractor when the response has calendar data.
    normalizePath, which decodes inside a [try], returns for the same
    text. *)
Theorem extractor_throws_on_bad_href :
  parseCalendarsResponse badHref = Err URIError /\
  parsePropfindResponse badHref = Err URIError /\
  parseEventsResponse badHrefEvent = Err URIError /\
  (~ exists recs, parseCalendarsResponse badHref = Ok recs) /\
  (~ exists recs, parsePropfindResponse badHref = Ok recs) /\
  decodeURIComponent (js "/files/100%.txt") = Err URIError /\
  WebDav.normalizePath (js "/files/100%.txt") = Ok (js "/files/100%25.txt") /\
  CalDav.normalizePath (js "/files/100%.txt") = Ok (js "/files/100%25.txt").
Proof.
  assert (Hc : parseCalendarsResponse badHref = Err URIError) by (vm_compute; reflexivity).
  assert (Hp : parsePropfindResponse badHref = Err URIError) by (vm_compute; reflexivity).
  split; [exact Hc|]. split; [exact Hp|]. split; [vm_compute; reflexivity|].
  split; [intros [recs Hrecs]; rewrite Hc in Hrecs; discriminate|].
  split; [intros [recs Hrecs]; rewrite Hp in Hrecs; discriminate|].
  repeat split; vm_compute; reflexivity.
Qed.
